(** * The structured fuzzing harness of expat: [expat/fuzz/xml_lpm_fuzzer.cpp]

    The harness replays a test case (a chosen encoding, a list of allocation
    indices to fail, a list of actions) against the XML parser library.  The
    harness itself is embedded here function by function.  The parser
    library and the C allocator are not part of the file: they are taken as
    an [Environment], a strategy that says, for every entry point the
    harness calls, which allocator hooks and which registered handlers the
    library calls back and what it finally returns. *)

From Stdlib Require Import ZArith List String Ascii Bool Lia.
Import ListNotations.

Local Open Scope string_scope.
Local Open Scope list_scope.
Local Open Scope Z_scope.

(** ** Machine integers and C data *)

(** [int] is a 32-bit two's complement integer; arithmetic on it is written
    with the wrap-around of the usual compilers. *)
Definition int_wrap (z : Z) : Z := (z + 2 ^ 31) mod 2 ^ 32 - 2 ^ 31.

(** A pointer to an opaque object: [NULL] is 0. *)
Definition ptr := Z.
Definition NULL : ptr := 0.

(** [XML_Parser] is a pointer to the library's parser object. *)
Definition XML_Parser := ptr.

(** [const XML_Char*]: [None] is the null pointer, [Some obj] points to the
    first unit of a memory object whose units are [obj] (a terminating NUL,
    when there is one, is among them). *)
Definition cstr := option string.

(** ** The test case ([xml_lpm_fuzzer.pb.h]) *)

Module xml_lpm_fuzzer.

(** Modelled from the spec: the message schema is not among the sources.
    The [Encoding] enum has the five names the driver switches on; a value
    that is none of them is kept with its number. *)
Inductive Encoding : Type :=
| UTF8
| UTF16
| ISO88591
| ASCII
| NONE
| Encoding_unrecognized (value : Z).

(** Modelled from the spec: an action is a tagged union over chunk bytes,
    last-chunk bytes, a reset marker and external-entity bytes;
    [ACTION_NOT_SET] is the case of no variant, the [default] of the
    driver's switch. *)
Inductive Action : Type :=
| kChunk (chunk : string)
| kLastChunk (last_chunk : string)
| kReset
| kExternalEntity (external_entity : string)
| ACTION_NOT_SET.

(** Modelled from the spec: a test case has an encoding, a list of
    allocation indices to fail and a list of actions. *)
Record Testcase : Type := {
  encoding : Encoding;
  fail_allocations : list Z;
  actions : list Action
}.

End xml_lpm_fuzzer.

(** ** Types of the parser library ([expat.h]) *)

(** Modelled from the spec: the status a feed or resume call reports is one
    of error, ok and suspended (the header that declares the enumeration is
    not among the sources). *)
Inductive XML_Status : Type :=
| XML_STATUS_ERROR
| XML_STATUS_OK
| XML_STATUS_SUSPENDED.

(** Modelled from the spec: the tags of a content-model node.  A tag outside
    the six names is kept with its number. *)
Inductive XML_Content_Type : Type :=
| XML_CTYPE_EMPTY
| XML_CTYPE_ANY
| XML_CTYPE_MIXED
| XML_CTYPE_NAME
| XML_CTYPE_CHOICE
| XML_CTYPE_SEQ
| XML_CTYPE_other (tag : Z).

(** Modelled from the spec: the quantifier of a content-model node. *)
Inductive XML_Content_Quant : Type :=
| XML_CQUANT_NONE
| XML_CQUANT_OPT
| XML_CQUANT_REP
| XML_CQUANT_PLUS.

(** [XML_Content]: [children] is a pointer to an array of nodes, [None] when
    null; [numchildren] is the count the node announces, which need not be
    the size of that array. *)
#[warnings="-register-all"]
Inductive XML_Content : Type :=
| Build_XML_Content (type : XML_Content_Type) (quant : XML_Content_Quant)
                    (name : cstr) (numchildren : nat)
                    (children : option (list XML_Content)).

Definition type (c : XML_Content) : XML_Content_Type :=
  match c with Build_XML_Content t _ _ _ _ => t end.
Definition quant (c : XML_Content) : XML_Content_Quant :=
  match c with Build_XML_Content _ q _ _ _ => q end.
Definition name (c : XML_Content) : cstr :=
  match c with Build_XML_Content _ _ n _ _ => n end.
Definition numchildren (c : XML_Content) : nat :=
  match c with Build_XML_Content _ _ _ n _ => n end.
Definition children (c : XML_Content) : option (list XML_Content) :=
  match c with Build_XML_Content _ _ _ _ ch => ch end.

(** ** The allocation-failure injector *)

(** The calls of the C allocator that the hooks pass through. *)
Inductive libc_call : Type :=
| malloc (size : Z)
| realloc (p : ptr) (size : Z)
| free (p : ptr).

(** What the hooks read and write: the two globals and, behind them, the C
    heap, kept as the history of the allocator calls really performed. *)
Record Allocator : Type := {
  allocation_count : Z;
  fail_allocations : list Z;
  heap : list libc_call
}.

Section Hooks.

(** The C allocator: the pointer a call returns, given the calls before it. *)
Variable libc : list libc_call -> libc_call -> ptr.

Definition perform (c : libc_call) (a : Allocator) : ptr * Allocator :=
  (libc (heap a) c,
   {| allocation_count := allocation_count a;
      fail_allocations := fail_allocations a;
      heap := heap a ++ [c] |}).

(** [for (auto index : fail_allocations) if (index == allocation_count) return NULL;]
    : [true] when the loop returns from inside. *)
Fixpoint in_fail_list (indices : list Z) (count : Z) : bool :=
  match indices with
  | [] => false
  | index :: rest => if index =? count then true else in_fail_list rest count
  end.

Definition count_up (a : Allocator) : Allocator :=
  {| allocation_count := int_wrap (allocation_count a + 1);
     fail_allocations := fail_allocations a;
     heap := heap a |}.

Definition MallocHook (size : Z) (a : Allocator) : ptr * Allocator :=
  if in_fail_list (fail_allocations a) (allocation_count a)
  then (NULL, a)
  else perform (malloc size) (count_up a).

Definition ReallocHook (p : ptr) (size : Z) (a : Allocator) : ptr * Allocator :=
  if in_fail_list (fail_allocations a) (allocation_count a)
  then (NULL, a)
  else perform (realloc p size) (count_up a).

Definition FreeHook (p : ptr) (a : Allocator) : Allocator :=
  snd (perform (free p) a).

(** An allocating request of the library, through the memory suite. *)
Inductive alloc_request : Type :=
| malloc_fcn (size : Z)
| realloc_fcn (p : ptr) (size : Z).

Definition alloc_hook (r : alloc_request) : Allocator -> ptr * Allocator :=
  match r with
  | malloc_fcn size => MallocHook size
  | realloc_fcn p size => ReallocHook p size
  end.

(** The C call a request comes down to when it is not refused. *)
Definition libc_of (r : alloc_request) : libc_call :=
  match r with
  | malloc_fcn size => malloc size
  | realloc_fcn p size => realloc p size
  end.

(** A run of allocating requests, one after the other. *)
Fixpoint alloc_hooks (rs : list alloc_request) (a : Allocator)
  : list ptr * Allocator :=
  match rs with
  | [] => ([], a)
  | r :: rest =>
      let (p, a1) := alloc_hook r a in
      let (ps, a2) := alloc_hooks rest a1 in
      (p :: ps, a2)
  end.

End Hooks.

(** ** The entry points of the library that the harness calls *)

(** The harness's own functions, as the function pointers it hands to the
    library. *)
Inductive hook_fn : Type :=
| fn_MallocHook
| fn_ReallocHook
| fn_FreeHook.

Record XML_Memory_Handling_Suite : Type := {
  suite_malloc_fcn : hook_fn;
  suite_realloc_fcn : hook_fn;
  suite_free_fcn : hook_fn
}.

Definition memory_handling_suite : XML_Memory_Handling_Suite :=
  {| suite_malloc_fcn := fn_MallocHook;
     suite_realloc_fcn := fn_ReallocHook;
     suite_free_fcn := fn_FreeHook |}.

Inductive handler_fn : Type :=
| fn_ElementDeclHandler
| fn_AttlistDeclHandler
| fn_XmlDeclHandler
| fn_StartElementHandler
| fn_EndElementHandler
| fn_CharacterDataHandler
| fn_ProcessingInstructionHandler
| fn_CommentHandler
| fn_StartCdataSectionHandler
| fn_EndCdataSectionHandler
| fn_DefaultHandler
| fn_StartDoctypeDeclHandler
| fn_EndDoctypeDeclHandler
| fn_EntityDeclHandler
| fn_UnparsedEntityDeclHandler
| fn_NotationDeclHandler
| fn_StartNamespaceDeclHandler
| fn_EndNamespaceDeclHandler
| fn_NotStandaloneHandler
| fn_ExternalEntityRefHandler
| fn_SkippedEntityHandler
| fn_UnknownEncodingHandler.

(** The modes of parameter entity parsing of [expat.h]; the harness only
    passes the last. *)
Inductive XML_ParamEntityParsing : Type :=
| XML_PARAM_ENTITY_PARSING_NEVER
| XML_PARAM_ENTITY_PARSING_UNLESS_STANDALONE
| XML_PARAM_ENTITY_PARSING_ALWAYS.

(** The entry points that do not call handlers back. *)
Inductive api_call : Type :=
| XML_ParserCreate_MM (encoding : option string)
                      (memsuite : XML_Memory_Handling_Suite) (sep : string)
| XML_ExternalEntityParserCreate (parser : XML_Parser) (context : cstr)
                                 (encoding : option string)
| XML_ParserReset (parser : XML_Parser) (encoding : option string)
| XML_ParserFree (parser : XML_Parser)
| XML_StopParser (parser : XML_Parser) (resumable : bool)
| XML_FreeContentModel (parser : XML_Parser) (model : XML_Content)
| XML_SetUserData (parser : XML_Parser) (userData : ptr)
| XML_SetHashSalt (parser : XML_Parser) (hash_salt : Z)
| XML_SetParamEntityParsing (parser : XML_Parser) (mode : XML_ParamEntityParsing)
| XML_SetElementDeclHandler (parser : XML_Parser) (eldecl : handler_fn)
| XML_SetAttlistDeclHandler (parser : XML_Parser) (attdecl : handler_fn)
| XML_SetXmlDeclHandler (parser : XML_Parser) (xmldecl : handler_fn)
| XML_SetElementHandler (parser : XML_Parser) (start end_ : handler_fn)
| XML_SetCharacterDataHandler (parser : XML_Parser) (handler : handler_fn)
| XML_SetProcessingInstructionHandler (parser : XML_Parser) (handler : handler_fn)
| XML_SetCommentHandler (parser : XML_Parser) (handler : handler_fn)
| XML_SetCdataSectionHandler (parser : XML_Parser) (start end_ : handler_fn)
| XML_SetDefaultHandlerExpand (parser : XML_Parser) (handler : handler_fn)
| XML_SetDoctypeDeclHandler (parser : XML_Parser) (start end_ : handler_fn)
| XML_SetEntityDeclHandler (parser : XML_Parser) (handler : handler_fn)
| XML_SetNotationDeclHandler (parser : XML_Parser) (handler : handler_fn)
| XML_SetNamespaceDeclHandler (parser : XML_Parser) (start end_ : handler_fn)
| XML_SetNotStandaloneHandler (parser : XML_Parser) (handler : handler_fn)
| XML_SetExternalEntityRefHandler (parser : XML_Parser) (handler : handler_fn)
| XML_SetSkippedEntityHandler (parser : XML_Parser) (handler : handler_fn)
| XML_SetUnknownEncodingHandler (parser : XML_Parser) (handler : handler_fn)
                                (encodingHandlerData : ptr).

(** What the harness takes from a call: the parser from the two constructors,
    nothing from the others (it drops their results). *)
Definition ret_type (c : api_call) : Type :=
  match c with
  | XML_ParserCreate_MM _ _ _ => XML_Parser
  | XML_ExternalEntityParserCreate _ _ _ => XML_Parser
  | _ => unit
  end.

(** The two entry points that parse, and so call handlers back. *)
Inductive feed_call : Type :=
| XML_Parse (parser : XML_Parser) (input : cstr) (input_len : Z) (is_final : Z)
| XML_ResumeParser (parser : XML_Parser).

(** A handler called back by the library, with its arguments. *)
Inductive handler_call : Type :=
| ElementDecl (userData : ptr) (name : cstr) (model : XML_Content)
| AttlistDecl (userData : ptr) (elname attname atttype dflt : cstr)
              (isrequired : Z)
| XmlDecl (userData : ptr) (version encoding : cstr) (standalone : Z)
| StartElement (userData : ptr) (name : cstr) (atts : list cstr)
| EndElement (userData : ptr) (name : cstr)
| CharacterData (userData : ptr) (s : cstr) (len : Z)
| ProcessingInstruction (userData : ptr) (target data : cstr)
| Comment (userData : ptr) (data : cstr)
| StartCdataSection (userData : ptr)
| EndCdataSection (userData : ptr)
| Default (userData : ptr) (s : cstr) (len : Z)
| StartDoctypeDecl (userData : ptr) (doctypeName sysid pubid : cstr)
                   (has_internal_subset : Z)
| EndDoctypeDecl (userData : ptr)
| EntityDecl (userData : ptr) (entityName : cstr) (is_parameter_entity : Z)
             (value : cstr) (value_length : Z)
             (base systemId publicId notationName : cstr)
| UnparsedEntityDecl (userData : ptr)
                     (entityName base systemId publicId notationName : cstr)
| NotationDecl (userData : ptr) (notationName base systemId publicId : cstr)
| StartNamespaceDecl (userData : ptr) (prefix uri : cstr)
| EndNamespaceDecl (userData : ptr) (prefix : cstr)
| NotStandalone (userData : ptr)
| ExternalEntityRef (parser : XML_Parser)
                    (context base systemId publicId : cstr)
| SkippedEntity (userData : ptr) (entityName : cstr) (is_parameter_entity : Z)
| UnknownEncoding (encodingHandlerData : ptr) (name : cstr).

(** What the library does inside one call, seen from the harness: it calls
    the allocator hooks and the handlers, each time going on from what it
    got back, and returns.  [H] is the type of the handler calls it may
    make (none outside parsing).  An [int] a handler returns is always one
    of the status constants, and is kept as such; a [void] handler gives
    [None]. *)
Inductive upcalls (H R : Type) : Type :=
| Return (r : R)
| CallAlloc (r : alloc_request) (k : ptr -> upcalls H R)
| CallFree (p : ptr) (k : upcalls H R)
| CallHandler (h : H) (k : option XML_Status -> upcalls H R).

Arguments Return {H R} r.
Arguments CallAlloc {H R} r k.
Arguments CallFree {H R} p k.
Arguments CallHandler {H R} h k.

(** ** What a run leaves behind *)

Inductive event : Type :=
| EvCall (depth : nat) (c : api_call)
| EvFeed (depth : nat) (c : feed_call)
| EvHandler (h : handler_call)
| EvAlloc (r : alloc_request) (before : Allocator) (ret : ptr)
          (after : Allocator)
| EvFree (p : ptr)
| EvTouch (units : string).

(** The parser library and the C allocator.  The library answers a call
    knowing everything that happened before it.  Every call of the library
    comes back once the hooks and handlers it calls have; only the two
    parsing entry points call handlers. *)
Record Environment : Type := {
  lib_call : list event -> forall c : api_call, upcalls Empty_set (ret_type c);
  lib_feed : list event -> feed_call -> upcalls handler_call XML_Status;
  libc : list libc_call -> libc_call -> ptr
}.

(** The globals of the harness, and the events so far (oldest first).  The
    write-only accumulator [no_optimize] is not kept: what [TouchString]
    reads is recorded as an [EvTouch] event instead. *)
Record World : Type := {
  g_encoding : option string;
  external_entity : cstr;
  external_entity_size : Z;
  allocator : Allocator;
  trace : list event
}.

Inductive reason : Type :=
| AssertionFailed     (* [assert] aborted the process *)
| OutOfBounds         (* a read outside its memory object, or through null *)
| OutOfFuel.          (* the run was cut short; it says nothing about the code *)

Inductive outcome (A : Type) : Type :=
| Ok (a : A) (w : World)
| Stop (r : reason) (w : World).

Arguments Ok {A} a w.
Arguments Stop {A} r w.

Definition world_of {A} (o : outcome A) : World :=
  match o with Ok _ w => w | Stop _ w => w end.

Definition M (A : Type) : Type := World -> outcome A.

Definition ret {A} (a : A) : M A := fun w => Ok a w.

Definition bind {A B} (m : M A) (f : A -> M B) : M B :=
  fun w => match m w with
           | Ok a w1 => f a w1
           | Stop r w1 => Stop r w1
           end.

Notation "x <- m ;; k" := (bind m (fun x => k))
  (at level 61, m at next level, right associativity).
Notation "m ;; k" := (bind m (fun _ => k))
  (at level 61, right associativity).

Definition stop {A} (r : reason) : M A := fun w => Stop r w.

Definition read {A} (global : World -> A) : M A := fun w => Ok (global w) w.

Definition emit (e : event) : M unit :=
  fun w => Ok tt {| g_encoding := g_encoding w;
                    external_entity := external_entity w;
                    external_entity_size := external_entity_size w;
                    allocator := allocator w;
                    trace := trace w ++ [e] |}.

Definition set_g_encoding (v : option string) : M unit :=
  fun w => Ok tt {| g_encoding := v;
                    external_entity := external_entity w;
                    external_entity_size := external_entity_size w;
                    allocator := allocator w;
                    trace := trace w |}.

Definition set_external_entity (v : cstr) : M unit :=
  fun w => Ok tt {| g_encoding := g_encoding w;
                    external_entity := v;
                    external_entity_size := external_entity_size w;
                    allocator := allocator w;
                    trace := trace w |}.

Definition set_external_entity_size (v : Z) : M unit :=
  fun w => Ok tt {| g_encoding := g_encoding w;
                    external_entity := external_entity w;
                    external_entity_size := v;
                    allocator := allocator w;
                    trace := trace w |}.

Definition set_allocator (a : Allocator) : M unit :=
  fun w => Ok tt {| g_encoding := g_encoding w;
                    external_entity := external_entity w;
                    external_entity_size := external_entity_size w;
                    allocator := a;
                    trace := trace w |}.

Definition assert (b : bool) : M unit :=
  if b then ret tt else stop AssertionFailed.

(** ** The harness *)

Definition SetEncoding (e : xml_lpm_fuzzer.Encoding) : M unit :=
  match e with
  | xml_lpm_fuzzer.UTF8 => set_g_encoding (Some "UTF-8")
  | xml_lpm_fuzzer.UTF16 => set_g_encoding (Some "UTF-16")
  | xml_lpm_fuzzer.ISO88591 => set_g_encoding (Some "ISO-8859-1")
  | xml_lpm_fuzzer.ASCII => set_g_encoding (Some "US-ASCII")
  | xml_lpm_fuzzer.NONE => set_g_encoding None
  | xml_lpm_fuzzer.Encoding_unrecognized _ => set_g_encoding (Some "UNKNOWN")
  end.

Definition nul : ascii := "000"%char.

(** The units before the first NUL of a memory object; [None] when the
    object holds no NUL, so that the reading loop runs off its end. *)
Fixpoint until_nul (obj : string) : option string :=
  match obj with
  | EmptyString => None
  | String value rest =>
      if Ascii.eqb value nul then Some EmptyString
      else option_map (String value) (until_nul rest)
  end.

(** [TouchString(ptr, len)]; the default [len] of the source is written out
    as [-1] at the calls.  The units added to the accumulator are recorded;
    a loop that runs off the end of the object has read, and added, every
    unit of it before the access that faults. *)
Definition TouchString (p : cstr) (len : Z) : M unit :=
  match p with
  | None => ret tt
  | Some obj =>
      if len =? -1 then
        match until_nul obj with
        | Some units => emit (EvTouch units)
        | None => emit (EvTouch obj) ;; stop OutOfBounds
        end
      else
        if (Z.to_nat len <=? String.length obj)%nat
        then emit (EvTouch (substring 0 (Z.to_nat len) obj))
        else emit (EvTouch obj) ;; stop OutOfBounds
  end.

Definition is_null {A} (p : option A) : bool :=
  match p with None => true | Some _ => false end.

(** [for (int i = 0; i < numchildren; ++i) body(children[i]);] over the array
    [arr]: the walk reads one cell per round and runs off the array when the
    count is larger than it. *)
Definition for_each_child (body : XML_Content -> M unit)
  : nat -> list XML_Content -> M unit :=
  fix loop (n : nat) (arr : list XML_Content) {struct arr} : M unit :=
    match n with
    | O => ret tt
    | S n' =>
        match arr with
        | [] => stop OutOfBounds
        | child :: rest => body child ;; loop n' rest
        end
    end.

Definition for_children (body : XML_Content -> M unit) (n : nat)
  (children : option (list XML_Content)) : M unit :=
  match children with
  | Some arr => for_each_child body n arr
  | None => match n with O => ret tt | S _ => stop OutOfBounds end
  end.

Definition touch_mixed_child (child : XML_Content) : M unit :=
  assert (match type child with XML_CTYPE_NAME => true | _ => false end) ;;
  assert (numchildren child =? 0)%nat ;;
  TouchString (name child) (-1).

(** The [topLevel] parameter of the source is never read and is left out. *)
Fixpoint TouchChildNodes (content : XML_Content) : M unit :=
  match content with
  | Build_XML_Content type quant name numchildren children =>
      match type with
      | XML_CTYPE_EMPTY | XML_CTYPE_ANY =>
          assert (match quant with XML_CQUANT_NONE => true | _ => false end) ;;
          assert (is_null name) ;;
          assert (numchildren =? 0)%nat ;;
          assert (is_null children)
      | XML_CTYPE_MIXED =>
          assert (match quant with
                  | XML_CQUANT_NONE | XML_CQUANT_REP => true
                  | _ => false
                  end) ;;
          assert (is_null name) ;;
          for_children touch_mixed_child numchildren children
      | XML_CTYPE_NAME =>
          assert (numchildren =? 0)%nat ;;
          TouchString name (-1)
      | XML_CTYPE_CHOICE | XML_CTYPE_SEQ =>
          assert (is_null name) ;;
          for_children TouchChildNodes numchildren children
      | XML_CTYPE_other _ =>
          assert false
      end
  end.

(** [for (size_t i = 0; atts[i] != NULL; ++i) TouchString(atts[i]);] over the
    array [atts]. *)
Fixpoint touch_atts (atts : list cstr) : M unit :=
  match atts with
  | [] => stop OutOfBounds
  | None :: _ => ret tt
  | Some obj :: rest => TouchString (Some obj) (-1) ;; touch_atts rest
  end.

(** [std::string::data()] and [size()]: the bytes are followed by a NUL. *)
Definition data (s : string) : cstr := Some (String.append s (String nul "")).
Definition size (s : string) : Z := Z.of_nat (String.length s).

Section Harness.

(** The library, as the harness calls it. *)
Variable call : forall c : api_call, M (ret_type c).
Variable feed : feed_call -> M XML_Status.

(** How many rounds a [while] loop is followed before the run is cut. *)
Variable patience : nat.

Fixpoint resume_while_suspended (rounds : nat) (parser : XML_Parser)
  (status : XML_Status) : M XML_Status :=
  match status with
  | XML_STATUS_SUSPENDED =>
      match rounds with
      | O => stop OutOfFuel
      | S rounds' =>
          status' <- feed (XML_ResumeParser parser) ;;
          resume_while_suspended rounds' parser status'
      end
  | _ => ret status
  end.

Definition Parse (parser : XML_Parser) (input : cstr) (input_len : Z)
  (is_final : Z) : M XML_Status :=
  status <- feed (XML_Parse parser input input_len is_final) ;;
  resume_while_suspended patience parser status.

Definition ElementDeclHandler (userData : ptr) (name : cstr)
  (model : XML_Content) : M unit :=
  TouchString name (-1) ;;
  TouchChildNodes model ;;
  call (XML_FreeContentModel userData model).

Definition AttlistDeclHandler (userData : ptr)
  (elname attname atttype dflt : cstr) (isrequired : Z) : M unit :=
  TouchString elname (-1) ;;
  TouchString attname (-1) ;;
  TouchString atttype (-1) ;;
  TouchString dflt (-1).

Definition XmlDeclHandler (userData : ptr) (version encoding : cstr)
  (standalone : Z) : M unit :=
  TouchString version (-1) ;;
  TouchString encoding (-1).

Definition StartElementHandler (userData : ptr) (name : cstr)
  (atts : list cstr) : M unit :=
  TouchString name (-1) ;;
  touch_atts atts.

Definition EndElementHandler (userData : ptr) (name : cstr) : M unit :=
  TouchString name (-1).

Definition CharacterDataHandler (userData : ptr) (s : cstr) (len : Z)
  : M unit :=
  TouchString s len.

Definition ProcessingInstructionHandler (userData : ptr) (target data : cstr)
  : M unit :=
  TouchString target (-1) ;;
  TouchString data (-1).

Definition CommentHandler (userData : ptr) (data : cstr) : M unit :=
  TouchString data (-1) ;;
  call (XML_StopParser userData true).

Definition StartCdataSectionHandler (userData : ptr) : M unit := ret tt.

Definition EndCdataSectionHandler (userData : ptr) : M unit := ret tt.

Definition DefaultHandler (userData : ptr) (s : cstr) (len : Z) : M unit :=
  TouchString s len.

Definition StartDoctypeDeclHandler (userData : ptr)
  (doctypeName sysid pubid : cstr) (has_internal_subset : Z) : M unit :=
  TouchString doctypeName (-1) ;;
  TouchString sysid (-1) ;;
  TouchString pubid (-1).

Definition EndDoctypeDeclHandler (userData : ptr) : M unit := ret tt.

Definition EntityDeclHandler (userData : ptr) (entityName : cstr)
  (is_parameter_entity : Z) (value : cstr) (value_length : Z)
  (base systemId publicId notationName : cstr) : M unit :=
  TouchString entityName (-1) ;;
  TouchString value value_length ;;
  TouchString base (-1) ;;
  TouchString systemId (-1) ;;
  TouchString publicId (-1) ;;
  TouchString notationName (-1).

Definition UnparsedEntityDeclHandler (userData : ptr)
  (entityName base systemId publicId notationName : cstr) : M unit :=
  TouchString entityName (-1) ;;
  TouchString base (-1) ;;
  TouchString systemId (-1) ;;
  TouchString publicId (-1) ;;
  TouchString notationName (-1).

Definition NotationDeclHandler (userData : ptr)
  (notationName base systemId publicId : cstr) : M unit :=
  TouchString notationName (-1) ;;
  TouchString base (-1) ;;
  TouchString systemId (-1) ;;
  TouchString publicId (-1).

Definition StartNamespaceDeclHandler (userData : ptr) (prefix uri : cstr)
  : M unit :=
  TouchString prefix (-1) ;;
  TouchString uri (-1).

Definition EndNamespaceDeclHandler (userData : ptr) (prefix : cstr)
  : M unit :=
  TouchString prefix (-1).

Definition NotStandaloneHandler (userData : ptr) : M XML_Status :=
  ret XML_STATUS_OK.

Definition ExternalEntityRefHandler (parser : XML_Parser)
  (context base systemId publicId : cstr) : M XML_Status :=
  let rc := XML_STATUS_ERROR in
  TouchString context (-1) ;;
  TouchString base (-1) ;;
  TouchString systemId (-1) ;;
  TouchString publicId (-1) ;;
  pending <- read external_entity ;;
  if is_null pending then ret rc
  else
    encoding <- read g_encoding ;;
    ext_parser <- call (XML_ExternalEntityParserCreate parser context encoding) ;;
    input <- read external_entity ;;
    input_size <- read external_entity_size ;;
    rc <- Parse ext_parser input (int_wrap input_size) 1 ;;
    call (XML_ParserFree ext_parser) ;;
    ret rc.

Definition SkippedEntityHandler (userData : ptr) (entityName : cstr)
  (is_parameter_entity : Z) : M unit :=
  TouchString entityName (-1).

Definition UnknownEncodingHandler (encodingHandlerData : ptr) (name : cstr)
  : M XML_Status :=
  TouchString name (-1) ;;
  ret XML_STATUS_ERROR.

Definition InitializeParser (parser : XML_Parser) : M unit :=
  call (XML_SetUserData parser parser) ;;
  call (XML_SetHashSalt parser 1094795585 (* 0x41414141 *)) ;;
  call (XML_SetParamEntityParsing parser XML_PARAM_ENTITY_PARSING_ALWAYS) ;;
  call (XML_SetElementDeclHandler parser fn_ElementDeclHandler) ;;
  call (XML_SetAttlistDeclHandler parser fn_AttlistDeclHandler) ;;
  call (XML_SetXmlDeclHandler parser fn_XmlDeclHandler) ;;
  call (XML_SetElementHandler parser fn_StartElementHandler
                              fn_EndElementHandler) ;;
  call (XML_SetCharacterDataHandler parser fn_CharacterDataHandler) ;;
  call (XML_SetProcessingInstructionHandler parser
                                            fn_ProcessingInstructionHandler) ;;
  call (XML_SetCommentHandler parser fn_CommentHandler) ;;
  call (XML_SetCdataSectionHandler parser fn_StartCdataSectionHandler
                                   fn_EndCdataSectionHandler) ;;
  call (XML_SetDefaultHandlerExpand parser fn_DefaultHandler) ;;
  call (XML_SetDoctypeDeclHandler parser fn_StartDoctypeDeclHandler
                                  fn_EndDoctypeDeclHandler) ;;
  call (XML_SetEntityDeclHandler parser fn_EntityDeclHandler) ;;
  call (XML_SetNotationDeclHandler parser fn_NotationDeclHandler) ;;
  call (XML_SetNamespaceDeclHandler parser fn_StartNamespaceDeclHandler
                                    fn_EndNamespaceDeclHandler) ;;
  call (XML_SetNotStandaloneHandler parser fn_NotStandaloneHandler) ;;
  call (XML_SetExternalEntityRefHandler parser fn_ExternalEntityRefHandler) ;;
  call (XML_SetSkippedEntityHandler parser fn_SkippedEntityHandler) ;;
  call (XML_SetUnknownEncodingHandler parser fn_UnknownEncodingHandler parser).

(** The handler behind each call the library makes back. *)
Definition void (m : M unit) : M (option XML_Status) := m ;; ret None.
Definition int (m : M XML_Status) : M (option XML_Status) :=
  rc <- m ;; ret (Some rc).

Definition dispatch (h : handler_call) : M (option XML_Status) :=
  match h with
  | ElementDecl userData name model =>
      void (ElementDeclHandler userData name model)
  | AttlistDecl userData elname attname atttype dflt isrequired =>
      void (AttlistDeclHandler userData elname attname atttype dflt isrequired)
  | XmlDecl userData version encoding standalone =>
      void (XmlDeclHandler userData version encoding standalone)
  | StartElement userData name atts =>
      void (StartElementHandler userData name atts)
  | EndElement userData name =>
      void (EndElementHandler userData name)
  | CharacterData userData s len =>
      void (CharacterDataHandler userData s len)
  | ProcessingInstruction userData target data =>
      void (ProcessingInstructionHandler userData target data)
  | Comment userData data =>
      void (CommentHandler userData data)
  | StartCdataSection userData =>
      void (StartCdataSectionHandler userData)
  | EndCdataSection userData =>
      void (EndCdataSectionHandler userData)
  | Default userData s len =>
      void (DefaultHandler userData s len)
  | StartDoctypeDecl userData doctypeName sysid pubid has_internal_subset =>
      void (StartDoctypeDeclHandler userData doctypeName sysid pubid
                                    has_internal_subset)
  | EndDoctypeDecl userData =>
      void (EndDoctypeDeclHandler userData)
  | EntityDecl userData entityName is_parameter_entity value value_length
               base systemId publicId notationName =>
      void (EntityDeclHandler userData entityName is_parameter_entity value
                              value_length base systemId publicId notationName)
  | UnparsedEntityDecl userData entityName base systemId publicId
                       notationName =>
      void (UnparsedEntityDeclHandler userData entityName base systemId
                                      publicId notationName)
  | NotationDecl userData notationName base systemId publicId =>
      void (NotationDeclHandler userData notationName base systemId publicId)
  | StartNamespaceDecl userData prefix uri =>
      void (StartNamespaceDeclHandler userData prefix uri)
  | EndNamespaceDecl userData prefix =>
      void (EndNamespaceDeclHandler userData prefix)
  | NotStandalone userData =>
      int (NotStandaloneHandler userData)
  | ExternalEntityRef parser context base systemId publicId =>
      int (ExternalEntityRefHandler parser context base systemId publicId)
  | SkippedEntity userData entityName is_parameter_entity =>
      void (SkippedEntityHandler userData entityName is_parameter_entity)
  | UnknownEncoding encodingHandlerData name =>
      int (UnknownEncodingHandler encodingHandlerData name)
  end.

(** [fail_allocations.clear()] and the loop of [push_back]. *)
Definition clear_fail_allocations : M unit :=
  a <- read allocator ;;
  set_allocator {| allocation_count := allocation_count a;
                   fail_allocations := [];
                   heap := heap a |}.

Definition push_back_fail_allocation (index : Z) : M unit :=
  a <- read allocator ;;
  set_allocator {| allocation_count := allocation_count a;
                   fail_allocations := fail_allocations a ++ [index];
                   heap := heap a |}.

Fixpoint copy_fail_allocations (indices : list Z) : M unit :=
  match indices with
  | [] => ret tt
  | index :: rest =>
      push_back_fail_allocation index ;; copy_fail_allocations rest
  end.

Definition set_allocation_count (v : Z) : M unit :=
  a <- read allocator ;;
  set_allocator {| allocation_count := v;
                   fail_allocations := fail_allocations a;
                   heap := heap a |}.

(** One round of the loop over the actions: the [switch]. *)
Definition replay_action (parser : XML_Parser) (action : xml_lpm_fuzzer.Action) : M unit :=
  match action with
  | xml_lpm_fuzzer.kChunk chunk =>
      status <- Parse parser (data chunk) (int_wrap (size chunk)) 0 ;;
      match status with
      | XML_STATUS_ERROR =>
          (* Force a reset after parse error. *)
          encoding <- read g_encoding ;;
          call (XML_ParserReset parser encoding)
      | _ => ret tt
      end
  | xml_lpm_fuzzer.kLastChunk last_chunk =>
      Parse parser (data last_chunk) (int_wrap (size last_chunk)) 1 ;;
      encoding <- read g_encoding ;;
      call (XML_ParserReset parser encoding) ;;
      InitializeParser parser
  | xml_lpm_fuzzer.kReset =>
      encoding <- read g_encoding ;;
      call (XML_ParserReset parser encoding) ;;
      InitializeParser parser
  | xml_lpm_fuzzer.kExternalEntity bytes =>
      set_external_entity (data bytes) ;;
      set_external_entity_size (size bytes)
  | xml_lpm_fuzzer.ACTION_NOT_SET => ret tt
  end.

Fixpoint replay (parser : XML_Parser) (actions : list xml_lpm_fuzzer.Action) : M unit :=
  match actions with
  | [] => ret tt
  | action :: rest => replay_action parser action ;; replay parser rest
  end.

(** The body of [DEFINE_TEXT_PROTO_FUZZER]. *)
Definition TestOneProtoInput (testcase : xml_lpm_fuzzer.Testcase) : M unit :=
  set_external_entity None ;;
  if (List.length (xml_lpm_fuzzer.actions testcase) =? 0)%nat then ret tt
  else
    set_allocation_count 0 ;;
    clear_fail_allocations ;;
    copy_fail_allocations (xml_lpm_fuzzer.fail_allocations testcase) ;;
    SetEncoding (xml_lpm_fuzzer.encoding testcase) ;;
    encoding <- read g_encoding ;;
    parser <- call (XML_ParserCreate_MM encoding memory_handling_suite "|") ;;
    InitializeParser parser ;;
    replay parser (xml_lpm_fuzzer.actions testcase) ;;
    call (XML_ParserFree parser).

End Harness.

(** ** Running the harness against an environment *)

Section Run.

Variable env : Environment.

Definition no_handler (h : Empty_set) : M (option XML_Status) :=
  match h with end.

(** The library calls a hook of the memory suite: the hook runs on the
    allocator state, and the call is recorded with that state before and
    after. *)
Definition on_alloc (r : alloc_request) : M ptr :=
  before <- read allocator ;;
  let (p, after) := alloc_hook (libc env) r before in
  set_allocator after ;;
  emit (EvAlloc r before p after) ;;
  ret p.

Definition on_free (p : ptr) : M unit :=
  before <- read allocator ;;
  set_allocator (FreeHook (libc env) p before) ;;
  emit (EvFree p).

(** The library inside a call. *)
Fixpoint run_upcalls {H R : Type} (handler : H -> M (option XML_Status))
  (t : upcalls H R) : M R :=
  match t with
  | Return r => ret r
  | CallAlloc r k =>
      p <- on_alloc r ;;
      run_upcalls handler (k p)
  | CallFree p k =>
      on_free p ;;
      run_upcalls handler k
  | CallHandler h k =>
      rc <- handler h ;;
      run_upcalls handler (k rc)
  end.

Definition answer {H R : Type} (handler : H -> M (option XML_Status))
  (lib : list event -> upcalls H R) : M R :=
  history <- read trace ;;
  run_upcalls handler (lib history).

(** A call from depth [d]: 0 is the driver, [S d] a handler running inside
    a feed made at depth [d]. *)
Definition api (d : nat) (c : api_call) : M (ret_type c) :=
  emit (EvCall d c) ;;
  answer no_handler (fun history => lib_call env history c).

Fixpoint feed_at (fuel : nat) (d : nat) (c : feed_call) : M XML_Status :=
  match fuel with
  | O => stop OutOfFuel
  | S fuel' =>
      emit (EvFeed d c) ;;
      answer (fun h => emit (EvHandler h) ;;
                       dispatch (api (S d)) (feed_at fuel' (S d)) fuel' h)
             (fun history => lib_feed env history c)
  end.

Definition handle (fuel d : nat) (h : handler_call) : M (option XML_Status) :=
  dispatch (api d) (feed_at fuel d) fuel h.

(** One run of the fuzz target. *)
Definition fuzz (fuel : nat) (testcase : xml_lpm_fuzzer.Testcase) : M unit :=
  TestOneProtoInput (api 0) (feed_at fuel 0) fuel testcase.

End Run.

(** ** Observing a run *)

(** The calls into the library made at depth [d], in order. *)
Definition is_call_at (d : nat) (e : event) : bool :=
  match e with
  | EvCall d' _ => (d' =? d)%nat
  | EvFeed d' _ => (d' =? d)%nat
  | _ => false
  end.

Definition calls_at (d : nat) (tr : list event) : list event :=
  filter (is_call_at d) tr.

(** The calls into the library at any depth. *)
Definition is_call (e : event) : bool :=
  match e with
  | EvCall _ _ => true
  | EvFeed _ _ => true
  | _ => false
  end.

Definition calls (tr : list event) : list event := filter is_call tr.

Definition is_hook_event (e : event) : bool :=
  match e with
  | EvAlloc _ _ _ _ => true
  | EvFree _ => true
  | _ => false
  end.

(** The calls the handlers make, and the calls the replay loop makes. *)
Definition made_by_handlers (c : api_call) : bool :=
  match c with
  | XML_ExternalEntityParserCreate _ _ _ => true
  | XML_ParserFree _ => true
  | XML_StopParser _ _ => true
  | XML_FreeContentModel _ _ => true
  | _ => false
  end.

Definition made_by_replay (c : api_call) : bool :=
  match c with
  | XML_ParserCreate_MM _ _ _ => false
  | XML_ExternalEntityParserCreate _ _ _ => false
  | XML_ParserFree _ => false
  | XML_StopParser _ _ => false
  | XML_FreeContentModel _ _ => false
  | _ => true
  end.

(** A property of the world that a computation keeps, whether it returns or
    stops. *)
Definition preserves {A} (J : World -> Prop) (m : M A) : Prop :=
  forall w, J w -> J (world_of (m w)).

(** A computation that always returns, adds [seg] to the calls at depth [d]
    and leaves the globals of the harness alone (the allocator apart). *)
Definition steps {A} (d : nat) (seg : list event) (m : M A) : Prop :=
  forall w, exists a w',
    m w = Ok a w' /\
    calls_at d (trace w') = calls_at d (trace w) ++ seg /\
    g_encoding w' = g_encoding w /\
    external_entity w' = external_entity w /\
    external_entity_size w' = external_entity_size w.

(** The calls of [InitializeParser], in the order of the source. *)
Definition InitializeParser_calls (parser : XML_Parser) : list api_call :=
  [ XML_SetUserData parser parser;
    XML_SetHashSalt parser 1094795585;
    XML_SetParamEntityParsing parser XML_PARAM_ENTITY_PARSING_ALWAYS;
    XML_SetElementDeclHandler parser fn_ElementDeclHandler;
    XML_SetAttlistDeclHandler parser fn_AttlistDeclHandler;
    XML_SetXmlDeclHandler parser fn_XmlDeclHandler;
    XML_SetElementHandler parser fn_StartElementHandler fn_EndElementHandler;
    XML_SetCharacterDataHandler parser fn_CharacterDataHandler;
    XML_SetProcessingInstructionHandler parser fn_ProcessingInstructionHandler;
    XML_SetCommentHandler parser fn_CommentHandler;
    XML_SetCdataSectionHandler parser fn_StartCdataSectionHandler
                               fn_EndCdataSectionHandler;
    XML_SetDefaultHandlerExpand parser fn_DefaultHandler;
    XML_SetDoctypeDeclHandler parser fn_StartDoctypeDeclHandler
                              fn_EndDoctypeDeclHandler;
    XML_SetEntityDeclHandler parser fn_EntityDeclHandler;
    XML_SetNotationDeclHandler parser fn_NotationDeclHandler;
    XML_SetNamespaceDeclHandler parser fn_StartNamespaceDeclHandler
                                fn_EndNamespaceDeclHandler;
    XML_SetNotStandaloneHandler parser fn_NotStandaloneHandler;
    XML_SetExternalEntityRefHandler parser fn_ExternalEntityRefHandler;
    XML_SetSkippedEntityHandler parser fn_SkippedEntityHandler;
    XML_SetUnknownEncodingHandler parser fn_UnknownEncodingHandler parser ].

(** The allocator state along a list of events: it starts at the first
    argument, moves only through the hooks, each recorded as the hook
    computes it, and ends at the last argument. *)
Inductive alloc_chain (libc : list libc_call -> libc_call -> ptr)
  : Allocator -> list event -> Allocator -> Prop :=
| chain_nil a :
    alloc_chain libc a [] a
| chain_alloc a r p a' evs a'' :
    alloc_hook libc r a = (p, a') ->
    alloc_chain libc a' evs a'' ->
    alloc_chain libc a (EvAlloc r a p a' :: evs) a''
| chain_free a p evs a'' :
    alloc_chain libc (FreeHook libc p a) evs a'' ->
    alloc_chain libc a (EvFree p :: evs) a''
| chain_other a e evs a'' :
    is_hook_event e = false ->
    alloc_chain libc a evs a'' ->
    alloc_chain libc a (e :: evs) a''.

(** What code at depth [d] can tell of the world: the calls made at that
    depth and the globals that only the driver writes. *)
Definition view (d : nat) (w : World)
  : list event * option string * cstr * Z :=
  (calls_at d (trace w), g_encoding w, external_entity w,
   external_entity_size w).

(** The table of encoding names, as the specification gives it. *)
Definition encoding_name (e : xml_lpm_fuzzer.Encoding) : option string :=
  match e with
  | xml_lpm_fuzzer.UTF8 => Some "UTF-8"
  | xml_lpm_fuzzer.UTF16 => Some "UTF-16"
  | xml_lpm_fuzzer.ISO88591 => Some "ISO-8859-1"
  | xml_lpm_fuzzer.ASCII => Some "US-ASCII"
  | xml_lpm_fuzzer.NONE => None
  | xml_lpm_fuzzer.Encoding_unrecognized _ => Some "UNKNOWN"
  end.

(** The world with no pending buffer: all that a run on a test case
    without actions changes. *)
Definition without_pending (w : World) : World :=
  {| g_encoding := g_encoding w;
     external_entity := None;
     external_entity_size := external_entity_size w;
     allocator := allocator w;
     trace := trace w |}.

(** The world in which the parser of a test case is created. *)
Definition at_start (testcase : xml_lpm_fuzzer.Testcase) (w : World) : World :=
  {| g_encoding := encoding_name (xml_lpm_fuzzer.encoding testcase);
     external_entity := None;
     external_entity_size := external_entity_size w;
     allocator :=
       {| allocation_count := 0;
          fail_allocations := xml_lpm_fuzzer.fail_allocations testcase;
          heap := heap (allocator w) |};
     trace := trace w |}.

(** The first call of a test case. *)
Definition create_call (testcase : xml_lpm_fuzzer.Testcase) : api_call :=
  XML_ParserCreate_MM (encoding_name (xml_lpm_fuzzer.encoding testcase))
                      memory_handling_suite "|".

(** What the driver does once the parser is there. *)
Definition after_create (env : Environment) (fuel : nat)
  (testcase : xml_lpm_fuzzer.Testcase) (parser : XML_Parser) : M unit :=
  InitializeParser (api env 0) parser ;;
  replay (api env 0) (feed_at env fuel 0) fuel parser
         (xml_lpm_fuzzer.actions testcase) ;;
  api env 0 (XML_ParserFree parser).

(** The events since the trace was [tr0] carry the allocator state from
    [a0] to where it is now. *)
Definition chained (env : Environment) (tr0 : list event) (a0 : Allocator)
  (w : World) : Prop :=
  exists evs, trace w = tr0 ++ evs /\
              alloc_chain (libc env) a0 evs (allocator w).

(** The rest of a test case from the boundary between two actions. *)
Definition remainder (env : Environment) (fuel : nat) (parser : XML_Parser)
  (rest : list xml_lpm_fuzzer.Action) : M unit :=
  replay (api env 0) (feed_at env fuel 0) fuel parser rest ;;
  api env 0 (XML_ParserFree parser).

(** [resumed feed parser k st w st' w']: from the status [st] in the world
    [w], [k] calls of [XML_ResumeParser], each made because the status at
    hand was suspended, each returning, lead to the status [st'] in the
    world [w']. *)
Inductive resumed (feed : feed_call -> M XML_Status) (parser : XML_Parser)
  : nat -> XML_Status -> World -> XML_Status -> World -> Prop :=
| resumed_0 st w :
    resumed feed parser 0 st w st w
| resumed_S k w st1 w1 st' w' :
    feed (XML_ResumeParser parser) w = Ok st1 w1 ->
    resumed feed parser k st1 w1 st' w' ->
    resumed feed parser (S k) XML_STATUS_SUSPENDED w st' w'.

(** What [TouchString(ptr)] records when it reads through: nothing for a
    null pointer, the units before the NUL otherwise; [None] when the object
    holds no NUL. *)
Definition touched (p : cstr) : option (list event) :=
  match p with
  | None => Some []
  | Some obj => option_map (fun units => [EvTouch units]) (until_nul obj)
  end.

Definition readable (p : cstr) : bool :=
  match touched p with Some _ => true | None => false end.

(** What a read that runs off the end of the object at [p] has recorded
    when it faults: every unit of the object. *)
Definition faulted (p : cstr) : list event :=
  match p with
  | Some obj => [EvTouch obj]
  | None => []
  end.

(** The world [w] with [evs] added to its trace. *)
Definition with_events (w : World) (evs : list event) : World :=
  {| g_encoding := g_encoding w;
     external_entity := external_entity w;
     external_entity_size := external_entity_size w;
     allocator := allocator w;
     trace := trace w ++ evs |}.

Definition is_touch (e : event) : bool :=
  match e with EvTouch _ => true | _ => false end.

(** The four strings an external entity reference comes with. *)
Definition touched4 (p1 p2 p3 p4 : cstr) : option (list event) :=
  match touched p1, touched p2, touched p3, touched p4 with
  | Some r1, Some r2, Some r3, Some r4 => Some (r1 ++ r2 ++ r3 ++ r4)
  | _, _, _, _ => None
  end.

(** The calls of the replay loop: feeds, and calls that neither construct
    nor free a parser. *)
Definition is_replay_call (e : event) : bool :=
  match e with
  | EvCall _ c => made_by_replay c
  | EvFeed _ _ => true
  | _ => false
  end.

(** Since the calls of the driver were [base], it has made calls of the
    replay loop only. *)
Definition replaying (base : list event) (w : World) : Prop :=
  exists mid,
    calls_at 0 (trace w) = base ++ mid /\
    Forall (fun e => is_replay_call e = true) mid.

(** [P] holds of the children a node announces: the first [n] cells of its
    array, which must be there. *)
Definition all_children (P : XML_Content -> bool)
  : nat -> list XML_Content -> bool :=
  fix loop (n : nat) (arr : list XML_Content) {struct arr} : bool :=
    match n with
    | O => true
    | S n' =>
        match arr with
        | [] => false
        | child :: rest => P child && loop n' rest
        end
    end.

Definition children_all (P : XML_Content -> bool) (n : nat)
  (children : option (list XML_Content)) : bool :=
  match children with
  | Some arr => all_children P n arr
  | None => match n with O => true | S _ => false end
  end.

Definition is_name_leaf (child : XML_Content) : bool :=
  match type child with XML_CTYPE_NAME => true | _ => false end
  && (numchildren child =? 0)%nat.

(** The shape of a content model as the specification words it: EMPTY and
    ANY nodes have no name, no children and no quantifier; the children of a
    MIXED node are NAME nodes without children; a NAME node has a name, which
    can be read, and no children; the children of CHOICE and SEQ nodes have
    the shape in turn; there is no other node. *)
Fixpoint claimed_shape (content : XML_Content) : bool :=
  match content with
  | Build_XML_Content type quant name numchildren children =>
      match type with
      | XML_CTYPE_EMPTY | XML_CTYPE_ANY =>
          is_null name && (numchildren =? 0)%nat && is_null children
          && match quant with XML_CQUANT_NONE => true | _ => false end
      | XML_CTYPE_MIXED => children_all is_name_leaf numchildren children
      | XML_CTYPE_NAME =>
          negb (is_null name) && readable name && (numchildren =? 0)%nat
      | XML_CTYPE_CHOICE | XML_CTYPE_SEQ =>
          children_all claimed_shape numchildren children
      | XML_CTYPE_other _ => false
      end
  end.

(** The same shape, but for the name of a NAME node: null, or read through. *)
Fixpoint checked_shape (content : XML_Content) : bool :=
  match content with
  | Build_XML_Content type quant name numchildren children =>
      match type with
      | XML_CTYPE_EMPTY | XML_CTYPE_ANY =>
          is_null name && (numchildren =? 0)%nat && is_null children
          && match quant with XML_CQUANT_NONE => true | _ => false end
      | XML_CTYPE_MIXED => children_all is_name_leaf numchildren children
      | XML_CTYPE_NAME => readable name && (numchildren =? 0)%nat
      | XML_CTYPE_CHOICE | XML_CTYPE_SEQ =>
          children_all checked_shape numchildren children
      | XML_CTYPE_other _ => false
      end
  end.

(** A computation that is never cut short: when it stops, an assertion or a
    read out of bounds stopped it. *)
Definition never_cut {A} (m : M A) : Prop :=
  forall w r w', m w = Stop r w' -> r <> OutOfFuel.

(** Since the trace was [tr0], only reads were recorded. *)
Definition only_read (tr0 : list event) (w : World) : Prop :=
  exists reads,
    trace w = tr0 ++ reads /\ Forall (fun e => is_touch e = true) reads.

(** ** Sample environments and inputs *)

(** A small library.  Creating a parser takes one allocation and gives
    parser 1 (the nested one: parser 2), or null when the allocation is
    refused; freeing a parser frees it.  Feeding the main parser meets an
    external entity reference and then a comment, and is suspended; feeding
    any other parser takes one reallocation; resuming ends the parse. *)
Definition sample_lib_call (history : list event) (c : api_call)
  : upcalls Empty_set (ret_type c) :=
  match c return upcalls Empty_set (ret_type c) with
  | XML_ParserCreate_MM _ _ _ =>
      CallAlloc (malloc_fcn 64)
                (fun p => Return (if p =? NULL then NULL else 1))
  | XML_ExternalEntityParserCreate _ _ _ =>
      CallAlloc (malloc_fcn 64)
                (fun p => Return (if p =? NULL then NULL else 2))
  | XML_ParserFree p => CallFree p (Return tt)
  | XML_ParserReset _ _ => Return tt
  | XML_StopParser _ _ => Return tt
  | XML_FreeContentModel _ _ => Return tt
  | _ => Return tt
  end.

Definition sample_lib_feed (history : list event) (c : feed_call)
  : upcalls handler_call XML_Status :=
  match c with
  | XML_Parse p input len fin =>
      if p =? 1 then
        CallHandler (ExternalEntityRef p (data "ctx") None None None)
          (fun _ => CallHandler (Comment p (data "hi"))
                      (fun _ => Return XML_STATUS_SUSPENDED))
      else
        CallAlloc (realloc_fcn 5 10)
          (fun q => Return (if q =? NULL then XML_STATUS_ERROR
                            else XML_STATUS_OK))
  | XML_ResumeParser p => Return XML_STATUS_OK
  end.

Definition sample_env : Environment :=
  {| lib_call := sample_lib_call;
     lib_feed := sample_lib_feed;
     libc := fun history _ => 1000 + Z.of_nat (List.length history) |}.

(** A library that allocates nothing: every feed meets one comment and is
    suspended, every resume ends the parse. *)
Definition comment_lib_call (history : list event) (c : api_call)
  : upcalls Empty_set (ret_type c) :=
  match c return upcalls Empty_set (ret_type c) with
  | XML_ParserCreate_MM _ _ _ => Return 1
  | XML_ExternalEntityParserCreate _ _ _ => Return 2
  | _ => Return tt
  end.

Definition comment_lib_feed (history : list event) (c : feed_call)
  : upcalls handler_call XML_Status :=
  match c with
  | XML_Parse p input len fin =>
      CallHandler (Comment p (data "hi"))
                  (fun _ => Return XML_STATUS_SUSPENDED)
  | XML_ResumeParser p => Return XML_STATUS_OK
  end.

Definition comment_env : Environment :=
  {| lib_call := comment_lib_call;
     lib_feed := comment_lib_feed;
     libc := fun history _ => 1000 + Z.of_nat (List.length history) |}.

(** A world as an earlier test case may have left it. *)
Definition sample_world : World :=
  {| g_encoding := Some "UTF-16";
     external_entity := data "old";
     external_entity_size := 3;
     allocator := {| allocation_count := 5;
                     fail_allocations := [3];
                     heap := [] |};
     trace := [] |}.

Definition sample_testcase : xml_lpm_fuzzer.Testcase :=
  {| xml_lpm_fuzzer.encoding := xml_lpm_fuzzer.UTF8;
     xml_lpm_fuzzer.fail_allocations := [1];
     xml_lpm_fuzzer.actions :=
       [xml_lpm_fuzzer.kExternalEntity "<e/>"; xml_lpm_fuzzer.kChunk "<a>"] |}.

Definition empty_testcase : xml_lpm_fuzzer.Testcase :=
  {| xml_lpm_fuzzer.encoding := xml_lpm_fuzzer.UTF8;
     xml_lpm_fuzzer.fail_allocations := [0];
     xml_lpm_fuzzer.actions := [] |}.

(** A test case that fails the allocations 0 and 1. *)
Definition two_index_testcase : xml_lpm_fuzzer.Testcase :=
  {| xml_lpm_fuzzer.encoding := xml_lpm_fuzzer.NONE;
     xml_lpm_fuzzer.fail_allocations := [0; 1];
     xml_lpm_fuzzer.actions := [xml_lpm_fuzzer.kChunk "<a>"] |}.

(** A NAME node whose name is the null pointer. *)
Definition nameless_node : XML_Content :=
  Build_XML_Content XML_CTYPE_NAME XML_CQUANT_NONE None 0 None.

(** The model of [(a, b?)]: a sequence of two names. *)
Definition sample_model : XML_Content :=
  Build_XML_Content XML_CTYPE_SEQ XML_CQUANT_NONE None 2
    (Some [Build_XML_Content XML_CTYPE_NAME XML_CQUANT_NONE (data "a") 0 None;
           Build_XML_Content XML_CTYPE_NAME XML_CQUANT_OPT (data "b") 0 None]).

(** A world in which the allocation counter stands on a failing index. *)
Definition stuck_world : World :=
  {| g_encoding := Some "UTF-16";
     external_entity := data "old";
     external_entity_size := 3;
     allocator := {| allocation_count := 3;
                     fail_allocations := [3];
                     heap := [] |};
     trace := [] |}.

(** ** Further observations *)

(** A string without a NUL among its units. *)
Definition no_nul (s : string) : Prop := ~ In nul (list_ascii_of_string s).

(** A computation that only reads: it returns [v] or runs out of bounds,
    and either way leaves the world as it was but for the reads recorded. *)
Definition reads_only {A} (v : A) (m : M A) : Prop :=
  forall w, exists reads,
    Forall (fun e => is_touch e = true) reads /\
    (m w = Ok v (with_events w reads) \/
     m w = Stop OutOfBounds (with_events w reads)).

(** The handlers that call into the library. *)
Definition calls_library (h : handler_call) : bool :=
  match h with
  | ElementDecl _ _ _ => true
  | Comment _ _ => true
  | ExternalEntityRef _ _ _ _ _ => true
  | _ => false
  end.

(** What a handler that makes no call returns to the library. *)
Definition quiet_result (h : handler_call) : option XML_Status :=
  match h with
  | NotStandalone _ => Some XML_STATUS_OK
  | UnknownEncoding _ _ => Some XML_STATUS_ERROR
  | _ => None
  end.

(** The reads of the strings [objs], one after the other; [None] when one of
    them holds no NUL. *)
Fixpoint touched_all (objs : list string) : option (list event) :=
  match objs with
  | [] => Some []
  | obj :: rest =>
      match until_nul obj, touched_all rest with
      | Some units, Some reads => Some (EvTouch units :: reads)
      | _, _ => None
      end
  end.

(** What reading the string at [p] records when the read goes through:
    nothing for a null pointer, the units before the NUL otherwise ([] is
    put for a string that cannot be read through). *)
Definition reads (p : cstr) : list event :=
  match touched p with Some evs => evs | None => [] end.

(** The reads over the children a node announces. *)
Definition reads_children (f : XML_Content -> list event)
  : nat -> list XML_Content -> list event :=
  fix loop (n : nat) (arr : list XML_Content) {struct arr} : list event :=
    match n with
    | O => []
    | S n' =>
        match arr with
        | [] => []
        | child :: rest => f child ++ loop n' rest
        end
    end.

Definition children_reads (f : XML_Content -> list event) (n : nat)
  (children : option (list XML_Content)) : list event :=
  match children with
  | Some arr => reads_children f n arr
  | None => []
  end.

(** The verifier as a test without effects: every check of
    [TouchChildNodes], in its order, with a read that goes through in place
    of each [TouchString]. *)
Definition accepts_mixed_child (child : XML_Content) : bool :=
  is_name_leaf child && readable (name child).

Fixpoint accepts (content : XML_Content) : bool :=
  match content with
  | Build_XML_Content type quant name numchildren children =>
      match type with
      | XML_CTYPE_EMPTY | XML_CTYPE_ANY =>
          match quant with XML_CQUANT_NONE => true | _ => false end
          && is_null name && (numchildren =? 0)%nat && is_null children
      | XML_CTYPE_MIXED =>
          match quant with
          | XML_CQUANT_NONE | XML_CQUANT_REP => true
          | _ => false
          end
          && is_null name
          && children_all accepts_mixed_child numchildren children
      | XML_CTYPE_NAME => (numchildren =? 0)%nat && readable name
      | XML_CTYPE_CHOICE | XML_CTYPE_SEQ =>
          is_null name && children_all accepts numchildren children
      | XML_CTYPE_other _ => false
      end
  end.

Definition mixed_child_reads (child : XML_Content) : list event :=
  reads (name child).

(** The names the verifier reads in a model it lets through, in order. *)
Fixpoint names_read (content : XML_Content) : list event :=
  match content with
  | Build_XML_Content type quant name numchildren children =>
      match type with
      | XML_CTYPE_MIXED =>
          children_reads mixed_child_reads numchildren children
      | XML_CTYPE_NAME => reads name
      | XML_CTYPE_CHOICE | XML_CTYPE_SEQ =>
          children_reads names_read numchildren children
      | _ => []
      end
  end.

(** A computation with a test [b] and reads [evs] that say all about it:
    when the test holds it returns with these reads recorded, and when not
    it stops, by a failed assertion or a read out of bounds. *)
Definition decided (b : bool) (evs : list event) (m : M unit) : Prop :=
  forall w,
    if b then m w = Ok tt (with_events w evs)
    else exists r w', m w = Stop r w' /\ r <> OutOfFuel.

(** The hook met the counter on an index of the fail-list. *)
Definition refused (before : Allocator) : bool :=
  in_fail_list (fail_allocations before) (allocation_count before).

(** The calls of the C allocator behind a list of events: the allocating
    requests that were not refused, and the frees. *)
Fixpoint passed_on (evs : list event) : list libc_call :=
  match evs with
  | [] => []
  | EvAlloc r before _ _ :: rest =>
      if refused before then passed_on rest else libc_of r :: passed_on rest
  | EvFree p :: rest => free p :: passed_on rest
  | _ :: rest => passed_on rest
  end.

(** The number of allocating requests that were not refused. *)
Fixpoint successes (evs : list event) : nat :=
  match evs with
  | [] => O
  | EvAlloc _ before _ _ :: rest =>
      if refused before then successes rest else S (successes rest)
  | _ :: rest => successes rest
  end.

(** The calls that handlers make, under the encoding name [enc]: a content
    model is released, the parser is stopped, resumably, or a nested parser
    is constructed, under that name, or freed. *)
Definition handler_call_ok (enc : option string) (c : api_call) : Prop :=
  match c with
  | XML_ExternalEntityParserCreate _ _ encoding => encoding = enc
  | XML_ParserFree _ => True
  | XML_StopParser _ resumable => resumable = true
  | XML_FreeContentModel _ _ => True
  | _ => False
  end.

(** A buffer is pending. *)
Definition pending (w : World) : Prop := is_null (external_entity w) = false.

(** [input] and [len] are those of an ExternalEntity among [actions]: the
    bytes with a NUL behind them, and the size wrapped to an [int]. *)
Definition buffer_fed (actions : list xml_lpm_fuzzer.Action) (input : cstr)
  (len : Z) : Prop :=
  exists bytes,
    In (xml_lpm_fuzzer.kExternalEntity bytes) actions /\
    input = data bytes /\ len = int_wrap (size bytes).

(** The feeds that handlers make: such a buffer as one final chunk, and
    resumes. *)
Definition handler_feed_ok (actions : list xml_lpm_fuzzer.Action)
  (c : feed_call) : Prop :=
  match c with
  | XML_Parse _ input len is_final =>
      is_final = 1 /\ buffer_fed actions input len
  | XML_ResumeParser _ => True
  end.

(** The pending buffer, when there is one, and the size kept with it are
    those of one ExternalEntity among [actions]. *)
Definition buffer_consistent (actions : list xml_lpm_fuzzer.Action)
  (w : World) : Prop :=
  pending w ->
  buffer_fed actions (external_entity w) (int_wrap (external_entity_size w)).

(** [input], [len] and [final] are those of a Chunk or of a LastChunk among
    [actions]: the bytes with a NUL behind them, the size wrapped to an
    [int], and the flag 0 or 1. *)
Definition chunk_fed (actions : list xml_lpm_fuzzer.Action) (input : cstr)
  (len final : Z) : Prop :=
  exists chunk,
    input = data chunk /\ len = int_wrap (size chunk) /\
    ((final = 0 /\ In (xml_lpm_fuzzer.kChunk chunk) actions) \/
     (final = 1 /\ In (xml_lpm_fuzzer.kLastChunk chunk) actions)).

(** The calls and the feeds that the driver makes on [parser] once it is
    constructed. *)
Definition driver_call_ok (parser : XML_Parser) (enc : option string)
  (c : api_call) : Prop :=
  c = XML_ParserReset parser enc \/
  In c (InitializeParser_calls parser) \/
  c = XML_ParserFree parser.

Definition driver_feed_ok (parser : XML_Parser)
  (actions : list xml_lpm_fuzzer.Action) (c : feed_call) : Prop :=
  match c with
  | XML_Parse p input len final =>
      p = parser /\ chunk_fed actions input len final
  | XML_ResumeParser p => p = parser
  end.

Definition disciplined (parser : XML_Parser) (enc : option string)
  (actions : list xml_lpm_fuzzer.Action) (e : event) : Prop :=
  match e with
  | EvCall O c => driver_call_ok parser enc c
  | EvCall (S _) c => handler_call_ok enc c
  | EvFeed O c => driver_feed_ok parser actions c
  | EvFeed (S _) c => handler_feed_ok actions c
  | _ => True
  end.

(** The encoding name is [enc], the pending buffer is consistent, and every
    event since the trace was [tr0] is disciplined. *)
Definition in_discipline (parser : XML_Parser) (enc : option string)
  (actions : list xml_lpm_fuzzer.Action) (tr0 : list event) (w : World)
  : Prop :=
  g_encoding w = enc /\
  buffer_consistent actions w /\
  exists evs, trace w = tr0 ++ evs /\
              Forall (disciplined parser enc actions) evs.

(** The events that a nested parser brings: its construction, a feed made
    by a handler, the free of a parser by a handler. *)
Definition is_nested (e : event) : bool :=
  match e with
  | EvCall (S _) (XML_ExternalEntityParserCreate _ _ _) => true
  | EvCall (S _) (XML_ParserFree _) => true
  | EvFeed (S _) _ => true
  | _ => false
  end.

Definition is_external_entity (a : xml_lpm_fuzzer.Action) : bool :=
  match a with
  | xml_lpm_fuzzer.kExternalEntity _ => true
  | _ => false
  end.

(** No buffer is pending, and nothing since the trace was [tr0] comes from
    a nested parser. *)
Definition never_nested (tr0 : list event) (w : World) : Prop :=
  external_entity w = None /\
  exists evs, trace w = tr0 ++ evs /\
              Forall (fun e => is_nested e = false) evs.

(** [may_return t r]: the library, inside the call [t], can come back with
    [r]. *)
Fixpoint may_return {H R : Type} (t : upcalls H R) (r : R) : Prop :=
  match t with
  | Return r' => r' = r
  | CallAlloc _ k => exists p, may_return (k p) r
  | CallFree _ k => may_return k r
  | CallHandler _ k => exists rc, may_return (k rc) r
  end.

(** The library can hand [p] out as a nested parser. *)
Definition handed_out (env : Environment) (p : XML_Parser) : Prop :=
  exists history parser context encoding,
    may_return
      (lib_call env history
                (XML_ExternalEntityParserCreate parser context encoding))
      p.

(** What an invariant [J] asks of the calls of the external entity
    reference handler in a world where a buffer is pending, and not
    otherwise; [handed] holds of the parsers that the construction of a
    nested parser returns. *)
Definition nested_kept (J : World -> Prop)
  (call : forall c : api_call, M (ret_type c))
  (feed : feed_call -> M XML_Status)
  (handed : XML_Parser -> Prop)
  (parser : XML_Parser) (context : cstr) : Prop :=
  forall w, J w -> pending w ->
    preserves J
      (call (XML_ExternalEntityParserCreate parser context (g_encoding w))) /\
    (forall p, handed p -> preserves J (call (XML_ParserFree p))) /\
    (forall p,
        preserves J
          (feed (XML_Parse p (external_entity w)
                           (int_wrap (external_entity_size w)) 1))) /\
    (forall p, preserves J (feed (XML_ResumeParser p))).

(** What it asks of the feed or of the writes of one action. *)
Definition action_kept (J : World -> Prop) (feed : feed_call -> M XML_Status)
  (parser : XML_Parser) (action : xml_lpm_fuzzer.Action) : Prop :=
  match action with
  | xml_lpm_fuzzer.kChunk chunk =>
      preserves J
        (feed (XML_Parse parser (data chunk) (int_wrap (size chunk)) 0))
  | xml_lpm_fuzzer.kLastChunk last_chunk =>
      preserves J
        (feed (XML_Parse parser (data last_chunk)
                         (int_wrap (size last_chunk)) 1))
  | xml_lpm_fuzzer.kExternalEntity bytes =>
      preserves J (set_external_entity (data bytes) ;;
                   set_external_entity_size (size bytes))
  | _ => True
  end.

(** The world [w] with the size [s] in place of the size of the pending
    buffer, when no buffer is pending. *)
Definition with_stale_size (s : Z) (w : World) : World :=
  match external_entity w with
  | None =>
      {| g_encoding := g_encoding w;
         external_entity := None;
         external_entity_size := s;
         allocator := allocator w;
         trace := trace w |}
  | Some _ => w
  end.

Definition outcome_map {A} (f : World -> World) (o : outcome A) : outcome A :=
  match o with
  | Ok a w => Ok a (f w)
  | Stop r w => Stop r (f w)
  end.

(** A computation that does not read the size of the pending buffer while
    no buffer is pending: another size there changes nothing but that size
    in the world it leaves. *)
Definition blind_to_size {A} (s : Z) (m : M A) : Prop :=
  forall w, m (with_stale_size s w) = outcome_map (with_stale_size s) (m w).

(** A world as a process leaves it before its first test case. *)
Definition fresh_world : World :=
  {| g_encoding := None;
     external_entity := None;
     external_entity_size := 0;
     allocator := {| allocation_count := 0;
                     fail_allocations := [];
                     heap := [] |};
     trace := [] |}.

(** The feeds of input by the driver: its calls of [XML_Parse]. *)
Definition is_parse (e : event) : bool :=
  match e with
  | EvFeed O (XML_Parse _ _ _ _) => true
  | _ => false
  end.

Definition parses (tr : list event) : list event := filter is_parse tr.

(** The feed that an action asks for. *)
Definition chunk_feed (parser : XML_Parser) (action : xml_lpm_fuzzer.Action)
  : list event :=
  match action with
  | xml_lpm_fuzzer.kChunk chunk =>
      [EvFeed 0 (XML_Parse parser (data chunk) (int_wrap (size chunk)) 0)]
  | xml_lpm_fuzzer.kLastChunk last_chunk =>
      [EvFeed 0 (XML_Parse parser (data last_chunk)
                           (int_wrap (size last_chunk)) 1)]
  | _ => []
  end.

Definition chunk_feeds (parser : XML_Parser)
  (actions : list xml_lpm_fuzzer.Action) : list event :=
  flat_map (chunk_feed parser) actions.

(** The handlers that a call registers. *)
Definition registers (c : api_call) : list handler_fn :=
  match c with
  | XML_SetElementDeclHandler _ f => [f]
  | XML_SetAttlistDeclHandler _ f => [f]
  | XML_SetXmlDeclHandler _ f => [f]
  | XML_SetElementHandler _ f g => [f; g]
  | XML_SetCharacterDataHandler _ f => [f]
  | XML_SetProcessingInstructionHandler _ f => [f]
  | XML_SetCommentHandler _ f => [f]
  | XML_SetCdataSectionHandler _ f g => [f; g]
  | XML_SetDefaultHandlerExpand _ f => [f]
  | XML_SetDoctypeDeclHandler _ f g => [f; g]
  | XML_SetEntityDeclHandler _ f => [f]
  | XML_SetNotationDeclHandler _ f => [f]
  | XML_SetNamespaceDeclHandler _ f g => [f; g]
  | XML_SetNotStandaloneHandler _ f => [f]
  | XML_SetExternalEntityRefHandler _ f => [f]
  | XML_SetSkippedEntityHandler _ f => [f]
  | XML_SetUnknownEncodingHandler _ f _ => [f]
  | _ => []
  end.

(** What the driver sets for a test case: the encoding name, the pending
    buffer with its size, and the fail-list. *)
Definition settings (w : World) : option string * cstr * Z * list Z :=
  (g_encoding w, external_entity w, external_entity_size w,
   fail_allocations (allocator w)).

(** The pending buffer and its size. *)
Definition buffer (w : World) : cstr * Z :=
  (external_entity w, external_entity_size w).

(** The buffer that is pending after [actions], from the buffer [b]: that
    of the last ExternalEntity among them, or [b]. *)
Definition pending_after (actions : list xml_lpm_fuzzer.Action)
  (b : cstr * Z) : cstr * Z :=
  fold_left (fun b action =>
               match action with
               | xml_lpm_fuzzer.kExternalEntity bytes =>
                   (data bytes, size bytes)
               | _ => b
               end)
            actions b.

(** A library that calls a handler only while it is registered, as expat
    does: [XML_SetCommentHandler] registers the comment handler of a parser
    and [XML_ParserReset] clears what is registered.  It allocates nothing.
    A chunk that opens a comment is a comment, of text "c": the comment
    handler, when one is registered, is called and the feed is suspended;
    when none is, the comment is passed over.  Any other chunk is a parse
    error.  Resuming ends the parse. *)
Fixpoint comment_handler_set (parser : XML_Parser) (history : list event)
  (set : bool) : bool :=
  match history with
  | [] => set
  | EvCall _ (XML_SetCommentHandler p _) :: rest =>
      comment_handler_set parser rest (if p =? parser then true else set)
  | EvCall _ (XML_ParserReset p _) :: rest =>
      comment_handler_set parser rest (if p =? parser then false else set)
  | _ :: rest => comment_handler_set parser rest set
  end.

Definition registering_lib_feed (history : list event) (c : feed_call)
  : upcalls handler_call XML_Status :=
  match c with
  | XML_Parse p (Some text) _ _ =>
      if String.prefix "<!--" text then
        if comment_handler_set p history false then
          CallHandler (Comment p (data "c"))
                      (fun _ => Return XML_STATUS_SUSPENDED)
        else Return XML_STATUS_OK
      else Return XML_STATUS_ERROR
  | XML_Parse _ None _ _ => Return XML_STATUS_ERROR
  | XML_ResumeParser _ => Return XML_STATUS_OK
  end.

Definition registering_env : Environment :=
  {| lib_call := comment_lib_call;
     lib_feed := registering_lib_feed;
     libc := fun history _ => 1000 + Z.of_nat (List.length history) |}.

(** A document that is not well formed, then a comment. *)
Definition comment_after_error_testcase : xml_lpm_fuzzer.Testcase :=
  {| xml_lpm_fuzzer.encoding := xml_lpm_fuzzer.UTF8;
     xml_lpm_fuzzer.fail_allocations := [];
     xml_lpm_fuzzer.actions :=
       [xml_lpm_fuzzer.kChunk "<a></b>"; xml_lpm_fuzzer.kChunk "<!--c-->"] |}.

(** A comment alone. *)
Definition comment_testcase : xml_lpm_fuzzer.Testcase :=
  {| xml_lpm_fuzzer.encoding := xml_lpm_fuzzer.UTF8;
     xml_lpm_fuzzer.fail_allocations := [];
     xml_lpm_fuzzer.actions := [xml_lpm_fuzzer.kChunk "<!--c-->"] |}.

(** The events that construct a main parser, and those that free [parser],
    at any depth; and the frees of [parser] by handlers. *)
Definition constructs (e : event) : bool :=
  match e with
  | EvCall _ (XML_ParserCreate_MM _ _ _) => true
  | _ => false
  end.

Definition frees (parser : XML_Parser) (e : event) : bool :=
  match e with
  | EvCall _ (XML_ParserFree p) => p =? parser
  | _ => false
  end.

Definition frees_nested (parser : XML_Parser) (e : event) : bool :=
  match e with
  | EvCall (S _) (XML_ParserFree p) => p =? parser
  | _ => false
  end.

(** Since the trace was [tr0] no handler has freed [parser]. *)
Definition no_nested_free (parser : XML_Parser) (tr0 : list event)
  (w : World) : Prop :=
  exists evs, trace w = tr0 ++ evs /\
              Forall (fun e => frees_nested parser e = false) evs.

(** * Properties *)

(** ** The monad *)

Lemma bind_Ok {A B} (m : M A) (f : A -> M B) w a w1 :
  m w = Ok a w1 -> (x <- m ;; f x) w = f a w1.
Proof. unfold bind; intros ->; reflexivity. Qed.

Lemma bind_Stop {A B} (m : M A) (f : A -> M B) w r w1 :
  m w = Stop r w1 -> (x <- m ;; f x) w = Stop r w1.
Proof. unfold bind; intros ->; reflexivity. Qed.

Lemma bind_inv_Ok {A B} (m : M A) (f : A -> M B) w b w2 :
  (x <- m ;; f x) w = Ok b w2 ->
  exists a w1, m w = Ok a w1 /\ f a w1 = Ok b w2.
Proof.
  unfold bind; destruct (m w) as [a w1|r w1]; intros E; [eauto|discriminate].
Qed.

Lemma bind_emit {B} e (f : unit -> M B) w :
  (x <- emit e ;; f x) w = f tt (world_of (emit e w)).
Proof. reflexivity. Qed.

Lemma bind_read {A B} (g : World -> A) (f : A -> M B) w :
  (x <- read g ;; f x) w = f (g w) w.
Proof. reflexivity. Qed.

(** ** Invariants of the world *)

Lemma preserves_ret {A} J (a : A) : preserves J (ret a).
Proof. intros w Hw; exact Hw. Qed.

Lemma preserves_stop {A} J r : preserves J (@stop A r).
Proof. intros w Hw; exact Hw. Qed.

Lemma preserves_read {A} J (g : World -> A) : preserves J (read g).
Proof. intros w Hw; exact Hw. Qed.

Lemma preserves_assert J b : preserves J (assert b).
Proof. destruct b; intros w Hw; exact Hw. Qed.

Lemma preserves_bind {A B} J (m : M A) (f : A -> M B) :
  preserves J m -> (forall a, preserves J (f a)) ->
  preserves J (x <- m ;; f x).
Proof.
  intros Hm Hf w Hw. specialize (Hm w Hw). unfold bind.
  destruct (m w) as [a w1|r w1]; simpl in *; [apply Hf; exact Hm|exact Hm].
Qed.

Create HintDb pres.

#[local] Hint Resolve preserves_ret preserves_stop preserves_read
  preserves_assert : pres.

Ltac pres_step :=
  match goal with
  | |- preserves _ (bind _ _) => apply preserves_bind; [|intros ?]
  | |- preserves _ (if ?b then _ else _) => destruct b
  | |- preserves _ (match ?x with _ => _ end) => destruct x
  | |- preserves _ _ => solve [auto with pres]
  end.

Ltac pres := repeat pres_step.

(** A call whose kind the hypothesis [H] covers. *)
Ltac keep_call H :=
  match goal with
  | |- preserves _ (_ ?c) => exact (H c eq_refl)
  end.

(** Induction on a content model, with the property known of the cells of
    the array of children. *)
Lemma XML_Content_induction (P : XML_Content -> Prop) :
  (forall t q n k ch,
      match ch with Some arr => Forall P arr | None => True end ->
      P (Build_XML_Content t q n k ch)) ->
  forall c, P c.
Proof.
  intros H. fix IH 1. intros [t q n k ch]. apply H.
  destruct ch as [arr|]; [|exact I].
  induction arr as [|c arr IHarr]; constructor; [apply IH|exact IHarr].
Qed.

Section KeepsHarness.

Variable J : World -> Prop.
Variable call : forall c : api_call, M (ret_type c).
Variable feed : feed_call -> M XML_Status.
Variable patience : nat.

Hypothesis J_touch : forall s, preserves J (emit (EvTouch s)).

Lemma TouchString_keeps p len : preserves J (TouchString p len).
Proof. unfold TouchString. pres. Qed.

#[local] Hint Resolve TouchString_keeps : pres.

Lemma for_each_child_keeps body n arr :
  Forall (fun c => preserves J (body c)) arr ->
  preserves J (for_each_child body n arr).
Proof.
  intros Harr. revert n. induction Harr as [|c arr Hc _ IH]; intros [|n]; simpl;
    pres.
Qed.

Lemma for_children_keeps body n ch :
  match ch with
  | Some arr => Forall (fun c => preserves J (body c)) arr
  | None => True
  end ->
  preserves J (for_children body n ch).
Proof.
  destruct ch as [arr|]; simpl; intros H.
  - apply for_each_child_keeps; exact H.
  - destruct n; pres.
Qed.

Lemma touch_mixed_child_keeps c : preserves J (touch_mixed_child c).
Proof. unfold touch_mixed_child. pres. Qed.

Lemma TouchChildNodes_keeps content : preserves J (TouchChildNodes content).
Proof.
  induction content as [t q n k ch IH] using XML_Content_induction.
  destruct t; simpl; pres;
    apply for_children_keeps; destruct ch as [arr|]; try exact I; try exact IH.
  apply Forall_forall; intros c _; apply touch_mixed_child_keeps.
Qed.

Lemma touch_atts_keeps atts : preserves J (touch_atts atts).
Proof. induction atts as [|[obj|] atts IH]; simpl; pres. Qed.

#[local] Hint Resolve TouchChildNodes_keeps touch_atts_keeps : pres.

Hypothesis feed_keeps : forall c, preserves J (feed c).

Lemma resume_while_suspended_keeps rounds parser status :
  preserves J (resume_while_suspended feed rounds parser status).
Proof.
  revert status; induction rounds as [|n IH]; intros []; simpl; pres.
Qed.

Lemma Parse_keeps parser input input_len is_final :
  preserves J (Parse feed patience parser input input_len is_final).
Proof.
  unfold Parse. pres. apply resume_while_suspended_keeps.
Qed.

#[local] Hint Resolve Parse_keeps : pres.

Section Handlers.

Hypothesis call_keeps :
  forall c, made_by_handlers c = true -> preserves J (call c).

Lemma dispatch_keeps h : preserves J (dispatch call feed patience h).
Proof.
  destruct h; unfold dispatch, void, int;
    unfold ElementDeclHandler, AttlistDeclHandler, XmlDeclHandler,
      StartElementHandler, EndElementHandler, CharacterDataHandler,
      ProcessingInstructionHandler, CommentHandler, StartCdataSectionHandler,
      EndCdataSectionHandler, DefaultHandler, StartDoctypeDeclHandler,
      EndDoctypeDeclHandler, EntityDeclHandler, UnparsedEntityDeclHandler,
      NotationDeclHandler, StartNamespaceDeclHandler, EndNamespaceDeclHandler,
      NotStandaloneHandler, ExternalEntityRefHandler, SkippedEntityHandler,
      UnknownEncodingHandler;
    pres; keep_call call_keeps.
Qed.

End Handlers.

Section Replay.

Hypothesis call_keeps :
  forall c, made_by_replay c = true -> preserves J (call c).
Hypothesis J_set_external_entity :
  forall v, preserves J (set_external_entity v).
Hypothesis J_set_external_entity_size :
  forall v, preserves J (set_external_entity_size v).

Lemma InitializeParser_keeps parser :
  preserves J (InitializeParser call parser).
Proof. unfold InitializeParser. pres; keep_call call_keeps. Qed.

#[local] Hint Resolve InitializeParser_keeps : pres.

Lemma replay_action_keeps parser action :
  preserves J (replay_action call feed patience parser action).
Proof.
  destruct action; simpl; pres;
    solve [keep_call call_keeps
          | apply J_set_external_entity
          | apply J_set_external_entity_size].
Qed.

Lemma replay_keeps parser actions :
  preserves J (replay call feed patience parser actions).
Proof.
  induction actions as [|a rest IH]; simpl; pres.
  apply replay_action_keeps.
Qed.

End Replay.

End KeepsHarness.

Section KeepsRun.

Variable env : Environment.
Variable J : World -> Prop.

Hypothesis J_alloc : forall r, preserves J (on_alloc env r).
Hypothesis J_free : forall p, preserves J (on_free env p).

Lemma run_upcalls_keeps {H R} (handler : H -> M (option XML_Status))
  (t : upcalls H R) :
  (forall h, preserves J (handler h)) ->
  preserves J (run_upcalls env handler t).
Proof.
  intros Hh. induction t as [r|r k IH|p k IH|h k IH]; simpl; pres.
Qed.

Lemma answer_keeps {H R} (handler : H -> M (option XML_Status))
  (lib : list event -> upcalls H R) :
  (forall h, preserves J (handler h)) ->
  preserves J (answer env handler lib).
Proof. intros Hh. unfold answer. pres. apply run_upcalls_keeps, Hh. Qed.

Lemma api_keeps d c :
  preserves J (emit (EvCall d c)) -> preserves J (api env d c).
Proof.
  intros He. unfold api. pres. apply answer_keeps. intros [].
Qed.

(** From depth [d0] on, inside a feed. *)
Variable d0 : nat.

Hypothesis J_touch : forall s, preserves J (emit (EvTouch s)).
Hypothesis J_handler : forall h, preserves J (emit (EvHandler h)).
Hypothesis J_call : forall d c,
    (d0 <= d)%nat -> made_by_handlers c = true ->
    preserves J (emit (EvCall d c)).
Hypothesis J_feed : forall d c,
    (d0 <= d)%nat -> preserves J (emit (EvFeed d c)).

Lemma feed_at_keeps fuel : forall d c,
    (d0 <= d)%nat -> preserves J (feed_at env fuel d c).
Proof.
  induction fuel as [|fuel IH]; intros d c Hd; simpl.
  - apply preserves_stop.
  - apply preserves_bind; [apply J_feed, Hd|intros _].
    apply answer_keeps. intros h.
    apply preserves_bind; [apply J_handler|intros _].
    apply dispatch_keeps; auto.
    intros c' Hc'. apply api_keeps, J_call; auto.
Qed.

Lemma handle_keeps fuel d h :
  (d0 <= d)%nat -> preserves J (handle env fuel d h).
Proof.
  intros Hd. unfold handle. apply dispatch_keeps; auto.
  - intros c. apply feed_at_keeps, Hd.
  - intros c Hc. apply api_keeps, J_call; auto.
Qed.

(** What the library does inside a feed made at depth [d], where [d0] is
    at most [S d]. *)
Lemma inside_feed_keeps fuel d c :
  (d0 <= S d)%nat ->
  preserves J
    (answer env
       (fun h => emit (EvHandler h) ;;
                 dispatch (api env (S d)) (feed_at env fuel (S d)) fuel h)
       (fun history => lib_feed env history c)).
Proof.
  intros Hd. apply answer_keeps. intros h.
  apply preserves_bind; [apply J_handler|intros _].
  apply (handle_keeps fuel (S d) h Hd).
Qed.

End KeepsRun.

(** ** The calls made at one depth *)

Lemma calls_at_app d tr1 tr2 :
  calls_at d (tr1 ++ tr2) = calls_at d tr1 ++ calls_at d tr2.
Proof. apply filter_app. Qed.

Lemma view_eq d w c g e s :
  view d w = (c, g, e, s) ->
  calls_at d (trace w) = c /\ g_encoding w = g /\
  external_entity w = e /\ external_entity_size w = s.
Proof. unfold view. intros H. inversion H. auto. Qed.

Lemma view_emit_other d e w :
  is_call_at d e = false -> view d (world_of (emit e w)) = view d w.
Proof.
  intros He. unfold view; simpl. rewrite calls_at_app; simpl. rewrite He.
  rewrite app_nil_r. reflexivity.
Qed.

Lemma view_emit_call d e w :
  is_call_at d e = true ->
  view d (world_of (emit e w)) =
  (calls_at d (trace w) ++ [e], g_encoding w, external_entity w,
   external_entity_size w).
Proof.
  intros He. unfold view; simpl. rewrite calls_at_app; simpl. rewrite He.
  reflexivity.
Qed.

Section Views.

Variable env : Environment.

Lemma on_alloc_Ok r w :
  exists p w', on_alloc env r w = Ok p w' /\
    trace w' = trace w ++ [EvAlloc r (allocator w) p (allocator w')] /\
    alloc_hook (libc env) r (allocator w) = (p, allocator w') /\
    g_encoding w' = g_encoding w /\
    external_entity w' = external_entity w /\
    external_entity_size w' = external_entity_size w.
Proof.
  unfold on_alloc, bind, read.
  destruct (alloc_hook (libc env) r (allocator w)) as [p a] eqn:E.
  simpl. eexists; eexists; split; [reflexivity|]. simpl. auto.
Qed.

Lemma on_free_Ok p w :
  exists w', on_free env p w = Ok tt w' /\
    trace w' = trace w ++ [EvFree p] /\
    allocator w' = FreeHook (libc env) p (allocator w) /\
    g_encoding w' = g_encoding w /\
    external_entity w' = external_entity w /\
    external_entity_size w' = external_entity_size w.
Proof.
  unfold on_free, bind, read. simpl.
  eexists; split; [reflexivity|]. simpl. auto.
Qed.

Lemma view_on_alloc d V r :
  preserves (fun w => view d w = V) (on_alloc env r).
Proof.
  intros w Hw. destruct (on_alloc_Ok r w) as (p & w' & E & Ht & _ & Hg & He & Hs).
  rewrite E; simpl. rewrite <- Hw. unfold view.
  rewrite Ht, calls_at_app, Hg, He, Hs; simpl. rewrite app_nil_r. reflexivity.
Qed.

Lemma view_on_free d V p :
  preserves (fun w => view d w = V) (on_free env p).
Proof.
  intros w Hw. destruct (on_free_Ok p w) as (w' & E & Ht & _ & Hg & He & Hs).
  rewrite E; simpl. rewrite <- Hw. unfold view.
  rewrite Ht, calls_at_app, Hg, He, Hs; simpl. rewrite app_nil_r. reflexivity.
Qed.

Lemma view_emit_keeps d V e :
  is_call_at d e = false -> preserves (fun w => view d w = V) (emit e).
Proof. intros He w Hw. rewrite view_emit_other; assumption. Qed.

(** What runs inside a feed made at depth [d] is not seen at depth [d]. *)
Lemma view_inside_feed fuel d c V :
  preserves (fun w => view d w = V)
    (answer env
       (fun h => emit (EvHandler h) ;;
                 dispatch (api env (S d)) (feed_at env fuel (S d)) fuel h)
       (fun history => lib_feed env history c)).
Proof.
  apply inside_feed_keeps with (d0 := S d).
  - apply view_on_alloc.
  - apply view_on_free.
  - intros s; apply view_emit_keeps; reflexivity.
  - intros h; apply view_emit_keeps; reflexivity.
  - intros d' c' Hd _. apply view_emit_keeps. simpl.
    apply Nat.eqb_neq. lia.
  - intros d' c' Hd. apply view_emit_keeps. simpl. apply Nat.eqb_neq. lia.
  - lia.
Qed.

(** A feed at depth [d] adds itself, and nothing else, to the calls at [d]. *)
Lemma feed_at_view fuel d c w :
  view d (world_of (feed_at env (S fuel) d c w)) =
  (calls_at d (trace w) ++ [EvFeed d c], g_encoding w, external_entity w,
   external_entity_size w).
Proof.
  simpl feed_at. rewrite bind_emit.
  rewrite (view_inside_feed fuel d c _ _ eq_refl).
  apply view_emit_call. simpl. apply Nat.eqb_refl.
Qed.

(** A call that does not parse always returns. *)
Lemma no_handler_Ok {R} (t : upcalls Empty_set R) d V w :
  view d w = V ->
  exists r w', run_upcalls env no_handler t w = Ok r w' /\ view d w' = V.
Proof.
  revert w. induction t as [r|r k IH|p k IH|[] k IH]; intros w Hw; simpl.
  - eauto.
  - destruct (on_alloc_Ok r w) as (p & w1 & E & _).
    pose proof (view_on_alloc d V r w Hw) as H1. rewrite E in H1; simpl in H1.
    rewrite (bind_Ok _ _ _ _ _ E). apply IH, H1.
  - destruct (on_free_Ok p w) as (w1 & E & _).
    pose proof (view_on_free d V p w Hw) as H1. rewrite E in H1; simpl in H1.
    rewrite (bind_Ok _ _ _ _ _ E). apply IH, H1.
Qed.

Lemma api_steps d c : steps d [EvCall d c] (api env d c).
Proof.
  intros w. unfold api. rewrite bind_emit. unfold answer. rewrite bind_read.
  destruct (no_handler_Ok
              (lib_call env (trace (world_of (emit (EvCall d c) w))) c)
              d _ (world_of (emit (EvCall d c) w)) eq_refl)
    as (r & w' & E & Hv).
  exists r, w'. split; [exact E|].
  rewrite view_emit_call in Hv by (simpl; apply Nat.eqb_refl).
  unfold view in Hv. inversion Hv. auto.
Qed.

Lemma steps_ret {A} d (a : A) : steps d [] (ret a).
Proof. intros w. exists a, w. rewrite app_nil_r. auto. Qed.

Lemma steps_read {A} d (g : World -> A) : steps d [] (read g).
Proof. intros w. exists (g w), w. rewrite app_nil_r. auto. Qed.

Lemma steps_bind {A B} d s1 s2 (m : M A) (f : A -> M B) :
  steps d s1 m -> (forall a, steps d s2 (f a)) ->
  steps d (s1 ++ s2) (x <- m ;; f x).
Proof.
  intros Hm Hf w. destruct (Hm w) as (a & w1 & E1 & Hc1 & Hg1 & He1 & Hs1).
  destruct (Hf a w1) as (b & w2 & E2 & Hc2 & Hg2 & He2 & Hs2).
  exists b, w2. rewrite (bind_Ok _ _ _ _ _ E1).
  split; [exact E2|]. rewrite Hc2, Hc1, app_assoc. repeat split; congruence.
Qed.

Lemma steps_call {B} d c s (f : ret_type c -> M B) :
  (forall a, steps d s (f a)) ->
  steps d (EvCall d c :: s) (x <- api env d c ;; f x).
Proof. intros Hf. apply (steps_bind d [EvCall d c] s), Hf. apply api_steps. Qed.

Lemma InitializeParser_steps d parser :
  steps d (map (EvCall d) (InitializeParser_calls parser))
        (InitializeParser (api env d) parser).
Proof.
  unfold InitializeParser, InitializeParser_calls; simpl map.
  repeat (apply steps_call; intros ?).
  exact (api_steps d (XML_SetUnknownEncodingHandler parser
                        fn_UnknownEncodingHandler parser)).
Qed.

End Views.

(** ** The driver, step by step *)

Lemma SetEncoding_sets e w :
  SetEncoding e w =
  Ok tt {| g_encoding := encoding_name e;
           external_entity := external_entity w;
           external_entity_size := external_entity_size w;
           allocator := allocator w;
           trace := trace w |}.
Proof. destruct e; reflexivity. Qed.

Lemma copy_fail_allocations_copies indices w :
  copy_fail_allocations indices w =
  Ok tt {| g_encoding := g_encoding w;
           external_entity := external_entity w;
           external_entity_size := external_entity_size w;
           allocator :=
             {| allocation_count := allocation_count (allocator w);
                fail_allocations := fail_allocations (allocator w) ++ indices;
                heap := heap (allocator w) |};
           trace := trace w |}.
Proof.
  revert w. induction indices as [|index rest IH]; intros w; simpl.
  - rewrite app_nil_r. destruct w as [g e s [c f h] t]; reflexivity.
  - unfold bind at 1. simpl. rewrite IH. simpl.
    rewrite <- app_assoc. reflexivity.
Qed.

Lemma no_actions (acts : list xml_lpm_fuzzer.Action) :
  acts <> [] -> (List.length acts =? 0)%nat = false.
Proof. destruct acts; [congruence|reflexivity]. Qed.

(** With at least one action, the driver sets the globals up, creates the
    parser and goes on from there. *)
Lemma fuzz_unfold env fuel testcase w :
  xml_lpm_fuzzer.actions testcase <> [] ->
  exists parser w1,
    api env 0 (create_call testcase) (at_start testcase w) = Ok parser w1 /\
    fuzz env fuel testcase w = after_create env fuel testcase parser w1.
Proof.
  intros Hacts.
  destruct (api_steps env 0 (create_call testcase) (at_start testcase w))
    as (parser & w1 & E & _).
  exists parser, w1. split; [exact E|].
  unfold fuzz, TestOneProtoInput. rewrite (no_actions _ Hacts).
  unfold bind at 1. simpl.
  unfold bind at 1. simpl.
  unfold bind at 1. simpl.
  unfold bind at 1. rewrite copy_fail_allocations_copies. simpl.
  unfold bind at 1. rewrite SetEncoding_sets. simpl.
  unfold bind at 1. simpl.
  unfold create_call, at_start in E.
  unfold bind at 1. rewrite E. reflexivity.
Qed.

(** An invariant that no event and no write of the pending buffer breaks is
    kept by all that follows the creation of the parser. *)
Section KeepsAll.

Variable env : Environment.
Variable J : World -> Prop.

Hypothesis J_emit : forall e, is_hook_event e = false -> preserves J (emit e).
Hypothesis J_alloc : forall r, preserves J (on_alloc env r).
Hypothesis J_free : forall p, preserves J (on_free env p).
Hypothesis J_set_external_entity :
  forall v, preserves J (set_external_entity v).
Hypothesis J_set_external_entity_size :
  forall v, preserves J (set_external_entity_size v).

Lemma api_keeps_all d c : preserves J (api env d c).
Proof. apply api_keeps; auto. Qed.

Lemma feed_at_keeps_all fuel d c : preserves J (feed_at env fuel d c).
Proof.
  apply feed_at_keeps with (d0 := 0%nat); intros; auto; lia.
Qed.

Lemma replay_keeps_all fuel parser actions :
  preserves J (replay (api env 0) (feed_at env fuel 0) fuel parser actions).
Proof.
  apply replay_keeps; auto.
  - intros c; apply feed_at_keeps_all.
  - intros c _; apply api_keeps_all.
Qed.

Lemma after_create_keeps fuel testcase parser :
  preserves J (after_create env fuel testcase parser).
Proof.
  unfold after_create.
  apply preserves_bind; [|intros _; apply preserves_bind; [|intros _]].
  - apply InitializeParser_keeps. intros c _; apply api_keeps_all.
  - apply replay_keeps_all.
  - exact (api_keeps_all 0%nat (XML_ParserFree parser)).
Qed.

End KeepsAll.

(** ** The allocation-failure injector *)

Lemma int_wrap_in_range z :
  - 2 ^ 31 <= z < 2 ^ 31 -> int_wrap z = z.
Proof.
  intros H. unfold int_wrap. rewrite Z.mod_small; lia.
Qed.

Lemma in_fail_list_In indices count :
  in_fail_list indices count = true <-> In count indices.
Proof.
  induction indices as [|index rest IH]; simpl.
  - split; [discriminate|tauto].
  - destruct (index =? count) eqn:E.
    + apply Z.eqb_eq in E. tauto.
    + apply Z.eqb_neq in E. rewrite IH. split; [tauto|].
      intros [H|H]; [contradiction|exact H].
Qed.

Lemma alloc_hook_refused libc r a :
  In (allocation_count a) (fail_allocations a) ->
  alloc_hook libc r a = (NULL, a).
Proof.
  intros H. apply in_fail_list_In in H.
  destruct r; simpl; unfold MallocHook, ReallocHook; rewrite H; reflexivity.
Qed.

Lemma alloc_hook_performed libc r a :
  ~ In (allocation_count a) (fail_allocations a) ->
  alloc_hook libc r a = perform libc (libc_of r) (count_up a).
Proof.
  intros H. destruct (in_fail_list (fail_allocations a) (allocation_count a))
    eqn:E; [apply in_fail_list_In in E; contradiction|].
  destruct r; simpl; unfold MallocHook, ReallocHook; rewrite E; reflexivity.
Qed.

Lemma alloc_hook_fail_list libc r a p a' :
  alloc_hook libc r a = (p, a') ->
  fail_allocations a' = fail_allocations a.
Proof.
  destruct r; simpl; unfold MallocHook, ReallocHook;
    destruct (in_fail_list _ _); intros E; inversion E; reflexivity.
Qed.

Lemma alloc_chain_app libc a evs1 b evs2 c :
  alloc_chain libc a evs1 b -> alloc_chain libc b evs2 c ->
  alloc_chain libc a (evs1 ++ evs2) c.
Proof.
  intros H1 H2. induction H1; simpl.
  - exact H2.
  - apply chain_alloc; auto.
  - apply chain_free; auto.
  - apply chain_other; auto.
Qed.

(** Along a chain the fail-list never changes, and every recorded hook call
    is what the hook computes on the state it met. *)
Lemma alloc_chain_event libc a0 evs a1 :
  alloc_chain libc a0 evs a1 ->
  fail_allocations a1 = fail_allocations a0 /\
  forall r before p after,
    In (EvAlloc r before p after) evs ->
    fail_allocations before = fail_allocations a0 /\
    alloc_hook libc r before = (p, after).
Proof.
  intros H. induction H as [a|a r p a' evs a'' E H [IHf IH]
                            |a p evs a'' H [IHf IH]|a e evs a'' He H [IHf IH]].
  - split; [reflexivity|]. intros r before p after [].
  - pose proof (alloc_hook_fail_list _ _ _ _ _ E) as Hf.
    split; [congruence|]. intros r' before p' after [Hin|Hin].
    + inversion Hin; subst. split; [reflexivity|exact E].
    + destruct (IH _ _ _ _ Hin) as [H1 H2]. split; [congruence|exact H2].
  - split; [exact IHf|]. intros r before p' after [Hin|Hin]; [discriminate|].
    apply (IH _ _ _ _ Hin).
  - split; [exact IHf|]. intros r before p after [Hin|Hin].
    + subst e. discriminate.
    + apply (IH _ _ _ _ Hin).
Qed.

(** Once the counter stands on an index of the fail-list, it stays there and
    every later allocating call is refused. *)
Lemma alloc_chain_stuck libc a0 evs a1 :
  In (allocation_count a0) (fail_allocations a0) ->
  alloc_chain libc a0 evs a1 ->
  allocation_count a1 = allocation_count a0 /\
  fail_allocations a1 = fail_allocations a0 /\
  forall r before p after,
    In (EvAlloc r before p after) evs ->
    allocation_count before = allocation_count a0 /\ p = NULL /\
    after = before.
Proof.
  intros Hin H. induction H as [a|a r p a' evs a'' E H IH
                               |a p evs a'' H IH|a e evs a'' He H IH].
  - split; [reflexivity|split; [reflexivity|]].
    intros r before p after [].
  - rewrite (alloc_hook_refused _ _ _ Hin) in E. inversion E; subst a' p.
    destruct (IH Hin) as (Hc & Hf & Hev).
    split; [exact Hc|split; [exact Hf|]].
    intros r' before p' after [Heq|Hin']; [|apply (Hev _ _ _ _ Hin')].
    inversion Heq; subst. auto.
  - assert (Hin' : In (allocation_count (FreeHook libc p a))
                      (fail_allocations (FreeHook libc p a))) by exact Hin.
    destruct (IH Hin') as (Hc & Hf & Hev).
    split; [exact Hc|split; [exact Hf|]].
    intros r before p' after [Heq|Hin'']; [discriminate|].
    apply (Hev _ _ _ _ Hin'').
  - destruct (IH Hin) as (Hc & Hf & Hev).
    split; [exact Hc|split; [exact Hf|]].
    intros r before p after [Heq|Hin']; [subst e; discriminate|].
    apply (Hev _ _ _ _ Hin').
Qed.

Section Chained.

Variable env : Environment.
Variable tr0 : list event.
Variable a0 : Allocator.

Lemma chained_emit e :
  is_hook_event e = false -> preserves (chained env tr0 a0) (emit e).
Proof.
  intros He w (evs & Ht & Hc). exists (evs ++ [e]). simpl. split.
  - rewrite Ht, app_assoc. reflexivity.
  - apply (alloc_chain_app _ _ _ _ _ _ Hc).
    apply chain_other; [exact He|apply chain_nil].
Qed.

Lemma chained_on_alloc r : preserves (chained env tr0 a0) (on_alloc env r).
Proof.
  intros w (evs & Ht & Hc).
  destruct (on_alloc_Ok env r w) as (p & w' & E & Ht' & Hh & _).
  rewrite E; simpl. exists (evs ++ [EvAlloc r (allocator w) p (allocator w')]).
  split.
  - rewrite Ht', Ht, app_assoc. reflexivity.
  - apply (alloc_chain_app _ _ _ _ _ _ Hc).
    apply chain_alloc; [exact Hh|apply chain_nil].
Qed.

Lemma chained_on_free p : preserves (chained env tr0 a0) (on_free env p).
Proof.
  intros w (evs & Ht & Hc).
  destruct (on_free_Ok env p w) as (w' & E & Ht' & Ha & _).
  rewrite E; simpl. exists (evs ++ [EvFree p]). split.
  - rewrite Ht', Ht, app_assoc. reflexivity.
  - apply (alloc_chain_app _ _ _ _ _ _ Hc).
    apply chain_free. rewrite Ha. apply chain_nil.
Qed.

Lemma chained_set_external_entity v :
  preserves (chained env tr0 a0) (set_external_entity v).
Proof. intros w H; exact H. Qed.

Lemma chained_set_external_entity_size v :
  preserves (chained env tr0 a0) (set_external_entity_size v).
Proof. intros w H; exact H. Qed.

Lemma chained_after_create fuel testcase parser :
  preserves (chained env tr0 a0) (after_create env fuel testcase parser).
Proof.
  apply after_create_keeps;
    auto using chained_emit, chained_on_alloc, chained_on_free,
      chained_set_external_entity, chained_set_external_entity_size.
Qed.

Lemma chained_api d c : preserves (chained env tr0 a0) (api env d c).
Proof.
  apply api_keeps_all;
    auto using chained_emit, chained_on_alloc, chained_on_free.
Qed.

Lemma chained_remainder fuel parser rest :
  preserves (chained env tr0 a0) (remainder env fuel parser rest).
Proof.
  unfold remainder. apply preserves_bind; [|intros _].
  - apply replay_keeps_all;
      auto using chained_emit, chained_on_alloc, chained_on_free,
        chained_set_external_entity, chained_set_external_entity_size.
  - exact (chained_api 0%nat (XML_ParserFree parser)).
Qed.

End Chained.

(** ** Claims on the allocation-failure injector *)

(** C1, amended.  In the run of a test case with at least one action whose
    fail-list holds [N]: the events of the run carry the allocator from
    counter 0 and the fail-list of the test case, moving it only through the
    hooks; every allocating call (allocate or reallocate) is made under that
    fail-list; one made while the counter is [N] returns null and leaves the
    allocator as it was (counter not incremented, no call of the C
    allocator); one made while the counter is on no index of the fail-list
    increments the counter (by one, short of the largest [int]), performs
    the C call and returns its result. *)
Theorem fail_list_forces_failure env fuel testcase w N :
  xml_lpm_fuzzer.actions testcase <> [] ->
  In N (xml_lpm_fuzzer.fail_allocations testcase) ->
  let fl := xml_lpm_fuzzer.fail_allocations testcase in
  let w' := world_of (fuzz env fuel testcase w) in
  exists evs,
    trace w' = trace w ++ evs /\
    alloc_chain (libc env)
      {| allocation_count := 0; fail_allocations := fl;
         heap := heap (allocator w) |}
      evs (allocator w') /\
    forall r before p after,
      In (EvAlloc r before p after) evs ->
      fail_allocations before = fl /\
      (allocation_count before = N -> p = NULL /\ after = before) /\
      (~ In (allocation_count before) fl ->
       p = libc env (heap before) (libc_of r) /\
       allocation_count after = int_wrap (allocation_count before + 1) /\
       (- 2 ^ 31 <= allocation_count before < 2 ^ 31 - 1 ->
        allocation_count after = allocation_count before + 1) /\
       heap after = heap before ++ [libc_of r] /\
       fail_allocations after = fl).
Proof.
  intros Hacts HN fl w'.
  destruct (fuzz_unfold env fuel testcase w Hacts) as (parser & w1 & E & Hf).
  assert (H0 : chained env (trace w) (allocator (at_start testcase w))
                       (at_start testcase w)).
  { exists []. split; [simpl; rewrite app_nil_r; reflexivity|apply chain_nil]. }
  pose proof (chained_api env _ _ 0%nat (create_call testcase) _ H0) as H1.
  rewrite E in H1; simpl in H1.
  pose proof (chained_after_create env _ _ fuel testcase parser _ H1) as H2.
  rewrite <- Hf in H2. destruct H2 as (evs & Ht & Hc).
  exists evs. split; [exact Ht|]. split; [exact Hc|].
  intros r before p after Hin.
  destruct (alloc_chain_event _ _ _ _ Hc) as [_ Hev].
  destruct (Hev _ _ _ _ Hin) as [Hfl Hhook]. simpl in Hfl.
  split; [exact Hfl|]. split.
  - intros Hcount.
    rewrite alloc_hook_refused in Hhook
      by (rewrite Hfl, Hcount; exact HN).
    inversion Hhook; auto.
  - intros Hnot.
    rewrite alloc_hook_performed in Hhook by (rewrite Hfl; exact Hnot).
    unfold perform, count_up in Hhook; simpl in Hhook.
    inversion Hhook; subst; simpl.
    split; [reflexivity|]. split; [reflexivity|]. split; [|auto].
    intros Hrange. apply int_wrap_in_range. lia.
Qed.

(** The sample test case fails allocation 1: against the sample library the
    parser is created by allocation 0, and the allocation for the nested
    parser, made while the counter is 1, is refused. *)
Lemma fail_list_forces_failure_witness :
  let run := trace (world_of (fuzz sample_env 5 sample_testcase sample_world)) in
  let refused := {| allocation_count := 1;
                    fail_allocations := [1];
                    heap := [malloc 64] |} in
  In (EvAlloc (malloc_fcn 64) refused NULL refused) run /\
  forall r before p after,
    In (EvAlloc r before p after) run ->
    allocation_count before = 1 -> p = NULL /\ after = before.
Proof.
  intros run refused.
  destruct (fail_list_forces_failure sample_env 5 sample_testcase
              sample_world 1) as (evs & Ht & _ & Hev).
  - discriminate.
  - simpl; auto.
  - change (trace sample_world ++ evs) with evs in Ht. fold run in Ht.
    split.
    + vm_compute. do 26 right. left. reflexivity.
    + intros r before p after Hin. rewrite Ht in Hin.
      apply (Hev r before p after Hin).
Defined.

(** C1, as it is worded, fails: with the indices 0 and 1 on the fail-list,
    take [N] to be 1; the first allocation of the run, the one that would
    construct the parser, is made while the counter is 0, so it is another
    allocation than the one made while the counter is 1, and it is refused:
    it returns null and leaves the allocator as it was. *)
Lemma other_allocation_refused :
  let refused := {| allocation_count := 0;
                    fail_allocations := [0; 1];
                    heap := [] |} in
  In 1 (xml_lpm_fuzzer.fail_allocations two_index_testcase) /\
  allocation_count refused <> 1 /\
  In (EvAlloc (malloc_fcn 64) refused NULL refused)
     (trace (world_of (fuzz sample_env 5 two_index_testcase sample_world))).
Proof.
  split; [simpl; auto|]. split; [discriminate|].
  vm_compute. right. left. reflexivity.
Qed.

(** C2.  Once the allocation counter stands on an index of the fail-list,
    every allocating call fails and nothing moves: a run of such calls
    returns null each time and leaves the allocator as it was; and in what
    remains of a test case from the boundary between two actions, the
    counter and the fail-list stay and every allocating call that is made
    returns null. *)
Theorem counter_stuck_on_failing_index env fuel parser rest w requests :
  In (allocation_count (allocator w)) (fail_allocations (allocator w)) ->
  alloc_hooks (libc env) requests (allocator w) =
    (map (fun _ => NULL) requests, allocator w) /\
  let w' := world_of (remainder env fuel parser rest w) in
  allocation_count (allocator w') = allocation_count (allocator w) /\
  fail_allocations (allocator w') = fail_allocations (allocator w) /\
  exists evs,
    trace w' = trace w ++ evs /\
    forall r before p after,
      In (EvAlloc r before p after) evs ->
      allocation_count before = allocation_count (allocator w) /\
      p = NULL /\ after = before.
Proof.
  intros Hin. split.
  - induction requests as [|r rs IH]; simpl; [reflexivity|].
    rewrite (alloc_hook_refused _ _ _ Hin), IH. reflexivity.
  - intros w'.
    assert (H0 : chained env (trace w) (allocator w) w).
    { exists []. split; [rewrite app_nil_r; reflexivity|apply chain_nil]. }
    apply (chained_remainder env _ _ fuel parser rest) in H0.
    destruct H0 as (evs & Ht & Hc).
    destruct (alloc_chain_stuck _ _ _ _ Hin Hc) as (H1 & H2 & H3).
    split; [exact H1|]. split; [exact H2|]. exists evs. auto.
Qed.

Lemma counter_stuck_on_failing_index_witness :
  alloc_hooks (libc sample_env)
              [malloc_fcn 8; realloc_fcn 1000 16; malloc_fcn 1]
              (allocator stuck_world)
  = ([NULL; NULL; NULL], allocator stuck_world).
Proof.
  apply (counter_stuck_on_failing_index sample_env 5 1
           [xml_lpm_fuzzer.kChunk "<a>"] stuck_world
           [malloc_fcn 8; realloc_fcn 1000 16; malloc_fcn 1]).
  simpl. auto.
Defined.

(** ** Claims on the set-up of a test case *)

(** A call is recorded at once; what follows it in the trace is what the
    library does inside. *)
Lemma api_trace env d c w :
  exists evs, trace (world_of (api env d c w)) = trace w ++ EvCall d c :: evs.
Proof.
  unfold api. rewrite bind_emit.
  assert (H0 : chained env (trace w ++ [EvCall d c]) (allocator w)
                       (world_of (emit (EvCall d c) w))).
  { exists []. split; [simpl; rewrite app_nil_r; reflexivity|apply chain_nil]. }
  apply (answer_keeps env _ (chained_on_alloc env _ _)
           (chained_on_free env _ _) no_handler
           (fun history => lib_call env history c)) in H0.
  - destruct H0 as (evs & Ht & _). exists evs.
    rewrite Ht, <- app_assoc. reflexivity.
  - intros [].
Qed.

(** C7.  [SetEncoding] stores the encoding name of the table: "UTF-8",
    "UTF-16", "ISO-8859-1", "US-ASCII", null for NONE, and "UNKNOWN" for a
    value that is none of the five; and in a run on a test case with at
    least one action, the first thing that happens is the construction of
    the parser under the name the table gives for the encoding of the test
    case. *)
Theorem encoding_name_before_construction env fuel testcase w :
  xml_lpm_fuzzer.actions testcase <> [] ->
  (forall w0,
      g_encoding (world_of (SetEncoding xml_lpm_fuzzer.UTF8 w0))
        = Some "UTF-8" /\
      g_encoding (world_of (SetEncoding xml_lpm_fuzzer.UTF16 w0))
        = Some "UTF-16" /\
      g_encoding (world_of (SetEncoding xml_lpm_fuzzer.ISO88591 w0))
        = Some "ISO-8859-1" /\
      g_encoding (world_of (SetEncoding xml_lpm_fuzzer.ASCII w0))
        = Some "US-ASCII" /\
      g_encoding (world_of (SetEncoding xml_lpm_fuzzer.NONE w0)) = None /\
      forall value,
        g_encoding
          (world_of (SetEncoding (xml_lpm_fuzzer.Encoding_unrecognized value)
                                 w0))
        = Some "UNKNOWN") /\
  exists rest,
    trace (world_of (fuzz env fuel testcase w)) =
    trace w ++
    EvCall 0 (XML_ParserCreate_MM
                (encoding_name (xml_lpm_fuzzer.encoding testcase))
                memory_handling_suite "|") :: rest.
Proof.
  intros Hacts. split.
  - intros w0. repeat split; reflexivity.
  - destruct (fuzz_unfold env fuel testcase w Hacts) as (parser & w1 & E & Hf).
    destruct (api_trace env 0 (create_call testcase) (at_start testcase w))
      as (evs & Ht).
    rewrite E in Ht; simpl in Ht.
    assert (H1 : chained env (trace w1) (allocator w1) w1).
    { exists []. split; [rewrite app_nil_r; reflexivity|apply chain_nil]. }
    apply (chained_after_create env _ _ fuel testcase parser) in H1.
    rewrite <- Hf in H1. destruct H1 as (evs' & Ht' & _).
    exists (evs ++ evs'). rewrite Ht', Ht, <- app_assoc. reflexivity.
Qed.

Lemma encoding_name_before_construction_witness :
  exists rest,
    trace (world_of (fuzz sample_env 5 sample_testcase sample_world)) =
    trace sample_world ++
    EvCall 0 (XML_ParserCreate_MM (Some "UTF-8") memory_handling_suite "|")
    :: rest.
Proof.
  apply (encoding_name_before_construction sample_env 5 sample_testcase
           sample_world).
  discriminate.
Defined.

(** C8.  On a test case without actions the driver returns at once: it
    calls nothing (the trace is as before: no parser is made, nothing is
    fed), leaves the allocation counter, the fail-list and the encoding name
    as they were, and only forgets the pending buffer. *)
Theorem no_actions_no_work env fuel testcase w :
  xml_lpm_fuzzer.actions testcase = [] ->
  exists w',
    fuzz env fuel testcase w = Ok tt w' /\
    trace w' = trace w /\
    allocator w' = allocator w /\
    g_encoding w' = g_encoding w /\
    external_entity w' = None /\
    external_entity_size w' = external_entity_size w.
Proof.
  intros Hacts. exists (without_pending w). split.
  - unfold fuzz, TestOneProtoInput. rewrite Hacts. reflexivity.
  - repeat split.
Qed.

Lemma no_actions_no_work_witness :
  exists w',
    fuzz sample_env 5 empty_testcase sample_world = Ok tt w' /\
    trace w' = trace sample_world /\
    allocator w' = allocator sample_world /\
    g_encoding w' = g_encoding sample_world /\
    external_entity w' = None /\
    external_entity_size w' = external_entity_size sample_world.
Proof.
  apply (no_actions_no_work sample_env 5 empty_testcase sample_world).
  reflexivity.
Defined.

(** ** Claims on the feed wrapper *)

Lemma resume_while_suspended_iff feed parser rounds st w st' w' :
  resume_while_suspended feed rounds parser st w = Ok st' w' <->
  exists k, (k <= rounds)%nat /\ resumed feed parser k st w st' w' /\
            st' <> XML_STATUS_SUSPENDED.
Proof.
  split.
  - revert st w. induction rounds as [|n IH]; intros st w E.
    + destruct st; simpl in E; try discriminate; inversion E; subst;
        exists 0%nat; (split; [lia|split; [constructor|discriminate]]).
    + destruct st; simpl in E;
        try (inversion E; subst; exists 0%nat;
             split; [lia|split; [constructor|discriminate]]).
      apply bind_inv_Ok in E. destruct E as (st1 & w1 & E1 & E2).
      destruct (IH _ _ E2) as (k & Hk & Hr & Hs).
      exists (S k). split; [lia|]. split; [|exact Hs].
      econstructor; eassumption.
  - intros (k & Hk & Hr & Hs). revert rounds Hk.
    induction Hr as [st w|k w st1 w1 st' w' E Hr IH]; intros rounds Hk.
    + destruct rounds, st; simpl; try reflexivity; contradiction.
    + destruct rounds as [|n]; [lia|]. simpl.
      rewrite (bind_Ok _ _ _ _ _ E). apply IH; [exact Hs|lia].
Qed.

Lemma Parse_returns_iff feed patience parser input input_len is_final w
  st' w' :
  Parse feed patience parser input input_len is_final w = Ok st' w' <->
  exists st0 w0 k,
    feed (XML_Parse parser input input_len is_final) w = Ok st0 w0 /\
    (k <= patience)%nat /\
    resumed feed parser k st0 w0 st' w' /\
    st' <> XML_STATUS_SUSPENDED.
Proof.
  unfold Parse. split.
  - intros E. apply bind_inv_Ok in E. destruct E as (st0 & w0 & E0 & E1).
    apply resume_while_suspended_iff in E1. destruct E1 as (k & Hk & Hr & Hs).
    exists st0, w0, k. auto.
  - intros (st0 & w0 & k & E0 & Hk & Hr & Hs).
    rewrite (bind_Ok _ _ _ _ _ E0). apply resume_while_suspended_iff.
    exists k. auto.
Qed.

(** C3.  The feed wrapper returns a status exactly when the feed call
    returns one and the resume calls that follow it, each made because the
    status at hand was suspended, come to a status that is not suspended
    within the rounds followed; that status is what it returns.  So it never
    returns suspended, it resumes as long as the status is suspended, and
    with enough rounds the first status that is not suspended is its
    result. *)
Theorem Parse_resumes_until_not_suspended
  (feed : feed_call -> M XML_Status) (patience : nat) (parser : XML_Parser)
  (input : cstr) (input_len is_final : Z) (w : World)
  (st' : XML_Status) (w' : World) :
  (Parse feed patience parser input input_len is_final w = Ok st' w' ->
   st' <> XML_STATUS_SUSPENDED) /\
  (Parse feed patience parser input input_len is_final w = Ok st' w' <->
   exists st0 w0 k,
     feed (XML_Parse parser input input_len is_final) w = Ok st0 w0 /\
     (k <= patience)%nat /\
     resumed feed parser k st0 w0 st' w' /\
     st' <> XML_STATUS_SUSPENDED).
Proof.
  split; [|apply Parse_returns_iff].
  intros E. apply Parse_returns_iff in E.
  destruct E as (_ & _ & _ & _ & _ & _ & Hs). exact Hs.
Qed.

(** Against the library that suspends at each comment, feeding a chunk
    returns OK after one resume. *)
Lemma Parse_resumes_until_not_suspended_witness :
  exists w',
    Parse (feed_at comment_env 3 0) 3 1 (data "<!--hi-->") 9 0 sample_world
    = Ok XML_STATUS_OK w' /\
    calls_at 0 (trace w') =
    [EvFeed 0 (XML_Parse 1 (data "<!--hi-->") 9 0);
     EvFeed 0 (XML_ResumeParser 1)].
Proof.
  eexists. split.
  - apply (Parse_resumes_until_not_suspended (feed_at comment_env 3 0) 3 1
             (data "<!--hi-->") 9 0 sample_world).
    eexists. eexists. exists 1%nat. split; [reflexivity|].
    split; [lia|]. split; [|discriminate].
    eapply resumed_S; [reflexivity|apply resumed_0].
  - reflexivity.
Defined.

(** What the library does inside a call that does not parse: hooks only. *)
Lemma no_handler_trace env {R} (t : upcalls Empty_set R) w :
  exists r w' evs,
    run_upcalls env no_handler t w = Ok r w' /\
    trace w' = trace w ++ evs /\
    Forall (fun e => is_hook_event e = true) evs.
Proof.
  revert w. induction t as [r|r k IH|p k IH|[] k IH]; intros w; simpl.
  - exists r, w, []. rewrite app_nil_r. auto.
  - destruct (on_alloc_Ok env r w) as (p & w1 & E & Ht & _).
    rewrite (bind_Ok _ _ _ _ _ E).
    destruct (IH p w1) as (r' & w' & evs & E' & Ht' & Hev).
    exists r', w', (EvAlloc r (allocator w) p (allocator w1) :: evs).
    split; [exact E'|]. split.
    + rewrite Ht', Ht, <- app_assoc. reflexivity.
    + constructor; [reflexivity|exact Hev].
  - destruct (on_free_Ok env p w) as (w1 & E & Ht & _).
    rewrite (bind_Ok _ _ _ _ _ E).
    destruct (IH w1) as (r' & w' & evs & E' & Ht' & Hev).
    exists r', w', (EvFree p :: evs).
    split; [exact E'|]. split.
    + rewrite Ht', Ht, <- app_assoc. reflexivity.
    + constructor; [reflexivity|exact Hev].
Qed.

Lemma api_hooks env d c w :
  exists r w' hooks,
    api env d c w = Ok r w' /\
    trace w' = trace w ++ EvCall d c :: hooks /\
    Forall (fun e => is_hook_event e = true) hooks.
Proof.
  unfold api. rewrite bind_emit. unfold answer. rewrite bind_read.
  destruct (no_handler_trace env
              (lib_call env (trace (world_of (emit (EvCall d c) w))) c)
              (world_of (emit (EvCall d c) w)))
    as (r & w' & evs & E & Ht & Hev).
  exists r, w', evs. split; [exact E|]. split; [|exact Hev].
  rewrite Ht. simpl. rewrite <- app_assoc. reflexivity.
Qed.

Lemma TouchString_touched p w :
  match touched p with
  | Some evs =>
      TouchString p (-1) w =
      Ok tt {| g_encoding := g_encoding w;
               external_entity := external_entity w;
               external_entity_size := external_entity_size w;
               allocator := allocator w;
               trace := trace w ++ evs |}
  | None =>
      TouchString p (-1) w =
      Stop OutOfBounds {| g_encoding := g_encoding w;
                          external_entity := external_entity w;
                          external_entity_size := external_entity_size w;
                          allocator := allocator w;
                          trace := trace w ++ faulted p |}
  end.
Proof.
  destruct p as [obj|]; simpl.
  - destruct (until_nul obj); reflexivity.
  - rewrite app_nil_r. destruct w; reflexivity.
Qed.

(** C9, amended.  Whenever the library calls the comment handler, the
    handler reads the comment text and then asks the parser it was given to
    stop, resumably; when the text cannot be read through, the run stops
    there, the whole object read, and nothing is asked.  And a feed through
    the wrapper never ends suspended: the only statuses it returns are OK
    and ERROR, and it does return, with the first status that is not
    suspended, whenever the chain of resumes comes to such a status within
    the rounds followed (the loop of the source has no bound of its own:
    that the suspensions end rests on the library). *)
Theorem comment_suspends_and_parse_ends env fuel d userData text parser
  input input_len is_final w :
  (forall read,
      touched text = Some read ->
      exists w' hooks,
        handle env fuel d (Comment userData text) w = Ok None w' /\
        trace w' =
          trace w ++ read ++ EvCall d (XML_StopParser userData true) :: hooks /\
        Forall (fun e => is_hook_event e = true) hooks) /\
  (touched text = None ->
      handle env fuel d (Comment userData text) w =
      Stop OutOfBounds (with_events w (faulted text))) /\
  (forall st' w',
      Parse (feed_at env fuel d) fuel parser input input_len is_final w
        = Ok st' w' ->
      st' = XML_STATUS_OK \/ st' = XML_STATUS_ERROR) /\
  (forall st0 w0 k st' w',
      feed_at env fuel d (XML_Parse parser input input_len is_final) w
        = Ok st0 w0 ->
      resumed (feed_at env fuel d) parser k st0 w0 st' w' ->
      st' <> XML_STATUS_SUSPENDED ->
      (k <= fuel)%nat ->
      Parse (feed_at env fuel d) fuel parser input input_len is_final w
        = Ok st' w' /\
      (st' = XML_STATUS_OK \/ st' = XML_STATUS_ERROR)).
Proof.
  assert (Hterm : forall st, st <> XML_STATUS_SUSPENDED ->
                             st = XML_STATUS_OK \/ st = XML_STATUS_ERROR).
  { intros []; auto. congruence. }
  split; [|split; [|split]].
  - intros read Hread.
    unfold handle, dispatch, void, CommentHandler.
    pose proof (TouchString_touched text w) as Ht. rewrite Hread in Ht.
    destruct (api_hooks env d (XML_StopParser userData true)
                {| g_encoding := g_encoding w;
                   external_entity := external_entity w;
                   external_entity_size := external_entity_size w;
                   allocator := allocator w;
                   trace := trace w ++ read |})
      as (r & w' & hooks & E & Htr & Hh).
    exists w', hooks. split.
    + unfold bind at 1. unfold bind at 1. rewrite Ht.
      change (ret_type (XML_StopParser userData true)) with unit in r.
      rewrite E. reflexivity.
    + split; [|exact Hh]. rewrite Htr. simpl. rewrite <- app_assoc.
      reflexivity.
  - intros Hnone.
    unfold handle, dispatch, void, CommentHandler.
    pose proof (TouchString_touched text w) as Ht. rewrite Hnone in Ht.
    unfold bind at 1. unfold bind at 1. rewrite Ht. reflexivity.
  - intros st' w' E. apply Parse_returns_iff in E.
    destruct E as (_ & _ & _ & _ & _ & _ & Hs). apply Hterm, Hs.
  - intros st0 w0 k st' w' E0 Hr Hs Hk. split; [|apply Hterm, Hs].
    apply Parse_returns_iff. exists st0, w0, k. auto.
Qed.

(** Against the library that suspends at each comment: the handler reads
    "hi" and asks parser 1 to stop, and the feed of a chunk, suspended once,
    returns OK after one resume. *)
Lemma comment_suspends_and_parse_ends_witness :
  (exists w',
      handle comment_env 3 1 (Comment 1 (data "hi")) sample_world
        = Ok None w' /\
      trace w' = [EvTouch "hi"; EvCall 1 (XML_StopParser 1 true)]) /\
  (exists w',
      Parse (feed_at comment_env 3 0) 3 1 (data "<!--hi-->") 9 0 sample_world
        = Ok XML_STATUS_OK w').
Proof.
  pose proof (comment_suspends_and_parse_ends comment_env 3 1 1 (data "hi") 1
                (data "<!--hi-->") 9 0 sample_world) as (H1 & _ & _ & _).
  pose proof (comment_suspends_and_parse_ends comment_env 3 0 1 (data "hi") 1
                (data "<!--hi-->") 9 0 sample_world) as (_ & _ & _ & H4).
  split.
  - destruct (H1 [EvTouch "hi"] eq_refl) as (w' & hooks & E & Ht & Hh).
    exists w'. split; [exact E|].
    vm_compute in E. inversion E; subst w'. reflexivity.
  - eexists. eapply H4.
    + reflexivity.
    + eapply resumed_S; [reflexivity|apply resumed_0].
    + discriminate.
    + lia.
Defined.

(** C9, as it is worded, fails: not every comment met while parsing comes
    to the comment handler.  Against a library that calls the handlers that
    are registered, a comment fed alone is handled: read, and the parser
    suspended and resumed.  But after a Chunk that was a parse error the
    driver resets the parser and registers nothing again, so the comment of
    the next Chunk is met with no comment handler: nothing is read, no
    suspension is asked, and the feed is never resumed. *)
Lemma comment_after_error_not_handled :
  let main := EvCall 0 (XML_ParserCreate_MM (Some "UTF-8")
                          memory_handling_suite "|")
              :: map (EvCall 0) (InitializeParser_calls 1) in
  trace (world_of (fuzz registering_env 3 comment_testcase fresh_world)) =
    main ++
    [EvFeed 0 (XML_Parse 1 (data "<!--c-->") 8 0);
     EvHandler (Comment 1 (data "c"));
     EvTouch "c";
     EvCall 1 (XML_StopParser 1 true);
     EvFeed 0 (XML_ResumeParser 1);
     EvCall 0 (XML_ParserFree 1)] /\
  fuzz registering_env 3 comment_after_error_testcase fresh_world =
    Ok tt (with_events
             {| g_encoding := Some "UTF-8";
                external_entity := None;
                external_entity_size := 0;
                allocator := allocator fresh_world;
                trace := main |}
             [EvFeed 0 (XML_Parse 1 (data "<a></b>") 7 0);
              EvCall 0 (XML_ParserReset 1 (Some "UTF-8"));
              EvFeed 0 (XML_Parse 1 (data "<!--c-->") 8 0);
              EvCall 0 (XML_ParserFree 1)]).
Proof. split; vm_compute; reflexivity. Qed.

(** ** Claims on the external entity reference handler *)

Lemma TouchString_with_events p w :
  match touched p with
  | Some evs => TouchString p (-1) w = Ok tt (with_events w evs)
  | None => TouchString p (-1) w = Stop OutOfBounds (with_events w (faulted p))
  end.
Proof. exact (TouchString_touched p w). Qed.

Lemma faulted_is_touch p : Forall (fun e => is_touch e = true) (faulted p).
Proof. destruct p; repeat constructor. Qed.

Lemma touched_is_touch p evs :
  touched p = Some evs -> Forall (fun e => is_touch e = true) evs.
Proof.
  destruct p as [obj|]; simpl.
  - destruct (until_nul obj); simpl; intros E; inversion E.
    constructor; [reflexivity|constructor].
  - intros E; inversion E; constructor.
Qed.

Lemma with_events_app w evs1 evs2 :
  with_events (with_events w evs1) evs2 = with_events w (evs1 ++ evs2).
Proof. unfold with_events; simpl. rewrite app_assoc. reflexivity. Qed.

Lemma with_events_external_entity w evs :
  external_entity (with_events w evs) = external_entity w.
Proof. reflexivity. Qed.

Lemma with_events_nil w : with_events w [] = w.
Proof. unfold with_events. rewrite app_nil_r. destruct w; reflexivity. Qed.

Lemma touched4_is_touch p1 p2 p3 p4 reads :
  touched4 p1 p2 p3 p4 = Some reads ->
  Forall (fun e => is_touch e = true) reads.
Proof.
  unfold touched4.
  destruct (touched p1) as [r1|] eqn:E1; [|discriminate].
  destruct (touched p2) as [r2|] eqn:E2; [|discriminate].
  destruct (touched p3) as [r3|] eqn:E3; [|discriminate].
  destruct (touched p4) as [r4|] eqn:E4; [|discriminate].
  intros E; inversion E.
  apply Forall_app; split; [apply (touched_is_touch _ _ E1)|].
  apply Forall_app; split; [apply (touched_is_touch _ _ E2)|].
  apply Forall_app; split; [apply (touched_is_touch _ _ E3)
                           |apply (touched_is_touch _ _ E4)].
Qed.

(** Reading the four strings either goes through, or stops the run at the
    first that cannot be read; either way only reads are recorded. *)
Lemma touch4 {A} p1 p2 p3 p4 (k : M A) w :
  match touched4 p1 p2 p3 p4 with
  | Some reads =>
      (TouchString p1 (-1) ;; TouchString p2 (-1) ;; TouchString p3 (-1) ;;
       TouchString p4 (-1) ;; k) w = k (with_events w reads)
  | None =>
      exists reads,
        Forall (fun e => is_touch e = true) reads /\
        (TouchString p1 (-1) ;; TouchString p2 (-1) ;; TouchString p3 (-1) ;;
         TouchString p4 (-1) ;; k) w = Stop OutOfBounds (with_events w reads)
  end.
Proof.
  unfold touched4.
  pose proof (TouchString_with_events p1 w) as H1.
  destruct (touched p1) as [r1|] eqn:E1.
  2:{ exists (faulted p1). split; [apply faulted_is_touch|].
      rewrite (bind_Stop _ _ _ _ _ H1). reflexivity. }
  rewrite (bind_Ok _ _ _ _ _ H1).
  pose proof (TouchString_with_events p2 (with_events w r1)) as H2.
  destruct (touched p2) as [r2|] eqn:E2.
  2:{ exists (r1 ++ faulted p2). split.
      - apply Forall_app; split; [apply (touched_is_touch _ _ E1)
                                 |apply faulted_is_touch].
      - rewrite (bind_Stop _ _ _ _ _ H2), with_events_app. reflexivity. }
  rewrite (bind_Ok _ _ _ _ _ H2), with_events_app.
  pose proof (TouchString_with_events p3 (with_events w (r1 ++ r2))) as H3.
  destruct (touched p3) as [r3|] eqn:E3.
  2:{ exists ((r1 ++ r2) ++ faulted p3). split.
      - apply Forall_app; split; [apply Forall_app; split|];
          [apply (touched_is_touch _ _ E1)|apply (touched_is_touch _ _ E2)
          |apply faulted_is_touch].
      - rewrite (bind_Stop _ _ _ _ _ H3), with_events_app. reflexivity. }
  rewrite (bind_Ok _ _ _ _ _ H3), with_events_app.
  pose proof (TouchString_with_events p4 (with_events w ((r1 ++ r2) ++ r3)))
    as H4.
  destruct (touched p4) as [r4|] eqn:E4.
  2:{ exists (((r1 ++ r2) ++ r3) ++ faulted p4). split.
      - apply Forall_app; split; [apply Forall_app; split;
                                  [apply Forall_app; split|]|];
          [apply (touched_is_touch _ _ E1)|apply (touched_is_touch _ _ E2)
          |apply (touched_is_touch _ _ E3)|apply faulted_is_touch].
      - rewrite (bind_Stop _ _ _ _ _ H4), with_events_app. reflexivity. }
  rewrite (bind_Ok _ _ _ _ _ H4), with_events_app.
  rewrite <- !app_assoc. reflexivity.
Qed.

Lemma calls_of_touches tr reads :
  Forall (fun e => is_touch e = true) reads ->
  calls (tr ++ reads) = calls tr.
Proof.
  intros H. unfold calls. rewrite filter_app.
  replace (filter is_call reads) with (@nil event);
    [apply app_nil_r|].
  induction H as [|e reads He _ IH]; simpl; [reflexivity|].
  destruct e; try discriminate; exact IH.
Qed.

Lemma calls_at_of_touches d tr reads :
  Forall (fun e => is_touch e = true) reads ->
  calls_at d (tr ++ reads) = calls_at d tr.
Proof.
  intros H. rewrite calls_at_app.
  replace (calls_at d reads) with (@nil event); [apply app_nil_r|].
  induction H as [|e reads He _ IH]; simpl; [reflexivity|].
  destruct e; try discriminate; exact IH.
Qed.

Lemma feed_at_Ok_view env fuel d c w st w1 :
  feed_at env fuel d c w = Ok st w1 ->
  view d w1 =
  (calls_at d (trace w) ++ [EvFeed d c], g_encoding w, external_entity w,
   external_entity_size w).
Proof.
  destruct fuel as [|fuel]; [discriminate|]. intros E.
  pose proof (feed_at_view env fuel d c w) as H. rewrite E in H. exact H.
Qed.

Lemma resumed_view env fuel d parser k st w st' w' :
  resumed (feed_at env fuel d) parser k st w st' w' ->
  view d w' =
  (calls_at d (trace w) ++ repeat (EvFeed d (XML_ResumeParser parser)) k,
   g_encoding w, external_entity w, external_entity_size w).
Proof.
  intros H. induction H as [st w|k w st1 w1 st' w' E H IH].
  - simpl. rewrite app_nil_r. reflexivity.
  - rewrite IH. apply feed_at_Ok_view in E. unfold view in E.
    inversion E as [[Hc Hg He Hs]]. rewrite Hc, Hg, He, Hs.
    simpl. rewrite <- app_assoc. reflexivity.
Qed.

(** The calls a returning feed through the wrapper adds at its depth: the
    feed, then resumes. *)
Lemma Parse_view env fuel d parser input input_len is_final w st w' :
  Parse (feed_at env fuel d) fuel parser input input_len is_final w
    = Ok st w' ->
  exists k,
    view d w' =
    (calls_at d (trace w) ++
       EvFeed d (XML_Parse parser input input_len is_final)
       :: repeat (EvFeed d (XML_ResumeParser parser)) k,
     g_encoding w, external_entity w, external_entity_size w).
Proof.
  intros E. apply Parse_returns_iff in E.
  destruct E as (st0 & w0 & k & E0 & _ & Hr & _).
  exists k. rewrite (resumed_view _ _ _ _ _ _ _ _ _ Hr).
  apply feed_at_Ok_view in E0. unfold view in E0.
  inversion E0 as [[Hc Hg He Hs]]. rewrite Hc, Hg, He, Hs.
  rewrite <- app_assoc. reflexivity.
Qed.

(** C4.  The external entity reference handler, called at depth [d].
    With no buffer pending it makes no call into the library at all, and,
    its four strings read, returns the error status.  With a buffer pending,
    and its four strings read, it constructs a nested parser from the parser
    and context it was given and the encoding name of the test case, feeds
    the pending buffer, with its size, as one final chunk through the
    wrapper, and, when that feed returns, frees the nested parser and
    returns the status of the feed (never suspended); these, with the
    resumes of the wrapper, are all its calls, in this order.  A feed that
    does not return stops the run there. *)
Theorem external_entity_handler env fuel d parser context base systemId
  publicId w :
  let handler :=
    ExternalEntityRefHandler (api env d) (feed_at env fuel d) fuel parser
                             context base systemId publicId in
  (external_entity w = None ->
     calls (trace (world_of (handler w))) = calls (trace w) /\
     forall reads,
       touched4 context base systemId publicId = Some reads ->
       handler w = Ok XML_STATUS_ERROR (with_events w reads)) /\
  (forall buf reads,
     external_entity w = Some buf ->
     touched4 context base systemId publicId = Some reads ->
     exists ext_parser w2,
       api env d (XML_ExternalEntityParserCreate parser context (g_encoding w))
           (with_events w reads) = Ok ext_parser w2 /\
       match
         Parse (feed_at env fuel d) fuel ext_parser (Some buf)
               (int_wrap (external_entity_size w)) 1 w2
       with
       | Stop r w3 => handler w = Stop r w3
       | Ok rc w3 =>
           exists w4 k,
             api env d (XML_ParserFree ext_parser) w3 = Ok tt w4 /\
             handler w = Ok rc w4 /\
             rc <> XML_STATUS_SUSPENDED /\
             calls_at d (trace w4) =
               calls_at d (trace w) ++
               EvCall d (XML_ExternalEntityParserCreate parser context
                                                        (g_encoding w))
               :: EvFeed d (XML_Parse ext_parser (Some buf)
                              (int_wrap (external_entity_size w)) 1)
               :: repeat (EvFeed d (XML_ResumeParser ext_parser)) k ++
                  [EvCall d (XML_ParserFree ext_parser)]
       end).
Proof.
  intros handler. subst handler. unfold ExternalEntityRefHandler.
  split.
  - intros Hnone.
    match goal with
    | |- context [bind (TouchString context (-1)) ?f] =>
        match f with
        | (fun _ => bind _ (fun _ => bind _ (fun _ => bind _ (fun _ => ?k)))) =>
            pose proof (touch4 context base systemId publicId k w) as H4
        end
    end.
    destruct (touched4 context base systemId publicId) as [reads|] eqn:E.
    + rewrite H4. rewrite bind_read, with_events_external_entity, Hnone.
      simpl. split.
      * apply calls_of_touches, (touched4_is_touch _ _ _ _ _ E).
      * intros reads' Hr; inversion Hr; reflexivity.
    + destruct H4 as (reads & Hr & H4). rewrite H4. simpl. split.
      * apply calls_of_touches, Hr.
      * intros reads' Hr'; discriminate.
  - intros buf reads Hsome Hreads.
    match goal with
    | |- context [bind (TouchString context (-1)) ?f] =>
        match f with
        | (fun _ => bind _ (fun _ => bind _ (fun _ => bind _ (fun _ => ?k)))) =>
            pose proof (touch4 context base systemId publicId k w) as H4
        end
    end.
    rewrite Hreads in H4.
    destruct (api_steps env d
                (XML_ExternalEntityParserCreate parser context (g_encoding w))
                (with_events w reads))
      as (ext_parser & w2 & E2 & Hc2 & Hg2 & He2 & Hs2).
    exists ext_parser, w2. split; [exact E2|].
    simpl in Hc2, Hg2, He2, Hs2.
    assert (Hk : forall o,
               (pending <- read external_entity ;;
                if is_null pending then ret XML_STATUS_ERROR
                else
                  encoding <- read g_encoding ;;
                  ext_parser <-
                    api env d (XML_ExternalEntityParserCreate parser context
                                                              encoding) ;;
                  input <- read external_entity ;;
                  input_size <- read external_entity_size ;;
                  rc <- Parse (feed_at env fuel d) fuel ext_parser input
                              (int_wrap input_size) 1 ;;
                  api env d (XML_ParserFree ext_parser) ;; ret rc)
                 (with_events w reads) = o ->
               o = (rc <- Parse (feed_at env fuel d) fuel ext_parser (Some buf)
                                (int_wrap (external_entity_size w)) 1 ;;
                    api env d (XML_ParserFree ext_parser) ;; ret rc) w2).
    { intros o <-. rewrite bind_read, with_events_external_entity, Hsome.
      change (is_null (Some buf)) with false. cbv iota. rewrite bind_read.
      change (g_encoding (with_events w reads)) with (g_encoding w).
      rewrite (bind_Ok _ _ _ _ _ E2). rewrite bind_read, bind_read.
      rewrite He2, Hs2, Hsome. reflexivity. }
    rewrite H4. rewrite (Hk _ eq_refl). clear Hk H4.
    destruct (Parse (feed_at env fuel d) fuel ext_parser (Some buf)
                    (int_wrap (external_entity_size w)) 1 w2)
      as [rc w3|r w3] eqn:EP.
    + destruct (api_steps env d (XML_ParserFree ext_parser) w3)
        as ([] & w4 & E4 & Hc4 & _).
      destruct (Parse_view _ _ _ _ _ _ _ _ _ _ EP) as (k & Hv).
      unfold view in Hv. inversion Hv as [[Hc3 Hg3 He3 Hs3]].
      exists w4, k. split; [exact E4|]. split; [|split].
      * rewrite (bind_Ok _ _ _ _ _ EP). rewrite (bind_Ok _ _ _ _ _ E4).
        reflexivity.
      * apply Parse_returns_iff in EP.
        destruct EP as (_ & _ & _ & _ & _ & _ & Hs). exact Hs.
      * rewrite Hc4, Hc3, Hc2.
        rewrite (calls_at_of_touches d (trace w) reads
                   (touched4_is_touch _ _ _ _ _ Hreads)).
        rewrite <- !app_assoc. reflexivity.
    + rewrite (bind_Stop _ _ _ _ _ EP). reflexivity.
Qed.

Lemma external_entity_handler_witness :
  exists w4,
    ExternalEntityRefHandler (api sample_env 1) (feed_at sample_env 3 1) 3 1
                             (data "ctx") None None None sample_world
      = Ok XML_STATUS_OK w4 /\
    calls_at 1 (trace w4) =
      [EvCall 1 (XML_ExternalEntityParserCreate 1 (data "ctx") (Some "UTF-16"));
       EvFeed 1 (XML_Parse 2 (data "old") 3 1);
       EvCall 1 (XML_ParserFree 2)].
Proof.
  destruct (external_entity_handler sample_env 3 1 1 (data "ctx") None None
              None sample_world) as [_ H].
  destruct (H _ _ eq_refl eq_refl) as (ext_parser & w2 & E & Hm).
  vm_compute in E. inversion E; subst ext_parser w2. clear E.
  vm_compute in Hm. destruct Hm as (w4 & k & E4 & Hh & _ & _).
  inversion E4; subst w4. clear E4.
  eexists. split; [vm_compute; exact Hh|vm_compute; reflexivity].
Defined.

(** ** Claims on the replay of the actions *)

Lemma reset_and_initialize env parser w :
  exists w',
    (encoding <- read g_encoding ;;
     api env 0 (XML_ParserReset parser encoding) ;;
     InitializeParser (api env 0) parser) w = Ok tt w' /\
    calls_at 0 (trace w') =
      calls_at 0 (trace w) ++
      EvCall 0 (XML_ParserReset parser (g_encoding w))
      :: map (EvCall 0) (InitializeParser_calls parser) /\
    g_encoding w' = g_encoding w /\
    external_entity w' = external_entity w /\
    external_entity_size w' = external_entity_size w.
Proof.
  rewrite bind_read.
  destruct (steps_call env 0 (XML_ParserReset parser (g_encoding w)) _ _
              (fun _ => InitializeParser_steps env 0 parser) w)
    as ([] & w' & E & H).
  exists w'. split; [exact E|exact H].
Qed.

Lemma chunk_after_feed env fuel parser chunk w st w1 :
  Parse (feed_at env fuel 0) fuel parser (data chunk)
        (int_wrap (size chunk)) 0 w = Ok st w1 ->
  exists w2,
    replay_action (api env 0) (feed_at env fuel 0) fuel parser
                  (xml_lpm_fuzzer.kChunk chunk) w = Ok tt w2 /\
    calls_at 0 (trace w2) =
      calls_at 0 (trace w1) ++
      match st with
      | XML_STATUS_ERROR => [EvCall 0 (XML_ParserReset parser (g_encoding w))]
      | _ => []
      end.
Proof.
  intros E. simpl.
  destruct (Parse_view _ _ _ _ _ _ _ _ _ _ E) as (k & Hv).
  apply view_eq in Hv. destruct Hv as (_ & Hg & _ & _).
  rewrite (bind_Ok _ _ _ _ _ E). destruct st.
  - rewrite bind_read.
    destruct (api_steps env 0 (XML_ParserReset parser (g_encoding w1)) w1)
      as ([] & w2 & E2 & Hc & _).
    exists w2. rewrite <- Hg. auto.
  - exists w1. rewrite app_nil_r. auto.
  - exists w1. rewrite app_nil_r. auto.
Qed.

Lemma replay_app call feed patience parser actions1 actions2 w :
  replay call feed patience parser (actions1 ++ actions2) w =
  (replay call feed patience parser actions1 ;;
   replay call feed patience parser actions2) w.
Proof.
  revert w. induction actions1 as [|a rest IH]; intros w; simpl.
  - reflexivity.
  - unfold bind at 1 2 3.
    destruct (replay_action call feed patience parser a w) as [[] w1|r w1];
      [|reflexivity].
    rewrite IH. reflexivity.
Qed.

(** Neither the library nor the replay writes the encoding name. *)
Lemma encoding_kept env fuel parser actions enc :
  preserves (fun w => g_encoding w = enc)
    (InitializeParser (api env 0) parser ;;
     replay (api env 0) (feed_at env fuel 0) fuel parser actions).
Proof.
  assert (Ha : forall r, preserves (fun w => g_encoding w = enc)
                           (on_alloc env r)).
  { intros r w Hw.
    destruct (on_alloc_Ok env r w) as (p & w' & E & _ & _ & Hg & _).
    rewrite E; simpl. congruence. }
  assert (Hf : forall p, preserves (fun w => g_encoding w = enc)
                           (on_free env p)).
  { intros p w Hw.
    destruct (on_free_Ok env p w) as (w' & E & _ & _ & Hg & _).
    rewrite E; simpl. congruence. }
  assert (He : forall e, is_hook_event e = false ->
                         preserves (fun w => g_encoding w = enc) (emit e))
    by (intros e _ w Hw; exact Hw).
  apply preserves_bind; [|intros _].
  - apply InitializeParser_keeps. intros c _. apply api_keeps_all; assumption.
  - apply replay_keeps_all; try assumption; intros v w Hw; exact Hw.
Qed.

(** The run of a test case from the boundary before one of its actions:
    it goes on with the round of that action in the replay loop, and then
    with the actions behind it. *)
Lemma fuzz_at_action env fuel testcase pre action post w parser w0 w1 w3 :
  xml_lpm_fuzzer.actions testcase = pre ++ action :: post ->
  api env 0 (create_call testcase) (at_start testcase w) = Ok parser w0 ->
  (InitializeParser (api env 0) parser ;;
   replay (api env 0) (feed_at env fuel 0) fuel parser pre) w0 = Ok tt w1 ->
  replay_action (api env 0) (feed_at env fuel 0) fuel parser action w1
    = Ok tt w3 ->
  fuzz env fuel testcase w = remainder env fuel parser post w3.
Proof.
  intros Hacts E E1 E3.
  assert (Hne : xml_lpm_fuzzer.actions testcase <> [])
    by (rewrite Hacts; destruct pre; discriminate).
  destruct (fuzz_unfold env fuel testcase w Hne) as (parser' & w0' & E' & Hf).
  rewrite E in E'. inversion E'; subst parser' w0'.
  rewrite Hf. unfold after_create. rewrite Hacts.
  apply bind_inv_Ok in E1. destruct E1 as ([] & wi & Ei & Ep).
  rewrite (bind_Ok _ _ _ _ _ Ei).
  unfold bind at 1. rewrite replay_app.
  rewrite (bind_Ok _ _ _ _ _ Ep). simpl replay.
  rewrite (bind_Ok _ _ _ _ _ E3). reflexivity.
Qed.

(** C5.  The three ways the replay resets the parser, in the run of a test
    case, at any of its actions, seen in the calls the driver makes from
    the boundary before the action to the boundary behind it, where the run
    goes on with the actions that follow.  A Chunk is fed, and resumed while
    suspended; when the status of the feed is the error status the parser
    is reset, under the encoding name of the test case, and that is all: no
    handler is registered again; after any other status there is no call at
    all.  A LastChunk is fed and resumed likewise, and then, whatever the
    status, the parser is reset and the calls of [InitializeParser] follow,
    which register the whole set of handlers.  A Reset makes the reset and
    the calls of [InitializeParser], and no feed.  The other actions make
    no call. *)
Theorem reset_paths env fuel testcase pre action post w :
  xml_lpm_fuzzer.actions testcase = pre ++ action :: post ->
  exists parser w0,
    api env 0 (create_call testcase) (at_start testcase w) = Ok parser w0 /\
    forall w1,
      (InitializeParser (api env 0) parser ;;
       replay (api env 0) (feed_at env fuel 0) fuel parser pre) w0
        = Ok tt w1 ->
      let reset :=
        EvCall 0 (XML_ParserReset parser
                    (encoding_name (xml_lpm_fuzzer.encoding testcase))) in
      let registrations := map (EvCall 0) (InitializeParser_calls parser) in
      let fed bytes is_final k :=
        EvFeed 0 (XML_Parse parser (data bytes) (int_wrap (size bytes))
                            is_final)
        :: repeat (EvFeed 0 (XML_ResumeParser parser)) k in
      let goes_on made :=
        exists w3,
          fuzz env fuel testcase w = remainder env fuel parser post w3 /\
          calls_at 0 (trace w3) = calls_at 0 (trace w1) ++ made in
      match action with
      | xml_lpm_fuzzer.kChunk chunk =>
          forall st w2,
            Parse (feed_at env fuel 0) fuel parser (data chunk)
                  (int_wrap (size chunk)) 0 w1 = Ok st w2 ->
            exists k,
              goes_on (fed chunk 0 k ++
                       match st with
                       | XML_STATUS_ERROR => [reset]
                       | _ => []
                       end)
      | xml_lpm_fuzzer.kLastChunk last_chunk =>
          forall st w2,
            Parse (feed_at env fuel 0) fuel parser (data last_chunk)
                  (int_wrap (size last_chunk)) 1 w1 = Ok st w2 ->
            exists k, goes_on (fed last_chunk 1 k ++ reset :: registrations)
      | xml_lpm_fuzzer.kReset => goes_on (reset :: registrations)
      | _ => goes_on []
      end.
Proof.
  intros Hacts.
  destruct (api_steps env 0 (create_call testcase) (at_start testcase w))
    as (parser & w0 & E & _ & Hg0 & _).
  exists parser, w0. split; [exact E|]. intros w1 E1.
  assert (Hg : g_encoding w1 =
               encoding_name (xml_lpm_fuzzer.encoding testcase)).
  { pose proof (encoding_kept env fuel parser pre _ w0 Hg0) as H.
    rewrite E1 in H. exact H. }
  pose proof (fuzz_at_action env fuel testcase pre action post w parser w0 w1)
    as Hgo.
  intros reset registrations fed goes_on. subst reset registrations fed goes_on.
  destruct action as [chunk|last_chunk| |bytes|].
  - intros st w2 EP.
    destruct (Parse_view _ _ _ _ _ _ _ _ _ _ EP) as (k & Hv).
    apply view_eq in Hv. destruct Hv as (Hc2 & _).
    destruct (chunk_after_feed env fuel parser chunk w1 st w2 EP)
      as (w3 & E3 & Hc3).
    exists k, w3. split; [apply (Hgo w3 Hacts E E1 E3)|].
    rewrite Hc3, Hc2, Hg, <- app_assoc. reflexivity.
  - intros st w2 EP.
    destruct (Parse_view _ _ _ _ _ _ _ _ _ _ EP) as (k & Hv).
    apply view_eq in Hv. destruct Hv as (Hc2 & Hg2 & _).
    destruct (reset_and_initialize env parser w2) as (w3 & E3 & Hc3 & _).
    exists k, w3. split.
    + apply (Hgo w3 Hacts E E1). simpl. rewrite (bind_Ok _ _ _ _ _ EP).
      exact E3.
    + rewrite Hc3, Hc2, Hg2, Hg, <- app_assoc. reflexivity.
  - destruct (reset_and_initialize env parser w1) as (w3 & E3 & Hc3 & _).
    exists w3. split; [apply (Hgo w3 Hacts E E1 E3)|].
    rewrite Hc3, Hg. reflexivity.
  - eexists. split; [apply (Hgo _ Hacts E E1); reflexivity|].
    simpl. rewrite app_nil_r. reflexivity.
  - eexists. split; [apply (Hgo _ Hacts E E1); reflexivity|].
    simpl. rewrite app_nil_r. reflexivity.
Qed.

(** Against the library that calls the handlers that are registered, the
    first chunk of the test case is a parse error: the driver feeds it,
    resets the parser, and goes on with the second chunk, no handler
    registered. *)
Lemma reset_paths_witness :
  exists k w3,
    fuzz registering_env 3 comment_after_error_testcase fresh_world =
      remainder registering_env 3 1 [xml_lpm_fuzzer.kChunk "<!--c-->"] w3 /\
    calls_at 0 (trace w3) =
      (EvCall 0 (create_call comment_after_error_testcase)
       :: map (EvCall 0) (InitializeParser_calls 1)) ++
      (EvFeed 0 (XML_Parse 1 (data "<a></b>") 7 0)
       :: repeat (EvFeed 0 (XML_ResumeParser 1)) k) ++
      [EvCall 0 (XML_ParserReset 1 (Some "UTF-8"))].
Proof.
  destruct (reset_paths registering_env 3 comment_after_error_testcase []
              (xml_lpm_fuzzer.kChunk "<a></b>")
              [xml_lpm_fuzzer.kChunk "<!--c-->"] fresh_world eq_refl)
    as (parser & w0 & E & H).
  vm_compute in E. inversion E; subst parser w0. clear E.
  destruct ((InitializeParser (api registering_env 0) 1 ;;
             replay (api registering_env 0) (feed_at registering_env 3 0)
                    3 1 [])
              {| g_encoding := Some "UTF-8";
                 external_entity := None;
                 external_entity_size := 0;
                 allocator := {| allocation_count := 0;
                                 fail_allocations := [];
                                 heap := [] |};
                 trace :=
                   [EvCall 0 (XML_ParserCreate_MM (Some "UTF-8")
                                memory_handling_suite "|")] |})
    as [[] w1|r w1] eqn:E1; [|vm_compute in E1; discriminate].
  specialize (H w1 E1). cbv beta zeta iota in H.
  pose proof E1 as E1'. vm_compute in E1'. inversion E1'; subst w1.
  clear E1 E1'.
  match type of H with
  | forall st w2, ?parse = _ -> _ =>
      destruct parse as [st w2|r w2] eqn:EP;
        [|vm_compute in EP; discriminate]
  end.
  pose proof EP as EP'. vm_compute in EP'. inversion EP'; subst st w2.
  destruct (H _ _ eq_refl) as (k & w3 & Hf & Hc).
  exists k, w3. split; [exact Hf|exact Hc].
Defined.

Section Replaying.

Variable env : Environment.
Variable base : list event.

Lemma replaying_emit_other e :
  is_call_at 0 e = false -> preserves (replaying base) (emit e).
Proof.
  intros He w (mid & Hc & Hm). exists mid. split; [|exact Hm].
  simpl. rewrite calls_at_app; simpl. rewrite He, app_nil_r. exact Hc.
Qed.

Lemma replaying_emit_call e :
  is_call_at 0 e = true -> is_replay_call e = true ->
  preserves (replaying base) (emit e).
Proof.
  intros He Hr w (mid & Hc & Hm). exists (mid ++ [e]). split.
  - simpl. rewrite calls_at_app; simpl. rewrite He, Hc, app_assoc. reflexivity.
  - apply Forall_app; split; [exact Hm|]. constructor; [exact Hr|constructor].
Qed.

Lemma replaying_on_alloc r : preserves (replaying base) (on_alloc env r).
Proof.
  intros w (mid & Hc & Hm).
  destruct (on_alloc_Ok env r w) as (p & w' & E & Ht & _).
  rewrite E; simpl. exists mid. split; [|exact Hm].
  rewrite Ht, calls_at_app; simpl. rewrite app_nil_r. exact Hc.
Qed.

Lemma replaying_on_free p : preserves (replaying base) (on_free env p).
Proof.
  intros w (mid & Hc & Hm).
  destruct (on_free_Ok env p w) as (w' & E & Ht & _).
  rewrite E; simpl. exists mid. split; [|exact Hm].
  rewrite Ht, calls_at_app; simpl. rewrite app_nil_r. exact Hc.
Qed.

Lemma replaying_api c :
  made_by_replay c = true -> preserves (replaying base) (api env 0 c).
Proof.
  intros Hc. apply api_keeps.
  - apply replaying_on_alloc.
  - apply replaying_on_free.
  - apply replaying_emit_call; [reflexivity|exact Hc].
Qed.

Lemma replaying_feed fuel c :
  preserves (replaying base) (feed_at env fuel 0 c).
Proof.
  destruct fuel as [|fuel]; simpl; [apply preserves_stop|].
  apply preserves_bind; [apply replaying_emit_call; reflexivity|intros _].
  apply inside_feed_keeps with (d0 := 1%nat).
  - apply replaying_on_alloc.
  - apply replaying_on_free.
  - intros s; apply replaying_emit_other; reflexivity.
  - intros h; apply replaying_emit_other; reflexivity.
  - intros d c' Hd _. apply replaying_emit_other. simpl.
    apply Nat.eqb_neq. lia.
  - intros d c' Hd. apply replaying_emit_other. simpl.
    apply Nat.eqb_neq. lia.
  - lia.
Qed.

Lemma replaying_initialize_and_replay fuel parser actions :
  preserves (replaying base)
    (InitializeParser (api env 0) parser ;;
     replay (api env 0) (feed_at env fuel 0) fuel parser actions).
Proof.
  apply preserves_bind; [|intros _].
  - apply InitializeParser_keeps. intros c Hc; apply replaying_api, Hc.
  - apply replay_keeps.
    + intros c; apply replaying_feed.
    + intros c Hc; apply replaying_api, Hc.
    + intros v w H; exact H.
    + intros v w H; exact H.
Qed.

End Replaying.

(** The replay returns when each of its feeds does. *)
Lemma replay_returns env fuel parser actions :
  (forall p input input_len is_final w0,
      exists st w0',
        Parse (feed_at env fuel 0) fuel p input input_len is_final w0
          = Ok st w0') ->
  forall w, exists w',
    replay (api env 0) (feed_at env fuel 0) fuel parser actions w = Ok tt w'.
Proof.
  intros HP. induction actions as [|action rest IH]; intros w; simpl.
  - exists w; reflexivity.
  - assert (Ha : exists w1,
               replay_action (api env 0) (feed_at env fuel 0) fuel parser
                             action w = Ok tt w1).
    { destruct action as [chunk|last_chunk| |bytes|]; simpl.
      - destruct (HP parser (data chunk) (int_wrap (size chunk)) 0 w)
          as (st & w1 & E).
        destruct (chunk_after_feed env fuel parser chunk w st w1 E)
          as (w2 & E2 & _).
        exists w2. exact E2.
      - destruct (HP parser (data last_chunk) (int_wrap (size last_chunk)) 1 w)
          as (st & w1 & E).
        rewrite (bind_Ok _ _ _ _ _ E).
        destruct (reset_and_initialize env parser w1) as (w2 & E2 & _).
        exists w2. exact E2.
      - destruct (reset_and_initialize env parser w) as (w2 & E2 & _).
        exists w2. exact E2.
      - eexists. reflexivity.
      - eexists. reflexivity. }
    destruct Ha as (w1 & E1). rewrite (bind_Ok _ _ _ _ _ E1). apply IH.
Qed.

(** ** Claims on the content model verifier *)

Lemma assert_inv b w w' u : assert b w = Ok u w' -> b = true /\ w' = w.
Proof. destruct b; simpl; intros E; inversion E; auto. Qed.

Lemma TouchString_pass p w w' :
  TouchString p (-1) w = Ok tt w' -> readable p = true.
Proof.
  intros E. pose proof (TouchString_with_events p w) as H. unfold readable.
  destruct (touched p); [reflexivity|congruence].
Qed.

Lemma for_each_child_pass body P arr :
  Forall (fun c => forall w w', body c w = Ok tt w' -> P c = true) arr ->
  forall n w w',
    for_each_child body n arr w = Ok tt w' -> all_children P n arr = true.
Proof.
  intros H. induction H as [|c arr Hc _ IH]; intros [|n] w w' E; simpl in *;
    try reflexivity; try discriminate.
  apply bind_inv_Ok in E. destruct E as ([] & w1 & E1 & E2).
  rewrite (Hc _ _ E1), (IH _ _ _ E2). reflexivity.
Qed.

Lemma for_children_pass body P n ch w w' :
  match ch with
  | Some arr =>
      Forall (fun c => forall w w', body c w = Ok tt w' -> P c = true) arr
  | None => True
  end ->
  for_children body n ch w = Ok tt w' -> children_all P n ch = true.
Proof.
  destruct ch as [arr|]; simpl; intros H E.
  - apply (for_each_child_pass body P arr H n w w' E).
  - destruct n; [reflexivity|discriminate].
Qed.

Lemma touch_mixed_child_pass c w w' :
  touch_mixed_child c w = Ok tt w' -> is_name_leaf c = true.
Proof.
  unfold touch_mixed_child, is_name_leaf. intros E.
  apply bind_inv_Ok in E. destruct E as (u1 & w1 & E1 & E).
  apply bind_inv_Ok in E. destruct E as (u2 & w2 & E2 & _).
  apply assert_inv in E1. apply assert_inv in E2.
  destruct E1 as [-> _]. destruct E2 as [-> _]. reflexivity.
Qed.

(** What the verifier lets through has the checked shape. *)
Lemma TouchChildNodes_pass content :
  forall w w', TouchChildNodes content w = Ok tt w' ->
               checked_shape content = true.
Proof.
  induction content as [t q n k ch IH] using XML_Content_induction.
  intros w w' E. destruct t; simpl in E |- *.
  - apply bind_inv_Ok in E. destruct E as (u1 & w1 & E1 & E).
    apply bind_inv_Ok in E. destruct E as (u2 & w2 & E2 & E).
    apply bind_inv_Ok in E. destruct E as (u3 & w3 & E3 & E4).
    apply assert_inv in E1, E2, E3, E4.
    destruct E1 as [H1 _], E2 as [-> _], E3 as [-> _], E4 as [-> _].
    rewrite H1. reflexivity.
  - apply bind_inv_Ok in E. destruct E as (u1 & w1 & E1 & E).
    apply bind_inv_Ok in E. destruct E as (u2 & w2 & E2 & E).
    apply bind_inv_Ok in E. destruct E as (u3 & w3 & E3 & E4).
    apply assert_inv in E1, E2, E3, E4.
    destruct E1 as [H1 _], E2 as [-> _], E3 as [-> _], E4 as [-> _].
    rewrite H1. reflexivity.
  - apply bind_inv_Ok in E. destruct E as (u1 & w1 & E1 & E).
    apply bind_inv_Ok in E. destruct E as (u2 & w2 & E2 & E).
    destruct u2. apply (for_children_pass touch_mixed_child _ k ch w2 w'); auto.
    destruct ch as [arr|]; [|exact I].
    apply Forall_forall. intros c _ w0 w0'. apply touch_mixed_child_pass.
  - apply bind_inv_Ok in E. destruct E as (u1 & w1 & E1 & E).
    apply assert_inv in E1. destruct E1 as [-> _].
    rewrite (TouchString_pass _ _ _ E). reflexivity.
  - apply bind_inv_Ok in E. destruct E as (u1 & w1 & E1 & E).
    apply (for_children_pass TouchChildNodes _ k ch w1 w'); auto.
  - apply bind_inv_Ok in E. destruct E as (u1 & w1 & E1 & E).
    apply (for_children_pass TouchChildNodes _ k ch w1 w'); auto.
  - discriminate.
Qed.

Lemma never_cut_bind {A B} (m : M A) (f : A -> M B) :
  never_cut m -> (forall a, never_cut (f a)) -> never_cut (x <- m ;; f x).
Proof.
  intros Hm Hf w r w' E. unfold bind in E.
  destruct (m w) as [a w1|r1 w1] eqn:E1.
  - apply (Hf a w1 r w' E).
  - inversion E; subst. apply (Hm w r w' E1).
Qed.

Lemma never_cut_assert b : never_cut (assert b).
Proof. destruct b; intros w r w' E; inversion E; discriminate. Qed.

Lemma never_cut_TouchString p len : never_cut (TouchString p len).
Proof.
  unfold TouchString. intros w r w' E. destruct p as [obj|]; [|discriminate].
  destruct (len =? -1).
  - destruct (until_nul obj); inversion E; discriminate.
  - destruct (_ <=? _)%nat; inversion E; discriminate.
Qed.

Lemma never_cut_for_each_child body n arr :
  Forall (fun c => never_cut (body c)) arr ->
  never_cut (for_each_child body n arr).
Proof.
  intros H. revert n. induction H as [|c arr Hc _ IH]; intros [|n]; simpl;
    try (intros w r w' E; inversion E; discriminate).
  apply never_cut_bind; [exact Hc|intros _; apply IH].
Qed.

Lemma never_cut_for_children body n ch :
  match ch with
  | Some arr => Forall (fun c => never_cut (body c)) arr
  | None => True
  end ->
  never_cut (for_children body n ch).
Proof.
  destruct ch as [arr|]; simpl; intros H.
  - apply never_cut_for_each_child, H.
  - destruct n; intros w r w' E; inversion E; discriminate.
Qed.

Lemma never_cut_stop {A} r : r <> OutOfFuel -> never_cut (@stop A r).
Proof. intros Hr w r' w' E. inversion E; subst. exact Hr. Qed.

Lemma never_cut_touch_mixed_child c : never_cut (touch_mixed_child c).
Proof.
  unfold touch_mixed_child.
  repeat (apply never_cut_bind; [apply never_cut_assert|intros _]).
  apply never_cut_TouchString.
Qed.

Lemma never_cut_TouchChildNodes content : never_cut (TouchChildNodes content).
Proof.
  induction content as [t q n k ch IH] using XML_Content_induction.
  destruct t; simpl TouchChildNodes.
  - repeat (apply never_cut_bind; [apply never_cut_assert|intros _]).
    apply never_cut_assert.
  - repeat (apply never_cut_bind; [apply never_cut_assert|intros _]).
    apply never_cut_assert.
  - repeat (apply never_cut_bind; [apply never_cut_assert|intros _]).
    apply never_cut_for_children. destruct ch as [arr|]; [|exact I].
    apply Forall_forall. intros c _. apply never_cut_touch_mixed_child.
  - apply never_cut_bind; [apply never_cut_assert|intros _].
    apply never_cut_TouchString.
  - apply never_cut_bind; [apply never_cut_assert|intros _].
    apply never_cut_for_children, IH.
  - apply never_cut_bind; [apply never_cut_assert|intros _].
    apply never_cut_for_children, IH.
  - apply (never_cut_assert false).
Qed.

Lemma only_read_emit tr0 s : preserves (only_read tr0) (emit (EvTouch s)).
Proof.
  intros w (reads & Ht & Hr). exists (reads ++ [EvTouch s]). split.
  - simpl. rewrite Ht, app_assoc. reflexivity.
  - apply Forall_app; split; [exact Hr|]. constructor; [reflexivity|constructor].
Qed.

Lemma only_read_start w : only_read (trace w) w.
Proof. exists []. rewrite app_nil_r. split; [reflexivity|constructor]. Qed.

Lemma all_children_mono (P Q : XML_Content -> bool) arr :
  Forall (fun c => P c = true -> Q c = true) arr ->
  forall n, all_children P n arr = true -> all_children Q n arr = true.
Proof.
  intros H. induction H as [|c arr Hc _ IH]; intros [|n]; simpl; auto.
  intros E. apply andb_prop in E. destruct E as [E1 E2].
  rewrite (Hc E1), (IH _ E2). reflexivity.
Qed.

(** The checked shape asks no more than the claimed one. *)
Lemma claimed_is_checked content :
  claimed_shape content = true -> checked_shape content = true.
Proof.
  induction content as [t q n k ch IH] using XML_Content_induction.
  destruct t; simpl; auto.
  - intros E. apply andb_prop in E. destruct E as [E1 E2].
    apply andb_prop in E1. destruct E1 as [_ E1]. rewrite E1, E2. reflexivity.
  - destruct ch as [arr|]; simpl; auto. apply all_children_mono, IH.
  - destruct ch as [arr|]; simpl; auto. apply all_children_mono, IH.
Qed.

(** The handler of element declarations, case by case. *)
Lemma ElementDeclHandler_cases env d userData name model w :
  let o := ElementDeclHandler (api env d) userData name model w in
  match touched name with
  | None => o = Stop OutOfBounds (with_events w (faulted name))
  | Some reads =>
      match TouchChildNodes model (with_events w reads) with
      | Stop r w2 =>
          o = Stop r w2 /\ r <> OutOfFuel /\ only_read (trace w) w2
      | Ok _ w2 =>
          only_read (trace w) w2 /\ checked_shape model = true /\
          exists w' hooks,
            o = Ok tt w' /\
            trace w' =
              trace w2 ++ EvCall d (XML_FreeContentModel userData model)
                          :: hooks /\
            Forall (fun e => is_hook_event e = true) hooks
      end
  end.
Proof.
  intros o. subst o. unfold ElementDeclHandler.
  pose proof (TouchString_with_events name w) as Ht.
  destruct (touched name) as [reads|] eqn:En.
  2:{ rewrite (bind_Stop _ _ _ _ _ Ht). reflexivity. }
  rewrite (bind_Ok _ _ _ _ _ Ht).
  assert (H1 : only_read (trace w) (with_events w reads)).
  { exists reads. split; [reflexivity|apply (touched_is_touch _ _ En)]. }
  apply (TouchChildNodes_keeps _ (only_read_emit (trace w)) model) in H1.
  destruct (TouchChildNodes model (with_events w reads)) as [[] w2|r w2] eqn:Ev;
    simpl in H1.
  - split; [exact H1|]. split; [apply (TouchChildNodes_pass _ _ _ Ev)|].
    destruct (api_hooks env d (XML_FreeContentModel userData model) w2)
      as ([] & w' & hooks & E & Htr & Hh).
    exists w', hooks. rewrite (bind_Ok _ _ _ _ _ Ev). auto.
  - rewrite (bind_Stop _ _ _ _ _ Ev). split; [reflexivity|].
    split; [apply (never_cut_TouchChildNodes _ _ _ _ Ev)|exact H1].
Qed.

(** C6, amended.  The verifier lets a content model through only if it has
    the checked shape: EMPTY and ANY nodes without name, children and
    quantifier; MIXED nodes with NAME children that have no children; NAME
    nodes without children, whose name is null or read through; CHOICE and
    SEQ nodes with children of that shape in turn; no node of another type,
    on which the assertion fails at once.  On a model that has not the shape
    the handler stops the run, by a failed assertion or a read out of
    bounds, without releasing the model; when it returns, it has called
    [XML_FreeContentModel] on the model once, after its reads, and made no
    other call; and it does return when the reads go through. *)
Theorem content_model_verified_and_released env d userData name model w :
  let o := ElementDeclHandler (api env d) userData name model w in
  (forall w0 w0',
      TouchChildNodes model w0 = Ok tt w0' -> checked_shape model = true) /\
  (forall tag q n k ch w0,
      TouchChildNodes (Build_XML_Content (XML_CTYPE_other tag) q n k ch) w0
      = Stop AssertionFailed w0) /\
  (checked_shape model = false ->
     exists r w',
       o = Stop r w' /\ r <> OutOfFuel /\ calls (trace w') = calls (trace w)) /\
  (forall w',
      o = Ok tt w' ->
      checked_shape model = true /\
      exists reads hooks,
        trace w' =
          trace w ++ reads ++
          EvCall d (XML_FreeContentModel userData model) :: hooks /\
        Forall (fun e => is_touch e = true) reads /\
        Forall (fun e => is_hook_event e = true) hooks) /\
  (forall r w',
      o = Stop r w' ->
      r <> OutOfFuel /\ calls (trace w') = calls (trace w)) /\
  (forall reads w2,
      touched name = Some reads ->
      TouchChildNodes model (with_events w reads) = Ok tt w2 ->
      exists w', o = Ok tt w').
Proof.
  intros o. pose proof (ElementDeclHandler_cases env d userData name model w)
    as Hc. fold o in Hc.
  assert (Hstop : forall r w', o = Stop r w' ->
                    r <> OutOfFuel /\ calls (trace w') = calls (trace w)).
  { intros r w' E. destruct (touched name) as [reads|].
    - destruct (TouchChildNodes model (with_events w reads)) as [u w2|r2 w2].
      + destruct Hc as (_ & _ & w4 & hooks & E4 & _). congruence.
      + destruct Hc as (E2 & Hr & (rd & Ht & Hrd)).
        rewrite E2 in E; inversion E; subst. split; [exact Hr|].
        rewrite Ht. apply calls_of_touches, Hrd.
    - rewrite Hc in E; inversion E; subst. split; [discriminate|].
      apply calls_of_touches, faulted_is_touch. }
  assert (Hok : forall w', o = Ok tt w' -> checked_shape model = true).
  { intros w' E. destruct (touched name) as [reads|]; [|congruence].
    destruct (TouchChildNodes model (with_events w reads)) as [u w2|r2 w2].
    - destruct Hc as (_ & Hs & _). exact Hs.
    - destruct Hc as (E2 & _). congruence. }
  split; [exact (TouchChildNodes_pass model)|].
  split; [reflexivity|]. split; [|split; [|split; [exact Hstop|]]].
  - intros Hshape. destruct o as [[] w'|r w'] eqn:Eo.
    + rewrite (Hok w' eq_refl) in Hshape. discriminate.
    + exists r, w'. split; [reflexivity|apply (Hstop r w' eq_refl)].
  - intros w' E. split; [apply (Hok w' E)|].
    destruct (touched name) as [reads|]; [|congruence].
    destruct (TouchChildNodes model (with_events w reads)) as [u w2|r2 w2].
    + destruct Hc as ((rd & Ht & Hrd) & _ & w4 & hooks & E4 & Ht4 & Hh).
      rewrite E4 in E; inversion E; subst w4.
      exists rd, hooks. rewrite Ht4, Ht, <- app_assoc. auto.
    + destruct Hc as (E2 & _). congruence.
  - intros reads w2 Hn Hv. rewrite Hn, Hv in Hc.
    destruct Hc as (_ & _ & w' & hooks & E & _). exists w'. exact E.
Qed.

(** The model of a sequence of two names is read and released. *)
Lemma content_model_verified_and_released_witness :
  checked_shape sample_model = true /\
  exists w',
    ElementDeclHandler (api comment_env 1) 1 (data "doc") sample_model
                       sample_world = Ok tt w' /\
    trace w' =
      [EvTouch "doc"; EvTouch "a"; EvTouch "b";
       EvCall 1 (XML_FreeContentModel 1 sample_model)].
Proof.
  destruct (content_model_verified_and_released comment_env 1 1 (data "doc")
              sample_model sample_world) as (_ & _ & _ & H4 & _ & H6).
  destruct (H6 _ _ eq_refl eq_refl) as (w' & E).
  split; [apply (H4 w' E)|]. exists w'. split; [exact E|].
  vm_compute in E. inversion E. reflexivity.
Defined.

(** C6, as it is worded, fails: a NAME node whose name is null is let
    through, though it has no name. *)
Lemma nameless_node_passes :
  TouchChildNodes nameless_node sample_world = Ok tt sample_world /\
  claimed_shape nameless_node = false.
Proof. split; reflexivity. Qed.

(** * Further properties of the harness *)

(** ** Reading strings *)

Lemma until_nul_spec obj units :
  until_nul obj = Some units <->
  no_nul units /\ exists rest, obj = String.append units (String nul rest).
Proof.
  unfold no_nul. split.
  - revert units. induction obj as [|c obj IH]; intros units E; simpl in E.
    + discriminate.
    + destruct (Ascii.eqb c nul) eqn:Ec.
      * inversion E; subst. apply Ascii.eqb_eq in Ec; subst c.
        split; [intros []|]. exists obj. reflexivity.
      * destruct (until_nul obj) as [u|]; [|discriminate].
        inversion E; subst. destruct (IH u eq_refl) as (Hn & rest & Hr).
        split.
        -- simpl. intros [H|H]; [|exact (Hn H)].
           subst c. rewrite Ascii.eqb_refl in Ec. discriminate.
        -- exists rest. simpl. rewrite <- Hr. reflexivity.
  - intros (Hn & rest & Hr). subst obj. induction units as [|c units IH]; simpl.
    + reflexivity.
    + destruct (Ascii.eqb c nul) eqn:Ec.
      * apply Ascii.eqb_eq in Ec. exfalso. apply Hn. simpl. auto.
      * rewrite IH; [reflexivity|]. intros H. apply Hn. simpl. auto.
Qed.

Lemma until_nul_none obj : until_nul obj = None <-> no_nul obj.
Proof.
  unfold no_nul. induction obj as [|c obj IH]; simpl.
  - split; [intros _ []|reflexivity].
  - destruct (Ascii.eqb c nul) eqn:Ec.
    + apply Ascii.eqb_eq in Ec. split; [discriminate|]. intros H.
      exfalso. apply H. auto.
    + destruct (until_nul obj) as [u|]; simpl.
      * split; [discriminate|]. intros H. exfalso.
        assert (Hn : ~ In nul (list_ascii_of_string obj))
          by (intros H1; apply H; auto).
        apply IH in Hn. discriminate.
      * split; [|reflexivity]. intros _ [H|H].
        -- subst c. rewrite Ascii.eqb_refl in Ec. discriminate.
        -- destruct IH as [IH _]. exact (IH eq_refl H).
Qed.

Lemma TouchString_until_nul obj w :
  match until_nul obj with
  | Some units =>
      TouchString (Some obj) (-1) w = Ok tt (with_events w [EvTouch units])
  | None =>
      TouchString (Some obj) (-1) w =
      Stop OutOfBounds (with_events w [EvTouch obj])
  end.
Proof. unfold TouchString. simpl. destruct (until_nul obj); reflexivity. Qed.

(** X1.  Reading a string to its terminator: [TouchString(ptr)] on an object
    returns exactly when the object holds a NUL, and then it has read the
    units before the first NUL and nothing after it.  On an object without a
    NUL, and only then, the run stops: the loop has read every unit of the
    object, which are recorded, and the read after the last one is out of
    bounds. *)
Theorem TouchString_reads_to_first_nul obj w :
  (forall w',
      TouchString (Some obj) (-1) w = Ok tt w' <->
      exists units rest,
        no_nul units /\
        obj = String.append units (String nul rest) /\
        w' = with_events w [EvTouch units]) /\
  (forall r w',
      TouchString (Some obj) (-1) w = Stop r w' <->
      no_nul obj /\ r = OutOfBounds /\ w' = with_events w [EvTouch obj]).
Proof.
  pose proof (TouchString_until_nul obj w) as H.
  split.
  - intros w'. split.
    + intros E. destruct (until_nul obj) as [units|] eqn:Eu.
      * apply until_nul_spec in Eu. destruct Eu as (Hn & rest & Hr).
        exists units, rest. rewrite H in E. inversion E. auto.
      * rewrite H in E. discriminate.
    + intros (units & rest & Hn & Hr & Hw).
      assert (Eu : until_nul obj = Some units)
        by (apply until_nul_spec; eauto).
      rewrite Eu in H. rewrite H, Hw. reflexivity.
  - intros r w'. split.
    + intros E. destruct (until_nul obj) eqn:Eu;
        [rewrite H in E; discriminate|].
      apply until_nul_none in Eu. rewrite H in E. inversion E. auto.
    + intros (Hn & Hr & Hw). apply until_nul_none in Hn.
      rewrite Hn in H. rewrite H, Hr, Hw. reflexivity.
Qed.

(** "ab", a NUL and "c" are read up to the NUL; "ab" alone is read whole
    before the fault. *)
Lemma TouchString_reads_to_first_nul_witness :
  TouchString (Some (String.append "ab" (String nul "c"))) (-1) sample_world
  = Ok tt (with_events sample_world [EvTouch "ab"]) /\
  TouchString (Some "ab"%string) (-1) sample_world
  = Stop OutOfBounds (with_events sample_world [EvTouch "ab"]).
Proof.
  split.
  - apply (proj1 (TouchString_reads_to_first_nul
                    (String.append "ab" (String nul "c")) sample_world)).
    exists "ab"%string, "c"%string. split; [|split; reflexivity].
    intros [H|[H|[]]]; discriminate.
  - apply (proj2 (TouchString_reads_to_first_nul "ab" sample_world)).
    split; [|split; reflexivity].
    intros [H|[H|[]]]; discriminate.
Defined.

Lemma substring_prefix s : forall n,
    (n <= String.length s)%nat ->
    String.length (substring 0 n s) = n /\
    exists rest, s = String.append (substring 0 n s) rest.
Proof.
  induction s as [|c s IH]; intros [|n] Hn; simpl in *.
  - split; [reflexivity|exists ""; reflexivity].
  - lia.
  - split; [reflexivity|]. exists (String c s). reflexivity.
  - destruct (IH n) as (Hl & rest & Hr); [lia|].
    split; [rewrite Hl; reflexivity|]. exists rest. rewrite <- Hr. reflexivity.
Qed.

Lemma substring_of_append units : forall rest,
    substring 0 (String.length units) (String.append units rest) = units.
Proof.
  induction units as [|c units IH]; intros rest; simpl.
  - destruct rest; reflexivity.
  - rewrite IH. reflexivity.
Qed.

Lemma length_append u r :
  String.length (String.append u r) = (String.length u + String.length r)%nat.
Proof. induction u as [|c u IH]; simpl; [reflexivity|rewrite IH; reflexivity]. Qed.

(** X2.  Reading a buffer of a given length: with a length other than -1,
    [TouchString(ptr, len)] on an object returns exactly when the object has
    at least [len] units, and then it has read the first [len] of them,
    NULs or not (none for a negative length).  On a shorter object, and only
    then, the run stops: the loop has read every unit of the object, which
    are recorded, and the read after the last one is out of bounds. *)
Theorem TouchString_reads_len_units obj len w :
  len <> -1 ->
  (forall w',
      TouchString (Some obj) len w = Ok tt w' <->
      exists units rest,
        obj = String.append units rest /\
        String.length units = Z.to_nat len /\
        w' = with_events w [EvTouch units]) /\
  (forall r w',
      TouchString (Some obj) len w = Stop r w' <->
      (String.length obj < Z.to_nat len)%nat /\
      r = OutOfBounds /\ w' = with_events w [EvTouch obj]).
Proof.
  intros Hlen. unfold TouchString.
  destruct (len =? -1) eqn:El; [apply Z.eqb_eq in El; contradiction|].
  destruct (Nat.leb_spec (Z.to_nat len) (String.length obj)) as [Hle|Hlt].
  - destruct (substring_prefix obj _ Hle) as (Hl & rest & Hr).
    split.
    + intros w'. split.
      * intros E. inversion E. exists (substring 0 (Z.to_nat len) obj), rest.
        auto.
      * intros (units & rest' & Ho & Hu & Hw). subst w' obj.
        rewrite <- Hu, substring_of_append. reflexivity.
    + intros r w'. split; [discriminate|]. intros (Hlt & _). lia.
  - split.
    + intros w'. split; [discriminate|].
      intros (units & rest & Ho & Hu & _). subst obj.
      rewrite length_append in Hlt. lia.
    + intros r w'. split.
      * intros E. inversion E. auto.
      * intros (_ & Hr & Hw). rewrite Hr, Hw. reflexivity.
Qed.

(** The bytes of a string with an embedded NUL: read to the terminator they
    stop at it, read by length they are read whole. *)
Lemma TouchString_reads_len_units_witness :
  TouchString (data ("ab" ++ String nul "cd")%string) 5 sample_world
  = Ok tt (with_events sample_world
             [EvTouch ("ab" ++ String nul "cd")%string]).
Proof.
  apply (TouchString_reads_len_units
           (String.append ("ab" ++ String nul "cd")%string (String nul ""))
           5 sample_world).
  - discriminate.
  - exists ("ab" ++ String nul "cd")%string, (String nul "").
    split; [reflexivity|]. split; reflexivity.
Defined.

(** ** Handlers that only read *)

Lemma reads_only_ret {A} (v : A) : reads_only v (ret v).
Proof.
  intros w. exists []. split; [constructor|]. left.
  rewrite with_events_nil. reflexivity.
Qed.

Lemma reads_only_bind {A B} (u : A) (v : B) (m : M A) (f : A -> M B) :
  reads_only u m -> reads_only v (f u) -> reads_only v (x <- m ;; f x).
Proof.
  intros Hm Hf w. destruct (Hm w) as (r1 & H1 & [E1|E1]).
  - destruct (Hf (with_events w r1)) as (r2 & H2 & E2).
    exists (r1 ++ r2). split; [apply Forall_app; auto|].
    rewrite (bind_Ok _ _ _ _ _ E1), <- with_events_app. exact E2.
  - exists r1. split; [exact H1|]. right. apply bind_Stop, E1.
Qed.

Lemma reads_only_TouchString p len : reads_only tt (TouchString p len).
Proof.
  intros w. unfold TouchString. destruct p as [obj|].
  - destruct (len =? -1).
    + destruct (until_nul obj) as [units|].
      * exists [EvTouch units]. split; [repeat constructor|]. left. reflexivity.
      * exists [EvTouch obj]. split; [repeat constructor|]. right. reflexivity.
    + destruct (_ <=? _)%nat.
      * eexists [EvTouch _]. split; [repeat constructor|]. left. reflexivity.
      * exists [EvTouch obj]. split; [repeat constructor|]. right. reflexivity.
  - apply reads_only_ret.
Qed.

Lemma reads_only_touch_atts atts : reads_only tt (touch_atts atts).
Proof.
  induction atts as [|[obj|] atts IH]; cbn [touch_atts].
  - intros w. exists []. split; [constructor|]. right.
    rewrite with_events_nil. reflexivity.
  - apply (reads_only_bind tt tt); [apply reads_only_TouchString|exact IH].
  - apply reads_only_ret.
Qed.

Ltac reads_only :=
  repeat first
    [ apply reads_only_ret
    | apply reads_only_TouchString
    | apply reads_only_touch_atts
    | apply (reads_only_bind tt) ].

(** X3.  The handlers other than the element declaration, comment and
    external entity reference handlers only read their string arguments:
    whatever the library is, they make no call into it and leave the
    globals and the allocator alone; they return nothing, but for the
    not-standalone handler, which always approves (OK), and the unknown
    encoding handler, which always rejects (ERROR); and they stop the run
    only by a read out of bounds. *)
Theorem quiet_handlers_only_read
  (call : forall c : api_call, M (ret_type c))
  (feed : feed_call -> M XML_Status) (patience : nat) (h : handler_call)
  (w : World) :
  calls_library h = false ->
  exists reads,
    Forall (fun e => is_touch e = true) reads /\
    (dispatch call feed patience h w
       = Ok (quiet_result h) (with_events w reads) \/
     dispatch call feed patience h w
       = Stop OutOfBounds (with_events w reads)).
Proof.
  intros Hq. revert w. change (reads_only (quiet_result h)
                                 (dispatch call feed patience h)).
  destruct h; try discriminate; unfold dispatch, void, int, quiet_result;
    unfold AttlistDeclHandler, XmlDeclHandler, StartElementHandler,
      EndElementHandler, CharacterDataHandler, ProcessingInstructionHandler,
      StartCdataSectionHandler, EndCdataSectionHandler, DefaultHandler,
      StartDoctypeDeclHandler, EndDoctypeDeclHandler, EntityDeclHandler,
      UnparsedEntityDeclHandler, NotationDeclHandler,
      StartNamespaceDeclHandler, EndNamespaceDeclHandler,
      NotStandaloneHandler, SkippedEntityHandler, UnknownEncodingHandler;
    try solve [reads_only];
    try solve [apply (reads_only_bind XML_STATUS_OK); reads_only];
    apply (reads_only_bind XML_STATUS_ERROR); reads_only.
Qed.

(** The handler of character data, given five units, reads them. *)
Lemma quiet_handlers_only_read_witness :
  exists reads,
    Forall (fun e => is_touch e = true) reads /\
    (handle sample_env 3 1 (CharacterData 1 (data "hello") 5) sample_world
       = Ok None (with_events sample_world reads) \/
     handle sample_env 3 1 (CharacterData 1 (data "hello") 5) sample_world
       = Stop OutOfBounds (with_events sample_world reads)).
Proof.
  apply (quiet_handlers_only_read (api sample_env 1) (feed_at sample_env 3 1) 3
           (CharacterData 1 (data "hello") 5) sample_world).
  reflexivity.
Defined.

(** ** The attributes of a start tag *)

Lemma touch_atts_to_terminator pre : forall post reads w,
    touched_all pre = Some reads ->
    touch_atts (map Some pre ++ None :: post) w
    = Ok tt (with_events w reads).
Proof.
  induction pre as [|obj pre IH]; intros post reads w E;
    cbn [touch_atts map app touched_all] in *.
  - inversion E. rewrite with_events_nil. reflexivity.
  - pose proof (TouchString_until_nul obj w) as Ht.
    destruct (until_nul obj) as [units|]; [|discriminate].
    destruct (touched_all pre) as [ra|]; [|discriminate].
    inversion E; subst reads.
    rewrite (bind_Ok _ _ _ _ _ Ht), (IH post ra _ eq_refl), with_events_app.
    reflexivity.
Qed.

Lemma touch_atts_without_terminator atts : forall w,
    (forall p, In p atts -> p <> None) ->
    exists w', touch_atts atts w = Stop OutOfBounds w'.
Proof.
  induction atts as [|[obj|] atts IH]; intros w H; cbn [touch_atts].
  - exists w. reflexivity.
  - pose proof (TouchString_until_nul obj w) as Ht.
    destruct (until_nul obj) as [units|].
    + rewrite (bind_Ok _ _ _ _ _ Ht). apply IH. intros p Hp. apply H. simpl; auto.
    + eexists. apply bind_Stop, Ht.
  - exfalso. apply (H None); simpl; auto.
Qed.

(** X4.  The start tag handler reads the tag name and then the attribute
    strings up to the null entry that ends the array: the cells after that
    entry are not read, whatever they hold; and an array with no null
    entry makes the read run out of bounds. *)
Theorem StartElementHandler_reads_to_terminator userData name w :
  (forall pre post rn ra,
      touched name = Some rn ->
      touched_all pre = Some ra ->
      StartElementHandler userData name (map Some pre ++ None :: post) w
      = Ok tt (with_events w (rn ++ ra))) /\
  (forall atts,
      (forall p, In p atts -> p <> None) ->
      exists w', StartElementHandler userData name atts w
                 = Stop OutOfBounds w').
Proof.
  unfold StartElementHandler.
  pose proof (TouchString_with_events name w) as Hn.
  split.
  - intros pre post rn ra En Ea. rewrite En in Hn.
    rewrite (bind_Ok _ _ _ _ _ Hn), (touch_atts_to_terminator pre post ra _ Ea).
    rewrite with_events_app. reflexivity.
  - intros atts Hatts. destruct (touched name) as [rn|].
    + rewrite (bind_Ok _ _ _ _ _ Hn). apply touch_atts_without_terminator, Hatts.
    + eexists. apply bind_Stop, Hn.
Qed.

(** A tag with one attribute: name and value are read, the cell after the
    terminator is not. *)
Lemma StartElementHandler_reads_to_terminator_witness :
  StartElementHandler 1 (data "a")
    [data "id"; data "7"; None; Some "no terminator here"] sample_world
  = Ok tt (with_events sample_world
             [EvTouch "a"; EvTouch "id"; EvTouch "7"]).
Proof.
  destruct (StartElementHandler_reads_to_terminator 1 (data "a") sample_world)
    as [H _].
  apply (H [String.append "id" (String nul ""); String.append "7" (String nul "")]
           [Some "no terminator here"] [EvTouch "a"]
           [EvTouch "id"; EvTouch "7"]); reflexivity.
Defined.

(** ** The verifier as a test *)

Lemma decided_assert b b' evs m :
  (b = true -> decided b' evs m) ->
  decided (b && b') evs (assert b ;; m).
Proof.
  intros H w. destruct b; simpl.
  - apply (H eq_refl w).
  - exists AssertionFailed, w. split; [reflexivity|discriminate].
Qed.

Lemma decided_last_assert b : decided b [] (assert b).
Proof.
  intros w. destruct b; simpl.
  - rewrite with_events_nil. reflexivity.
  - exists AssertionFailed, w. split; [reflexivity|discriminate].
Qed.

Lemma decided_TouchString p : decided (readable p) (reads p) (TouchString p (-1)).
Proof.
  intros w. pose proof (TouchString_with_events p w) as H.
  unfold readable, reads. destruct (touched p) as [evs|].
  - exact H.
  - exists OutOfBounds, (with_events w (faulted p)).
    split; [exact H|discriminate].
Qed.

Lemma decided_bind b1 b2 e1 e2 m1 m2 :
  decided b1 e1 m1 -> decided b2 e2 m2 ->
  decided (b1 && b2) (e1 ++ e2) (m1 ;; m2).
Proof.
  intros H1 H2 w. specialize (H1 w). destruct b1; simpl.
  - rewrite (bind_Ok _ _ _ _ _ H1). specialize (H2 (with_events w e1)).
    destruct b2.
    + rewrite H2, with_events_app. reflexivity.
    + exact H2.
  - destruct H1 as (r & w' & E & Hr). exists r, w'.
    split; [apply bind_Stop, E|exact Hr].
Qed.

Lemma decided_for_each_child body P f arr :
  Forall (fun c => decided (P c) (f c) (body c)) arr ->
  forall n,
    decided (all_children P n arr) (reads_children f n arr)
            (for_each_child body n arr).
Proof.
  intros H. induction H as [|c arr Hc _ IH]; intros [|n];
    cbn [all_children reads_children for_each_child].
  - intros w. rewrite with_events_nil. reflexivity.
  - intros w. exists OutOfBounds, w. split; [reflexivity|discriminate].
  - intros w. rewrite with_events_nil. reflexivity.
  - apply decided_bind; [exact Hc|apply IH].
Qed.

Lemma decided_for_children body P f n ch :
  match ch with
  | Some arr => Forall (fun c => decided (P c) (f c) (body c)) arr
  | None => True
  end ->
  decided (children_all P n ch) (children_reads f n ch)
          (for_children body n ch).
Proof.
  destruct ch as [arr|]; simpl; intros H.
  - apply decided_for_each_child, H.
  - destruct n; intros w.
    + rewrite with_events_nil. reflexivity.
    + exists OutOfBounds, w. split; [reflexivity|discriminate].
Qed.

Lemma decided_touch_mixed_child c :
  decided (accepts_mixed_child c) (mixed_child_reads c) (touch_mixed_child c).
Proof.
  unfold accepts_mixed_child, is_name_leaf, mixed_child_reads,
    touch_mixed_child.
  rewrite <- andb_assoc.
  apply decided_assert; intros _. apply decided_assert; intros _.
  apply decided_TouchString.
Qed.

Lemma decided_TouchChildNodes content :
  decided (accepts content) (names_read content) (TouchChildNodes content).
Proof.
  induction content as [t q n k ch IH] using XML_Content_induction.
  destruct t; cbn [accepts names_read TouchChildNodes].
  - rewrite <- !andb_assoc.
    repeat (apply decided_assert; intros _). apply decided_last_assert.
  - rewrite <- !andb_assoc.
    repeat (apply decided_assert; intros _). apply decided_last_assert.
  - rewrite <- !andb_assoc.
    repeat (apply decided_assert; intros _).
    apply decided_for_children. destruct ch as [arr|]; [|exact I].
    apply Forall_forall. intros c _. apply decided_touch_mixed_child.
  - apply decided_assert; intros _. apply decided_TouchString.
  - apply decided_assert; intros _. apply decided_for_children, IH.
  - apply decided_assert; intros _. apply decided_for_children, IH.
  - apply (decided_last_assert false).
Qed.

(** X5.  What the verifier accepts, exactly.  [TouchChildNodes] lets a
    content model through exactly when the test [accepts] holds of it:
    EMPTY and ANY nodes with quantifier NONE, null name, no child announced
    and a null array; MIXED nodes with quantifier NONE or REP, null name,
    and announced children that are there, are NAME nodes announcing no
    child, with a name that is null or read through; NAME nodes announcing
    no child with such a name; CHOICE and SEQ nodes with null name and
    announced children that are there and accepted in turn.  Then it has
    recorded the names of the model in order and changed nothing else.  On
    any other model it stops the run, by a failed assertion or a read out of
    bounds, whatever the world. *)
Theorem TouchChildNodes_accepts content w :
  (accepts content = true ->
   TouchChildNodes content w = Ok tt (with_events w (names_read content))) /\
  (accepts content = false ->
   exists r w',
     TouchChildNodes content w = Stop r w' /\
     (r = AssertionFailed \/ r = OutOfBounds)) /\
  (forall w', TouchChildNodes content w = Ok tt w' -> accepts content = true).
Proof.
  pose proof (decided_TouchChildNodes content w) as H.
  destruct (accepts content).
  - split; [intros _; exact H|]. split; [discriminate|reflexivity].
  - destruct H as (r & w' & E & Hr). split; [discriminate|]. split.
    + intros _. exists r, w'. split; [exact E|]. destruct r; auto. congruence.
    + intros w'' E'. congruence.
Qed.

(** The model of a sequence of two names is accepted, and its two names are
    read; the same sequence announcing a third child is not. *)
Lemma TouchChildNodes_accepts_witness :
  TouchChildNodes sample_model sample_world
  = Ok tt (with_events sample_world [EvTouch "a"; EvTouch "b"]) /\
  exists r w',
    TouchChildNodes
      (Build_XML_Content XML_CTYPE_SEQ XML_CQUANT_NONE None 3
                         (children sample_model)) sample_world
    = Stop r w' /\ (r = AssertionFailed \/ r = OutOfBounds).
Proof.
  split.
  - apply (TouchChildNodes_accepts sample_model sample_world). reflexivity.
  - apply (TouchChildNodes_accepts
             (Build_XML_Content XML_CTYPE_SEQ XML_CQUANT_NONE None 3
                                (children sample_model)) sample_world).
    reflexivity.
Defined.

Lemma for_each_child_beyond body arr extra : forall n w,
    (n <= List.length arr)%nat ->
    for_each_child body n (arr ++ extra) w = for_each_child body n arr w.
Proof.
  induction arr as [|c arr IH]; intros [|n] w Hn; simpl in *;
    try reflexivity; try lia.
  - destruct extra; reflexivity.
  - unfold bind. destruct (body c w) as [u w1|r w1]; [|reflexivity].
    apply IH. lia.
Qed.

(** X6.  The verifier looks at the children a node announces and at no cell
    beyond them: cells added to the array of children after the announced
    count change nothing of what [TouchChildNodes] does, whatever they
    hold. *)
Theorem TouchChildNodes_ignores_cells_beyond_count t q n k arr extra w :
  (k <= List.length arr)%nat ->
  TouchChildNodes (Build_XML_Content t q n k (Some (arr ++ extra))) w =
  TouchChildNodes (Build_XML_Content t q n k (Some arr)) w.
Proof.
  intros Hk. destruct t; cbn [TouchChildNodes]; try reflexivity.
  - unfold bind. destruct (assert _ w); [|reflexivity].
    destruct (assert _ w0); [|reflexivity].
    apply for_each_child_beyond, Hk.
  - unfold bind. destruct (assert _ w); [|reflexivity].
    apply for_each_child_beyond, Hk.
  - unfold bind. destruct (assert _ w); [|reflexivity].
    apply for_each_child_beyond, Hk.
Qed.

(** A cell of an unknown type after the two announced children of the
    sample model is not met. *)
Lemma TouchChildNodes_ignores_cells_beyond_count_witness :
  TouchChildNodes
    (Build_XML_Content XML_CTYPE_SEQ XML_CQUANT_NONE None 2
       (Some ([Build_XML_Content XML_CTYPE_NAME XML_CQUANT_NONE (data "a") 0
                                 None;
               Build_XML_Content XML_CTYPE_NAME XML_CQUANT_OPT (data "b") 0
                                 None]
              ++ [Build_XML_Content (XML_CTYPE_other 9) XML_CQUANT_NONE None 0
                                    None])))
    sample_world
  = TouchChildNodes sample_model sample_world.
Proof.
  apply (TouchChildNodes_ignores_cells_beyond_count XML_CTYPE_SEQ
           XML_CQUANT_NONE None 2).
  simpl. lia.
Defined.

(** ** The allocator over a whole test case *)

(** The events of the run of a test case with an action, and the allocator
    along them. *)
Lemma fuzz_chain env fuel testcase w :
  xml_lpm_fuzzer.actions testcase <> [] ->
  exists evs,
    trace (world_of (fuzz env fuel testcase w)) = trace w ++ evs /\
    alloc_chain (libc env)
      {| allocation_count := 0;
         fail_allocations := xml_lpm_fuzzer.fail_allocations testcase;
         heap := heap (allocator w) |}
      evs (allocator (world_of (fuzz env fuel testcase w))).
Proof.
  intros Hacts.
  destruct (fuzz_unfold env fuel testcase w Hacts) as (parser & w1 & E & Hf).
  assert (H0 : chained env (trace w) (allocator (at_start testcase w))
                       (at_start testcase w)).
  { exists []. split; [simpl; rewrite app_nil_r; reflexivity|apply chain_nil]. }
  pose proof (chained_api env _ _ 0%nat (create_call testcase) _ H0) as H1.
  rewrite E in H1; simpl in H1.
  pose proof (chained_after_create env _ _ fuel testcase parser _ H1) as H2.
  rewrite <- Hf in H2. exact H2.
Qed.

Lemma alloc_hook_cases libc r a :
  alloc_hook libc r a =
  if refused a then (NULL, a) else perform libc (libc_of r) (count_up a).
Proof. destruct r; reflexivity. Qed.

Lemma alloc_chain_heap libc a evs a' :
  alloc_chain libc a evs a' -> heap a' = heap a ++ passed_on evs.
Proof.
  intros H. induction H as [a|a r p a1 evs a2 E H IH
                            |a p evs a2 H IH|a e evs a2 He H IH]; simpl.
  - rewrite app_nil_r. reflexivity.
  - rewrite alloc_hook_cases in E. destruct (refused a).
    + inversion E; subst. exact IH.
    + inversion E; subst. rewrite IH. simpl. rewrite <- app_assoc. reflexivity.
  - rewrite IH. simpl. rewrite <- app_assoc. reflexivity.
  - destruct e; try discriminate; exact IH.
Qed.

Lemma alloc_chain_count libc a evs a' :
  alloc_chain libc a evs a' ->
  - 2 ^ 31 <= allocation_count a ->
  allocation_count a + Z.of_nat (successes evs) < 2 ^ 31 ->
  allocation_count a' = allocation_count a + Z.of_nat (successes evs).
Proof.
  intros H. induction H as [a|a r p a1 evs a2 E H IH
                            |a p evs a2 H IH|a e evs a2 He H IH];
    simpl successes; intros Hlo Hhi.
  - simpl. lia.
  - rewrite alloc_hook_cases in E. destruct (refused a).
    + inversion E; subst. apply IH; assumption.
    + inversion E; subst. simpl in IH.
      rewrite int_wrap_in_range in IH by lia. rewrite IH; lia.
  - apply IH; assumption.
  - destruct e; try discriminate; apply IH; assumption.
Qed.

Lemma alloc_chain_bounded libc N a evs a' :
  alloc_chain libc a evs a' ->
  In N (fail_allocations a) ->
  0 <= allocation_count a <= N -> N < 2 ^ 31 ->
  allocation_count a' <= N /\
  allocation_count a + Z.of_nat (successes evs) <= N.
Proof.
  intros H. induction H as [a|a r p a1 evs a2 E H IH
                            |a p evs a2 H IH|a e evs a2 He H IH];
    simpl successes; intros HN Hc Hmax.
  - simpl. lia.
  - rewrite alloc_hook_cases in E. destruct (refused a) eqn:Er.
    + inversion E; subst. apply IH; assumption.
    + inversion E; subst. simpl in IH.
      assert (Hne : allocation_count a <> N).
      { intros Heq. unfold refused in Er. rewrite Heq in Er.
        apply in_fail_list_In in HN. congruence. }
      rewrite int_wrap_in_range in IH by lia.
      destruct (IH HN) as [H1 H2]; lia.
  - apply IH; assumption.
  - destruct e; try discriminate; apply IH; assumption.
Qed.

(** X7.  The hooks are transparent but for the refusals: over the run of a
    test case, the calls that reach the C allocator are the allocating
    requests of the library that were not refused and all its frees, each
    as the library made it, in the order it made them.  A free is never
    refused. *)
Theorem hooks_pass_on_what_is_not_refused env fuel testcase w :
  let w' := world_of (fuzz env fuel testcase w) in
  exists evs,
    trace w' = trace w ++ evs /\
    heap (allocator w') = heap (allocator w) ++ passed_on evs.
Proof.
  intros w'. subst w'.
  destruct (xml_lpm_fuzzer.actions testcase) as [|a acts] eqn:Hacts.
  - exists []. unfold fuzz, TestOneProtoInput. rewrite Hacts. simpl.
    rewrite !app_nil_r. auto.
  - destruct (fuzz_chain env fuel testcase w) as (evs & Ht & Hc);
      [rewrite Hacts; discriminate|].
    exists evs. split; [exact Ht|].
    apply alloc_chain_heap in Hc. exact Hc.
Qed.

(** X8.  The allocation counter counts the allocations that succeeded: at
    the end of the run of a test case with an action it is the number of
    allocating requests of the run that were not refused (fewer than 2^31
    of them). *)
Theorem counter_counts_successes env fuel testcase w :
  xml_lpm_fuzzer.actions testcase <> [] ->
  let w' := world_of (fuzz env fuel testcase w) in
  exists evs,
    trace w' = trace w ++ evs /\
    (Z.of_nat (successes evs) < 2 ^ 31 ->
     allocation_count (allocator w') = Z.of_nat (successes evs)).
Proof.
  intros Hacts w'. subst w'.
  destruct (fuzz_chain env fuel testcase w Hacts) as (evs & Ht & Hc).
  exists evs. split; [exact Ht|]. intros Hlt.
  apply alloc_chain_count in Hc; simpl in *; lia.
Qed.

(** X9.  An index on the fail-list caps the test case: with [N] on the
    list, not negative, at most [N] allocating requests succeed in the whole
    run, whatever the library asks for, and the counter ends at their
    number; so it never comes to an index of the list above [N]. *)
Theorem failing_index_caps_allocations env fuel testcase w N :
  xml_lpm_fuzzer.actions testcase <> [] ->
  In N (xml_lpm_fuzzer.fail_allocations testcase) ->
  0 <= N < 2 ^ 31 ->
  let w' := world_of (fuzz env fuel testcase w) in
  exists evs,
    trace w' = trace w ++ evs /\
    Z.of_nat (successes evs) <= N /\
    allocation_count (allocator w') = Z.of_nat (successes evs).
Proof.
  intros Hacts HN Hrange w'. subst w'.
  destruct (fuzz_chain env fuel testcase w Hacts) as (evs & Ht & Hc).
  exists evs. split; [exact Ht|].
  pose proof (alloc_chain_bounded _ N _ _ _ Hc) as Hb. simpl in Hb.
  destruct Hb as [H1 H2]; [exact HN|lia|lia|].
  pose proof (alloc_chain_count _ _ _ _ Hc) as Hcount. simpl in Hcount.
  split; [lia|]. apply Hcount; lia.
Qed.

Lemma failing_index_caps_allocations_witness :
  exists evs,
    trace (world_of (fuzz sample_env 5 sample_testcase sample_world))
    = trace sample_world ++ evs /\
    Z.of_nat (successes evs) <= 1.
Proof.
  destruct (failing_index_caps_allocations sample_env 5 sample_testcase
              sample_world 1) as (evs & Ht & Hs & _).
  - discriminate.
  - simpl; auto.
  - lia.
  - exists evs. auto.
Defined.

Lemma counter_counts_successes_witness :
  allocation_count
    (allocator (world_of (fuzz sample_env 5 sample_testcase sample_world)))
  = 1.
Proof.
  destruct (counter_counts_successes sample_env 5 sample_testcase sample_world)
    as (evs & Ht & Hc).
  - discriminate.
  - change (trace sample_world ++ evs) with evs in Ht. subst evs.
    rewrite Hc; vm_compute; reflexivity.
Defined.

(** ** Which calls are made, and from where *)

(** What a call returns is what the library can come back with. *)
Lemma run_upcalls_may_return env {H R} (handler : H -> M (option XML_Status))
  (t : upcalls H R) : forall w r w',
    run_upcalls env handler t w = Ok r w' -> may_return t r.
Proof.
  induction t as [r0|rq k IH|p k IH|h k IH]; intros w r w' E; simpl in *.
  - inversion E. reflexivity.
  - apply bind_inv_Ok in E. destruct E as (p & w1 & _ & E).
    exists p. apply (IH p _ _ _ E).
  - apply bind_inv_Ok in E. destruct E as (u & w1 & _ & E).
    apply (IH _ _ _ E).
  - apply bind_inv_Ok in E. destruct E as (rc & w1 & _ & E).
    exists rc. apply (IH rc _ _ _ E).
Qed.

Lemma api_may_return env d c w r w' :
  api env d c w = Ok r w' ->
  exists history, may_return (lib_call env history c) r.
Proof.
  unfold api. rewrite bind_emit. unfold answer. rewrite bind_read.
  intros E. eexists. apply (run_upcalls_may_return env _ _ _ _ _ E).
Qed.

(** Neither the library nor a handler takes the pending buffer away. *)
Section Pending.

Variable env : Environment.

Lemma pending_emit e : preserves pending (emit e).
Proof. intros w Hw; exact Hw. Qed.

Lemma pending_on_alloc r : preserves pending (on_alloc env r).
Proof.
  intros w Hw. destruct (on_alloc_Ok env r w) as (p & w' & E & _ & _ & _ & He & _).
  rewrite E; simpl. unfold pending. rewrite He. exact Hw.
Qed.

Lemma pending_on_free p : preserves pending (on_free env p).
Proof.
  intros w Hw. destruct (on_free_Ok env p w) as (w' & E & _ & _ & _ & He & _).
  rewrite E; simpl. unfold pending. rewrite He. exact Hw.
Qed.

Lemma pending_api d c : preserves pending (api env d c).
Proof.
  apply api_keeps;
    auto using pending_on_alloc, pending_on_free, pending_emit.
Qed.

Lemma pending_feed fuel d c : preserves pending (feed_at env fuel d c).
Proof.
  apply feed_at_keeps with (d0 := 0%nat);
    try (intros; apply pending_emit);
    auto using pending_on_alloc, pending_on_free.
  lia.
Qed.

End Pending.

(** A continuation that is kept from any world the invariant holds in, with
    what the global read there. *)
Lemma preserves_read_with {A B} J (g : World -> A) (f : A -> M B) :
  (forall w, J w -> J (world_of (f (g w) w))) ->
  preserves J (x <- read g ;; f x).
Proof. intros H w Hw. rewrite bind_read. apply H, Hw. Qed.

(** From the world at hand to the computation run in it. *)
Ltac from_here :=
  cbv beta;
  match goal with
  | Hw : ?J ?w |- ?J (world_of (?m ?w)) =>
      let Hm := fresh "Hm" in
      cut (preserves J m); [intros Hm; exact (Hm w Hw)|]
  end.

(** An invariant is kept by the harness as soon as it is kept by the
    calls the harness makes with the arguments it makes them with. *)
Section OnlyThese.

Variable J : World -> Prop.
Variable call : forall c : api_call, M (ret_type c).
Variable feed : feed_call -> M XML_Status.
Variable patience : nat.

Hypothesis J_touch : forall s, preserves J (emit (EvTouch s)).

#[local] Hint Extern 1 (preserves _ (TouchString _ _)) =>
  apply TouchString_keeps; assumption : pres.
#[local] Hint Extern 1 (preserves _ (TouchChildNodes _)) =>
  apply TouchChildNodes_keeps; assumption : pres.
#[local] Hint Extern 1 (preserves _ (touch_atts _)) =>
  apply touch_atts_keeps; assumption : pres.

Lemma resume_while_suspended_only parser :
  preserves J (feed (XML_ResumeParser parser)) ->
  forall rounds status,
    preserves J (resume_while_suspended feed rounds parser status).
Proof.
  intros Hr rounds. induction rounds as [|n IH]; intros []; simpl; pres.
Qed.

Lemma Parse_only parser input input_len is_final :
  preserves J (feed (XML_Parse parser input input_len is_final)) ->
  preserves J (feed (XML_ResumeParser parser)) ->
  preserves J (Parse feed patience parser input input_len is_final).
Proof.
  intros Hp Hr. unfold Parse. apply preserves_bind; [exact Hp|intros st].
  apply resume_while_suspended_only, Hr.
Qed.

Variable handed : XML_Parser -> Prop.

Hypothesis call_pending : forall c, preserves pending (call c).
Hypothesis call_hands :
  forall parser context encoding w ext w1,
    call (XML_ExternalEntityParserCreate parser context encoding) w
      = Ok ext w1 ->
    handed ext.

Lemma ExternalEntityRefHandler_only parser context base systemId publicId :
  nested_kept J call feed handed parser context ->
  preserves J (ExternalEntityRefHandler call feed patience parser context
                                        base systemId publicId).
Proof.
  intros H. unfold ExternalEntityRefHandler.
  do 4 (apply preserves_bind; [auto with pres|intros _]).
  apply preserves_read_with. intros w Hw.
  destruct (is_null (external_entity w)) eqn:En; [exact Hw|].
  destruct (H w Hw En) as (Hc & _).
  rewrite bind_read.
  pose proof (Hc w Hw) as Hw1.
  pose proof (call_pending
                (XML_ExternalEntityParserCreate parser context (g_encoding w))
                w En) as En1.
  unfold bind at 1.
  destruct (call (XML_ExternalEntityParserCreate parser context
                    (g_encoding w)) w) as [ext_parser w1|r w1] eqn:Ec;
    simpl in Hw1, En1; [|exact Hw1].
  apply call_hands in Ec.
  destruct (H w1 Hw1 En1) as (_ & Hf & Hp & Hr).
  rewrite !bind_read. from_here.
  apply preserves_bind; [apply Parse_only; auto|intros rc].
  apply preserves_bind; [apply Hf, Ec|intros _]. auto with pres.
Qed.

Lemma dispatch_only h :
  (forall userData model,
      preserves J (call (XML_FreeContentModel userData model))) ->
  (forall userData, preserves J (call (XML_StopParser userData true))) ->
  (forall parser context, nested_kept J call feed handed parser context) ->
  preserves J (dispatch call feed patience h).
Proof.
  intros Hm Hs Hn.
  destruct h; unfold dispatch, void, int;
    try (apply preserves_bind;
         [apply ExternalEntityRefHandler_only, Hn|intros ?; auto with pres]);
    unfold ElementDeclHandler, AttlistDeclHandler, XmlDeclHandler,
      StartElementHandler, EndElementHandler, CharacterDataHandler,
      ProcessingInstructionHandler, CommentHandler, StartCdataSectionHandler,
      EndCdataSectionHandler, DefaultHandler, StartDoctypeDeclHandler,
      EndDoctypeDeclHandler, EntityDeclHandler, UnparsedEntityDeclHandler,
      NotationDeclHandler, StartNamespaceDeclHandler, EndNamespaceDeclHandler,
      NotStandaloneHandler, SkippedEntityHandler, UnknownEncodingHandler;
    pres; first [exact (Hm _ _)|exact (Hs _)].
Qed.

Lemma InitializeParser_only parser :
  (forall c, In c (InitializeParser_calls parser) -> preserves J (call c)) ->
  preserves J (InitializeParser call parser).
Proof.
  intros H. unfold InitializeParser.
  pres;
    match goal with
    | |- preserves _ (call ?c) =>
        apply (H c); unfold InitializeParser_calls;
        repeat first [left; reflexivity|right]
    end.
Qed.

Section Replay.

Variable parser : XML_Parser.

Hypothesis reset_kept :
  forall w, J w -> preserves J (call (XML_ParserReset parser (g_encoding w))).
Hypothesis initialize_kept :
  forall c, In c (InitializeParser_calls parser) -> preserves J (call c).
Hypothesis resume_kept : preserves J (feed (XML_ResumeParser parser)).

Lemma reset_only :
  preserves J (encoding <- read g_encoding ;;
               call (XML_ParserReset parser encoding)).
Proof.
  apply preserves_read_with. intros w Hw. apply (reset_kept w Hw w Hw).
Qed.

Lemma reset_and_initialize_only :
  preserves J (encoding <- read g_encoding ;;
               call (XML_ParserReset parser encoding) ;;
               InitializeParser call parser).
Proof.
  apply preserves_read_with. intros w Hw. from_here.
  apply preserves_bind; [apply (reset_kept w Hw)|intros _].
  apply InitializeParser_only, initialize_kept.
Qed.

Lemma replay_action_only action :
  action_kept J feed parser action ->
  preserves J (replay_action call feed patience parser action).
Proof.
  destruct action as [chunk|last_chunk| |bytes|]; simpl; intros Ha.
  - apply preserves_bind; [apply Parse_only; assumption|intros st].
    destruct st; auto with pres. apply reset_only.
  - apply preserves_bind; [apply Parse_only; assumption|intros _].
    apply reset_and_initialize_only.
  - apply reset_and_initialize_only.
  - exact Ha.
  - auto with pres.
Qed.

Lemma replay_only actions :
  Forall (action_kept J feed parser) actions ->
  preserves J (replay call feed patience parser actions).
Proof.
  intros H. induction H as [|a rest Ha _ IH]; simpl; [auto with pres|].
  apply preserves_bind; [apply replay_action_only, Ha|intros _; exact IH].
Qed.

End Replay.

End OnlyThese.

Section OnlyTheseRun.

Variable env : Environment.
Variable J : World -> Prop.

Hypothesis J_alloc : forall r, preserves J (on_alloc env r).
Hypothesis J_free : forall p, preserves J (on_free env p).
Hypothesis J_touch : forall s, preserves J (emit (EvTouch s)).
Hypothesis J_handler : forall h, preserves J (emit (EvHandler h)).
Hypothesis J_free_model : forall d userData model,
    preserves J (emit (EvCall (S d) (XML_FreeContentModel userData model))).
Hypothesis J_stop : forall d userData,
    preserves J (emit (EvCall (S d) (XML_StopParser userData true))).
Hypothesis J_nested :
  forall w, J w -> pending w ->
  forall d,
    (forall parser context,
        preserves J (emit (EvCall (S d)
                             (XML_ExternalEntityParserCreate
                                parser context (g_encoding w))))) /\
    (forall p, handed_out env p ->
               preserves J (emit (EvCall (S d) (XML_ParserFree p)))) /\
    (forall p,
        preserves J
          (emit (EvFeed (S d)
                   (XML_Parse p (external_entity w)
                              (int_wrap (external_entity_size w)) 1)))) /\
    (forall p, preserves J (emit (EvFeed (S d) (XML_ResumeParser p)))).

Lemma api_only d c :
  preserves J (emit (EvCall d c)) -> preserves J (api env d c).
Proof. apply api_keeps; assumption. Qed.

Lemma feed_at_only fuel : forall d c,
    preserves J (emit (EvFeed d c)) -> preserves J (feed_at env fuel d c).
Proof.
  induction fuel as [|fuel IH]; intros d c He; simpl.
  - apply preserves_stop.
  - apply preserves_bind; [exact He|intros _].
    apply answer_keeps; try assumption. intros h.
    apply preserves_bind; [apply J_handler|intros _].
    apply dispatch_only with (handed := handed_out env); try assumption.
    + intros c'; apply pending_api.
    + intros parser context encoding w ext w1 E.
      destruct (api_may_return env _ _ _ _ _ E) as (history & Hr).
      exists history, parser, context, encoding. exact Hr.
    + intros userData model.
      exact (api_only (S d) (XML_FreeContentModel userData model)
                      (J_free_model d userData model)).
    + intros userData.
      exact (api_only (S d) (XML_StopParser userData true)
                      (J_stop d userData)).
    + intros parser context w Hw En.
      destruct (J_nested w Hw En d) as (Hc & Hf & Hp & Hr).
      repeat split; intros.
      * exact (api_only (S d) (XML_ExternalEntityParserCreate
                                 parser context (g_encoding w))
                        (Hc parser context)).
      * match goal with
        | Hh : handed_out env p |- _ =>
            exact (api_only (S d) (XML_ParserFree p) (Hf p Hh))
        end.
      * apply IH, Hp.
      * apply IH, Hr.
Qed.

Lemma after_create_only fuel testcase parser :
  (forall w, J w ->
     preserves J (emit (EvCall 0 (XML_ParserReset parser (g_encoding w))))) ->
  (forall c, In c (InitializeParser_calls parser) ->
             preserves J (emit (EvCall 0 c))) ->
  preserves J (emit (EvFeed 0 (XML_ResumeParser parser))) ->
  preserves J (emit (EvCall 0 (XML_ParserFree parser))) ->
  Forall (action_kept J (feed_at env fuel 0) parser)
         (xml_lpm_fuzzer.actions testcase) ->
  preserves J (after_create env fuel testcase parser).
Proof.
  intros Hreset Hinit Hresume Hfree Hacts. unfold after_create.
  apply preserves_bind; [|intros _; apply preserves_bind; [|intros _]].
  - apply InitializeParser_only. intros c Hc. apply api_only, Hinit, Hc.
  - apply replay_only; try assumption.
    + intros w Hw.
      exact (api_only 0%nat (XML_ParserReset parser (g_encoding w))
                      (Hreset w Hw)).
    + intros c Hc. apply api_only, Hinit, Hc.
    + apply feed_at_only, Hresume.
  - exact (api_only 0%nat (XML_ParserFree parser) Hfree).
Qed.

End OnlyTheseRun.

(** *** The discipline of a run *)

Section Discipline.

Variable env : Environment.
Variable parser : XML_Parser.
Variable enc : option string.
Variable actions : list xml_lpm_fuzzer.Action.
Variable tr0 : list event.

(** A step that adds [evs] to the trace and leaves the encoding name and
    the pending buffer as they are. *)
Lemma discipline_step w w' evs :
  in_discipline parser enc actions tr0 w ->
  g_encoding w' = g_encoding w ->
  external_entity w' = external_entity w ->
  external_entity_size w' = external_entity_size w ->
  trace w' = trace w ++ evs ->
  Forall (disciplined parser enc actions) evs ->
  in_discipline parser enc actions tr0 w'.
Proof.
  intros (Hg & Hb & evs0 & Ht & Hall) Hg' He' Hs' Ht' Hevs.
  split; [congruence|]. split.
  - unfold buffer_consistent, pending. rewrite He', Hs'. exact Hb.
  - exists (evs0 ++ evs). rewrite Ht', Ht, app_assoc. split; [reflexivity|].
    apply Forall_app; split; assumption.
Qed.

Lemma discipline_emit e :
  disciplined parser enc actions e ->
  preserves (in_discipline parser enc actions tr0) (emit e).
Proof.
  intros He w Hw.
  apply (discipline_step w _ [e] Hw); try reflexivity.
  constructor; [exact He|constructor].
Qed.

Lemma discipline_on_alloc r :
  preserves (in_discipline parser enc actions tr0) (on_alloc env r).
Proof.
  intros w Hw.
  destruct (on_alloc_Ok env r w) as (p & w' & E & Ht' & _ & Hg' & He' & Hs').
  rewrite E; simpl.
  apply (discipline_step w _ _ Hw Hg' He' Hs' Ht').
  constructor; [exact I|constructor].
Qed.

Lemma discipline_on_free p :
  preserves (in_discipline parser enc actions tr0) (on_free env p).
Proof.
  intros w Hw.
  destruct (on_free_Ok env p w) as (w' & E & Ht' & _ & Hg' & He' & Hs').
  rewrite E; simpl.
  apply (discipline_step w _ _ Hw Hg' He' Hs' Ht').
  constructor; [exact I|constructor].
Qed.

(** What the invariant gives for the calls a handler makes while a buffer
    is pending. *)
Lemma discipline_nested w :
  in_discipline parser enc actions tr0 w -> pending w ->
  forall d,
    (forall parser' context,
        preserves (in_discipline parser enc actions tr0)
          (emit (EvCall (S d)
                   (XML_ExternalEntityParserCreate
                      parser' context (g_encoding w))))) /\
    (forall p, handed_out env p ->
               preserves (in_discipline parser enc actions tr0)
                 (emit (EvCall (S d) (XML_ParserFree p)))) /\
    (forall p,
        preserves (in_discipline parser enc actions tr0)
          (emit (EvFeed (S d)
                   (XML_Parse p (external_entity w)
                              (int_wrap (external_entity_size w)) 1)))) /\
    (forall p, preserves (in_discipline parser enc actions tr0)
                 (emit (EvFeed (S d) (XML_ResumeParser p)))).
Proof.
  intros (Hg & Hb & _) Hp d.
  repeat split; intros; apply discipline_emit; simpl; auto.
Qed.

Lemma discipline_feed fuel d c :
  disciplined parser enc actions (EvFeed d c) ->
  preserves (in_discipline parser enc actions tr0) (feed_at env fuel d c).
Proof.
  intros Hc. apply feed_at_only.
  - apply discipline_on_alloc.
  - apply discipline_on_free.
  - intros s. apply discipline_emit. exact I.
  - intros h. apply discipline_emit. exact I.
  - intros d' userData model. apply discipline_emit. exact I.
  - intros d' userData. apply discipline_emit. reflexivity.
  - apply discipline_nested.
  - apply discipline_emit, Hc.
Qed.

Lemma discipline_after_create fuel testcase :
  xml_lpm_fuzzer.actions testcase = actions ->
  preserves (in_discipline parser enc actions tr0)
            (after_create env fuel testcase parser).
Proof.
  intros Hacts. apply after_create_only.
  - apply discipline_on_alloc.
  - apply discipline_on_free.
  - intros s. apply discipline_emit. exact I.
  - intros h. apply discipline_emit. exact I.
  - intros d' userData model. apply discipline_emit. exact I.
  - intros d' userData. apply discipline_emit. reflexivity.
  - apply discipline_nested.
  - intros w (Hg & _). apply discipline_emit. left. rewrite Hg. reflexivity.
  - intros c Hc. apply discipline_emit. right; left. exact Hc.
  - apply discipline_emit. reflexivity.
  - apply discipline_emit. right; right. reflexivity.
  - rewrite Hacts. apply Forall_forall. intros a Ha.
    destruct a as [chunk|last_chunk| |bytes|]; simpl; try exact I.
    + apply discipline_feed. split; [reflexivity|].
      exists chunk. auto.
    + apply discipline_feed. split; [reflexivity|].
      exists last_chunk. auto.
    + intros w (Hg & _ & evs & Ht & Hall). split; [exact Hg|]. split.
      * intros _. exists bytes. auto.
      * exists evs. split; [exact Ht|exact Hall].
Qed.

End Discipline.

(** The run of a test case with an action, from the construction of its
    parser on. *)
Lemma fuzz_disciplined env fuel testcase w :
  xml_lpm_fuzzer.actions testcase <> [] ->
  exists parser w1 evs,
    api env 0 (create_call testcase) (at_start testcase w) = Ok parser w1 /\
    trace (world_of (fuzz env fuel testcase w)) = trace w1 ++ evs /\
    Forall (disciplined parser
              (encoding_name (xml_lpm_fuzzer.encoding testcase))
              (xml_lpm_fuzzer.actions testcase)) evs.
Proof.
  intros Hacts.
  destruct (fuzz_unfold env fuel testcase w Hacts) as (parser & w1 & E & Hf).
  destruct (api_steps env 0 (create_call testcase) (at_start testcase w))
    as (parser' & w1' & E' & _ & Hg & He & _).
  rewrite E in E'. inversion E'; subst parser' w1'.
  assert (H1 : in_discipline parser
                 (encoding_name (xml_lpm_fuzzer.encoding testcase))
                 (xml_lpm_fuzzer.actions testcase) (trace w1) w1).
  { split; [exact Hg|]. split.
    - unfold buffer_consistent, pending. rewrite He. discriminate.
    - exists []. rewrite app_nil_r. auto. }
  apply (discipline_after_create env parser _ _ (trace w1) fuel testcase
           eq_refl) in H1.
  rewrite <- Hf in H1. destruct H1 as (_ & _ & evs & Ht & Hall).
  exists parser, w1, evs. auto.
Qed.

(** X10.  The driver works on the parser it got, whatever it is: in the run
    of a test case with an action, every call the driver makes once
    [XML_ParserCreate_MM] has returned is made on the parser that it
    returned, null included (the result is never tested).  The calls are a
    reset under the encoding name of the test case, one of the twenty calls
    of [InitializeParser], or the last free; the feeds are the bytes of a
    Chunk of the test case with the flag 0, those of a LastChunk with the
    flag 1, each with its size as an [int], or a resume. *)
Theorem driver_works_on_the_parser_it_got env fuel testcase w :
  xml_lpm_fuzzer.actions testcase <> [] ->
  exists parser w1 evs,
    api env 0 (create_call testcase) (at_start testcase w) = Ok parser w1 /\
    trace (world_of (fuzz env fuel testcase w)) = trace w1 ++ evs /\
    (forall c, In (EvCall 0 c) evs ->
       driver_call_ok parser
         (encoding_name (xml_lpm_fuzzer.encoding testcase)) c) /\
    (forall c, In (EvFeed 0 c) evs ->
       driver_feed_ok parser (xml_lpm_fuzzer.actions testcase) c).
Proof.
  intros Hacts.
  destruct (fuzz_disciplined env fuel testcase w Hacts)
    as (parser & w1 & evs & E & Ht & Hall).
  exists parser, w1, evs. rewrite Forall_forall in Hall.
  repeat split; try assumption; intros c Hc; exact (Hall _ Hc).
Qed.

Lemma driver_works_on_the_parser_it_got_witness :
  exists evs,
    trace (world_of (fuzz sample_env 5 sample_testcase sample_world))
    = trace (world_of (api sample_env 0 (create_call sample_testcase)
                           (at_start sample_testcase sample_world))) ++ evs /\
    forall c, In (EvFeed 0 c) evs ->
      driver_feed_ok 1 (xml_lpm_fuzzer.actions sample_testcase) c.
Proof.
  destruct (driver_works_on_the_parser_it_got sample_env 5 sample_testcase
              sample_world) as (parser & w1 & evs & E & Ht & _ & Hf).
  - discriminate.
  - vm_compute in E. inversion E; subst parser w1.
    exists evs. split; [exact Ht|exact Hf].
Defined.

(** X11.  What handlers call, at any depth of nesting and whatever the
    library does: in the run of a test case with an action, a call made from
    inside a feed releases a content model, stops the parser, resumably,
    constructs a nested parser under the encoding name of the test case, or
    frees a parser; a feed made from inside a feed is a resume, or feeds, as
    one final chunk, the bytes of an ExternalEntity action of this test case
    with their own size as an [int].  So no handler resets a parser or
    registers a handler (a nested parser keeps what it inherits), no nested
    parser is fed a chunk that is not the last, and none is fed a buffer
    left by an earlier test case or a size that belongs to another buffer. *)
Theorem handlers_make_these_calls_only env fuel testcase w :
  xml_lpm_fuzzer.actions testcase <> [] ->
  exists evs,
    trace (world_of (fuzz env fuel testcase w)) = trace w ++ evs /\
    (forall d c, In (EvCall (S d) c) evs ->
       handler_call_ok (encoding_name (xml_lpm_fuzzer.encoding testcase)) c) /\
    (forall d c, In (EvFeed (S d) c) evs ->
       handler_feed_ok (xml_lpm_fuzzer.actions testcase) c).
Proof.
  intros Hacts.
  destruct (fuzz_disciplined env fuel testcase w Hacts)
    as (parser & w1 & evs & E & Ht & Hall).
  destruct (api_hooks env 0 (create_call testcase) (at_start testcase w))
    as (parser' & w1' & hooks & E' & Ht1 & Hhooks).
  rewrite E in E'. inversion E'; subst parser' w1'.
  rewrite Forall_forall in Hall, Hhooks.
  exists (EvCall 0 (create_call testcase) :: hooks ++ evs). split.
  - rewrite Ht, Ht1. simpl. rewrite <- app_assoc. reflexivity.
  - split; intros d c [Hin|Hin]; try discriminate;
      apply in_app_or in Hin; destruct Hin as [Hin|Hin];
      try (apply Hhooks in Hin; discriminate);
      exact (Hall _ Hin).
Qed.

Lemma handlers_make_these_calls_only_witness :
  exists evs,
    trace (world_of (fuzz sample_env 5 sample_testcase sample_world))
    = trace sample_world ++ evs /\
    forall d c, In (EvFeed (S d) c) evs ->
      handler_feed_ok (xml_lpm_fuzzer.actions sample_testcase) c.
Proof.
  destruct (handlers_make_these_calls_only sample_env 5 sample_testcase
              sample_world) as (evs & Ht & _ & Hf).
  - discriminate.
  - exists evs. split; [exact Ht|exact Hf].
Defined.

(** *** Without a pending buffer *)

Section NeverNested.

Variable env : Environment.
Variable tr0 : list event.

Lemma never_nested_emit e :
  is_nested e = false -> preserves (never_nested tr0) (emit e).
Proof.
  intros He w (Hp & evs & Ht & Hall). split; [exact Hp|].
  exists (evs ++ [e]). simpl. rewrite Ht, app_assoc. split; [reflexivity|].
  apply Forall_app; split; [exact Hall|]. constructor; [exact He|constructor].
Qed.

Lemma never_nested_on_alloc r : preserves (never_nested tr0) (on_alloc env r).
Proof.
  intros w (Hp & evs & Ht & Hall).
  destruct (on_alloc_Ok env r w) as (p & w' & E & Ht' & _ & _ & He & _).
  rewrite E; simpl. split; [congruence|].
  exists (evs ++ [EvAlloc r (allocator w) p (allocator w')]).
  rewrite Ht', Ht, app_assoc. split; [reflexivity|].
  apply Forall_app; split; [exact Hall|].
  constructor; [reflexivity|constructor].
Qed.

Lemma never_nested_on_free p : preserves (never_nested tr0) (on_free env p).
Proof.
  intros w (Hp & evs & Ht & Hall).
  destruct (on_free_Ok env p w) as (w' & E & Ht' & _ & _ & He & _).
  rewrite E; simpl. split; [congruence|].
  exists (evs ++ [EvFree p]).
  rewrite Ht', Ht, app_assoc. split; [reflexivity|].
  apply Forall_app; split; [exact Hall|].
  constructor; [reflexivity|constructor].
Qed.

Lemma never_nested_no_buffer w :
  never_nested tr0 w -> is_null (external_entity w) = false -> False.
Proof. intros (Hp & _). rewrite Hp. discriminate. Qed.

Lemma never_nested_feed fuel c :
  preserves (never_nested tr0) (feed_at env fuel 0 c).
Proof.
  apply feed_at_only.
  - apply never_nested_on_alloc.
  - apply never_nested_on_free.
  - intros s. apply never_nested_emit. reflexivity.
  - intros h. apply never_nested_emit. reflexivity.
  - intros d userData model. apply never_nested_emit. reflexivity.
  - intros d userData. apply never_nested_emit. reflexivity.
  - intros w Hw En. destruct (never_nested_no_buffer w Hw En).
  - apply never_nested_emit. reflexivity.
Qed.

Lemma never_nested_api c : preserves (never_nested tr0) (api env 0 c).
Proof.
  apply api_keeps.
  - apply never_nested_on_alloc.
  - apply never_nested_on_free.
  - apply never_nested_emit. reflexivity.
Qed.

Lemma never_nested_after_create fuel testcase parser :
  forallb (fun a => negb (is_external_entity a))
          (xml_lpm_fuzzer.actions testcase) = true ->
  preserves (never_nested tr0) (after_create env fuel testcase parser).
Proof.
  intros Hacts. apply after_create_only.
  - apply never_nested_on_alloc.
  - apply never_nested_on_free.
  - intros s. apply never_nested_emit. reflexivity.
  - intros h. apply never_nested_emit. reflexivity.
  - intros d userData model. apply never_nested_emit. reflexivity.
  - intros d userData. apply never_nested_emit. reflexivity.
  - intros w Hw En. destruct (never_nested_no_buffer w Hw En).
  - intros w _. apply never_nested_emit. reflexivity.
  - intros c _. apply never_nested_emit. reflexivity.
  - apply never_nested_emit. reflexivity.
  - apply never_nested_emit. reflexivity.
  - rewrite forallb_forall in Hacts. apply Forall_forall. intros a Ha.
    specialize (Hacts a Ha).
    destruct a as [chunk|last_chunk| |bytes|]; simpl; try exact I;
      try apply never_nested_feed.
    discriminate.
Qed.

End NeverNested.

(** X12.  Nested parsers come from ExternalEntity actions only: in the run
    of a test case none of whose actions is an ExternalEntity, whatever the
    library does and whatever was pending when the run began, no nested
    parser is constructed, no handler frees a parser, and no feed is made
    from inside a feed. *)
Theorem no_nested_parser_without_external_entity env fuel testcase w :
  forallb (fun a => negb (is_external_entity a))
          (xml_lpm_fuzzer.actions testcase) = true ->
  exists evs,
    trace (world_of (fuzz env fuel testcase w)) = trace w ++ evs /\
    Forall (fun e => is_nested e = false) evs.
Proof.
  intros Hno.
  destruct (xml_lpm_fuzzer.actions testcase) as [|a acts] eqn:Hacts.
  - exists []. unfold fuzz, TestOneProtoInput. rewrite Hacts. simpl.
    rewrite app_nil_r. auto.
  - assert (Hne : xml_lpm_fuzzer.actions testcase <> [])
      by (rewrite Hacts; discriminate).
    destruct (fuzz_unfold env fuel testcase w Hne) as (parser & w1 & E & Hf).
    assert (H0 : never_nested (trace w) (at_start testcase w)).
    { split; [reflexivity|]. exists []. simpl. rewrite app_nil_r. auto. }
    pose proof (never_nested_api env (trace w) (create_call testcase) _ H0)
      as H1.
    rewrite E in H1; simpl in H1.
    apply (never_nested_after_create env (trace w) fuel testcase parser)
      in H1; [|rewrite Hacts; exact Hno].
    rewrite <- Hf in H1. destruct H1 as (_ & evs & Ht & Hall).
    exists evs. auto.
Qed.

Lemma no_nested_parser_without_external_entity_witness :
  exists evs,
    trace (world_of (fuzz sample_env 5 two_index_testcase stuck_world))
    = trace stuck_world ++ evs /\
    Forall (fun e => is_nested e = false) evs.
Proof.
  apply (no_nested_parser_without_external_entity sample_env 5
           two_index_testcase stuck_world).
  reflexivity.
Defined.

(** ** What a test case inherits *)

Lemma blind_ret {A} s (a : A) : blind_to_size s (ret a).
Proof. intros w; reflexivity. Qed.

Lemma blind_stop {A} s r : blind_to_size s (@stop A r).
Proof. intros w; reflexivity. Qed.

Lemma blind_assert s b : blind_to_size s (assert b).
Proof. destruct b; intros w; reflexivity. Qed.

Lemma blind_emit s e : blind_to_size s (emit e).
Proof. intros [g [o|] z a t]; reflexivity. Qed.

Lemma blind_set_allocator s a : blind_to_size s (set_allocator a).
Proof. intros [g [o|] z a0 t]; reflexivity. Qed.

Lemma blind_read {A} s (g : World -> A) :
  (forall w, g (with_stale_size s w) = g w) -> blind_to_size s (read g).
Proof. intros H w. unfold read. rewrite H. reflexivity. Qed.

Lemma blind_bind {A B} s (m : M A) (f : A -> M B) :
  blind_to_size s m -> (forall a, blind_to_size s (f a)) ->
  blind_to_size s (x <- m ;; f x).
Proof.
  intros Hm Hf w. unfold bind. rewrite Hm.
  destruct (m w) as [a w1|r w1]; simpl; [apply Hf|reflexivity].
Qed.

(** With a buffer pending, before and after, any computation is blind. *)
Lemma blind_when_pending {A} s (m : M A) w :
  pending w -> pending (world_of (m w)) ->
  m (with_stale_size s w) = outcome_map (with_stale_size s) (m w).
Proof.
  unfold pending, with_stale_size. intros Hw Hw'.
  destruct (external_entity w); [|discriminate].
  destruct (m w) as [a w1|r w1]; simpl in *;
    destruct (external_entity w1); try discriminate; reflexivity.
Qed.

Create HintDb blind.

#[local] Hint Resolve blind_ret blind_stop blind_assert blind_emit
  blind_set_allocator : blind.
#[local] Hint Extern 1 (blind_to_size _ (read _)) =>
  apply blind_read; intros [? [?|] ? ? ?]; reflexivity : blind.

Ltac blind_step :=
  match goal with
  | |- blind_to_size _ (bind _ _) => apply blind_bind; [|intros ?]
  | |- blind_to_size _ (if ?b then _ else _) => destruct b
  | |- blind_to_size _ (match ?x with _ => _ end) => destruct x
  | |- blind_to_size _ _ => solve [auto with blind]
  end.

Ltac blind := repeat blind_step.

(** A call, by what is known of all calls. *)
Ltac by_call H :=
  match goal with
  | |- _ (_ ?c) => exact (H c)
  end.

Section Blind.

Variable s : Z.

Lemma TouchString_blind p len : blind_to_size s (TouchString p len).
Proof. unfold TouchString. blind. Qed.

#[local] Hint Resolve TouchString_blind : blind.

Lemma for_each_child_blind body n arr :
  Forall (fun c => blind_to_size s (body c)) arr ->
  blind_to_size s (for_each_child body n arr).
Proof.
  intros Harr. revert n. induction Harr as [|c arr Hc _ IH]; intros [|n]; simpl;
    blind.
Qed.

Lemma for_children_blind body n ch :
  match ch with
  | Some arr => Forall (fun c => blind_to_size s (body c)) arr
  | None => True
  end ->
  blind_to_size s (for_children body n ch).
Proof.
  destruct ch as [arr|]; simpl; intros H.
  - apply for_each_child_blind; exact H.
  - destruct n; blind.
Qed.

Lemma touch_mixed_child_blind c : blind_to_size s (touch_mixed_child c).
Proof. unfold touch_mixed_child. blind. Qed.

Lemma TouchChildNodes_blind content : blind_to_size s (TouchChildNodes content).
Proof.
  induction content as [t q n k ch IH] using XML_Content_induction.
  destruct t; simpl; blind;
    apply for_children_blind; destruct ch as [arr|]; try exact I; try exact IH.
  apply Forall_forall; intros c _; apply touch_mixed_child_blind.
Qed.

Lemma touch_atts_blind atts : blind_to_size s (touch_atts atts).
Proof. induction atts as [|[obj|] atts IH]; simpl; blind. Qed.

#[local] Hint Resolve TouchChildNodes_blind touch_atts_blind : blind.

Section Harness.

Variable call : forall c : api_call, M (ret_type c).
Variable feed : feed_call -> M XML_Status.
Variable patience : nat.

Hypothesis call_blind : forall c, blind_to_size s (call c).
Hypothesis feed_blind : forall c, blind_to_size s (feed c).

Lemma resume_while_suspended_blind rounds parser status :
  blind_to_size s (resume_while_suspended feed rounds parser status).
Proof.
  revert status; induction rounds as [|n IH]; intros []; simpl; blind.
Qed.

Lemma Parse_blind parser input input_len is_final :
  blind_to_size s (Parse feed patience parser input input_len is_final).
Proof.
  unfold Parse. blind. apply resume_while_suspended_blind.
Qed.

#[local] Hint Resolve Parse_blind : blind.

Lemma InitializeParser_blind parser :
  blind_to_size s (InitializeParser call parser).
Proof. unfold InitializeParser. blind; by_call call_blind. Qed.

Lemma replay_action_blind parser action :
  blind_to_size s (replay_action call feed patience parser action).
Proof.
  destruct action as [chunk|last_chunk| |bytes|]; simpl;
    try (intros [g [o|] z a t]; reflexivity);
    blind; try by_call call_blind; try apply InitializeParser_blind.
Qed.

Lemma replay_blind parser actions :
  blind_to_size s (replay call feed patience parser actions).
Proof.
  induction actions as [|a rest IH]; simpl; blind.
  apply replay_action_blind.
Qed.

Hypothesis call_pending : forall c, preserves pending (call c).
Hypothesis feed_pending : forall c, preserves pending (feed c).

Lemma ExternalEntityRefHandler_blind parser context base systemId publicId :
  blind_to_size s (ExternalEntityRefHandler call feed patience parser context
                                            base systemId publicId).
Proof.
  unfold ExternalEntityRefHandler.
  do 4 (apply blind_bind; [apply TouchString_blind|intros _]).
  intros w. destruct (is_null (external_entity w)) eqn:En.
  - rewrite !bind_read.
    replace (external_entity (with_stale_size s w)) with (external_entity w)
      by (destruct w as [g [o|] z a t]; reflexivity).
    rewrite En. reflexivity.
  - apply blind_when_pending; [exact En|].
    rewrite bind_read, En. rewrite bind_read.
    assert (Hw : pending w) by exact En. from_here.
    pres; first [by_call call_pending|apply Parse_keeps; assumption].
Qed.

Lemma dispatch_blind h : blind_to_size s (dispatch call feed patience h).
Proof.
  destruct h; unfold dispatch, void, int;
    try (apply blind_bind;
         [apply ExternalEntityRefHandler_blind|intros ?; auto with blind]);
    unfold ElementDeclHandler, AttlistDeclHandler, XmlDeclHandler,
      StartElementHandler, EndElementHandler, CharacterDataHandler,
      ProcessingInstructionHandler, CommentHandler, StartCdataSectionHandler,
      EndCdataSectionHandler, DefaultHandler, StartDoctypeDeclHandler,
      EndDoctypeDeclHandler, EntityDeclHandler, UnparsedEntityDeclHandler,
      NotationDeclHandler, StartNamespaceDeclHandler, EndNamespaceDeclHandler,
      NotStandaloneHandler, SkippedEntityHandler, UnknownEncodingHandler;
    blind; by_call call_blind.
Qed.

End Harness.

End Blind.

Section BlindRun.

Variable env : Environment.
Variable s : Z.

Lemma on_alloc_blind r : blind_to_size s (on_alloc env r).
Proof.
  unfold on_alloc. apply blind_bind; [auto with blind|intros before].
  destruct (alloc_hook (libc env) r before) as [p after]. blind.
Qed.

Lemma on_free_blind p : blind_to_size s (on_free env p).
Proof. unfold on_free. blind. Qed.

Lemma run_upcalls_blind {H R} (handler : H -> M (option XML_Status))
  (t : upcalls H R) :
  (forall h, blind_to_size s (handler h)) ->
  blind_to_size s (run_upcalls env handler t).
Proof.
  intros Hh. induction t as [r|r k IH|p k IH|h k IH]; simpl; blind;
    auto using on_alloc_blind, on_free_blind.
Qed.

Lemma answer_blind {H R} (handler : H -> M (option XML_Status))
  (lib : list event -> upcalls H R) :
  (forall h, blind_to_size s (handler h)) ->
  blind_to_size s (answer env handler lib).
Proof. intros Hh. unfold answer. blind. apply run_upcalls_blind, Hh. Qed.

Lemma api_blind d c : blind_to_size s (api env d c).
Proof. unfold api. blind. apply answer_blind. intros []. Qed.

Lemma feed_at_blind fuel d c : blind_to_size s (feed_at env fuel d c).
Proof.
  destruct fuel as [|fuel]; simpl.
  - apply blind_stop.
  - apply blind_bind; [apply blind_emit|intros _].
    apply answer_blind. intros h.
    apply blind_bind; [apply blind_emit|intros _].
    apply dispatch_blind.
    + intros c'; apply api_blind.
    + intros c'; apply pending_api.
    + intros c'; apply pending_feed.
Qed.

Lemma after_create_blind fuel testcase parser :
  blind_to_size s (after_create env fuel testcase parser).
Proof.
  unfold after_create.
  apply blind_bind; [|intros _; apply blind_bind; [|intros _]].
  - apply InitializeParser_blind. intros c; apply api_blind.
  - apply replay_blind.
    + intros c; apply api_blind.
    + intros c; apply feed_at_blind.
  - exact (api_blind 0%nat (XML_ParserFree parser)).
Qed.

End BlindRun.

(** X13.  A test case inherits nothing that it reads.  Of the globals of
    the harness a test case with an action sets the encoding name, the
    pending buffer, the allocation counter and the fail-list before their
    first use, but not the size of the pending buffer; that one is read
    only while a buffer is pending, which an ExternalEntity action of the
    same test case has then set with its size.  So two runs of the test
    case against the same library, from worlds with the same history of
    events and the same history of the C allocator, go the same way
    whatever else the test cases before left behind: the same outcome, the
    same events, the same allocator state and globals at the end, but for
    the size of the pending buffer when no buffer is pending at the end. *)
Theorem test_case_inherits_nothing_it_reads env fuel testcase w1 w2 :
  xml_lpm_fuzzer.actions testcase <> [] ->
  trace w1 = trace w2 ->
  heap (allocator w1) = heap (allocator w2) ->
  fuzz env fuel testcase w2 =
  outcome_map (with_stale_size (external_entity_size w2))
              (fuzz env fuel testcase w1).
Proof.
  intros Hacts Ht Hh.
  destruct (fuzz_unfold env fuel testcase w1 Hacts) as (p1 & w1' & E1 & Hf1).
  destruct (fuzz_unfold env fuel testcase w2 Hacts) as (p2 & w2' & E2 & Hf2).
  assert (Hs : at_start testcase w2 =
               with_stale_size (external_entity_size w2)
                               (at_start testcase w1)).
  { unfold at_start, with_stale_size. simpl. rewrite Ht, Hh. reflexivity. }
  rewrite Hs, api_blind, E1 in E2. simpl in E2.
  inversion E2; subst p2 w2'.
  rewrite Hf2, Hf1. apply after_create_blind.
Qed.

Lemma test_case_inherits_nothing_it_reads_witness :
  fuzz sample_env 5 sample_testcase fresh_world =
  outcome_map (with_stale_size 0) (fuzz sample_env 5 sample_testcase stuck_world).
Proof.
  apply (test_case_inherits_nothing_it_reads sample_env 5 sample_testcase
           stuck_world fresh_world).
  - discriminate.
  - reflexivity.
  - reflexivity.
Defined.

(** ** The chunks, in order *)

Lemma parses_app tr1 tr2 : parses (tr1 ++ tr2) = parses tr1 ++ parses tr2.
Proof. apply filter_app. Qed.

Lemma parses_calls_at tr : parses (calls_at 0 tr) = parses tr.
Proof.
  induction tr as [|e tr IH]; [reflexivity|].
  destruct e as [d c|d c| | | |]; simpl; try exact IH.
  - destruct d; simpl; exact IH.
  - destruct d; simpl; [|exact IH]. destruct c; simpl; rewrite IH; reflexivity.
Qed.

(** What the driver has fed, from what it has called. *)
Lemma parses_of_calls w w' seg :
  calls_at 0 (trace w') = calls_at 0 (trace w) ++ seg ->
  parses (trace w') = parses (trace w) ++ parses seg.
Proof.
  intros H. rewrite <- (parses_calls_at (trace w')), H, parses_app.
  rewrite parses_calls_at. reflexivity.
Qed.

Lemma parses_resumes parser k :
  parses (repeat (EvFeed 0 (XML_ResumeParser parser)) k) = [].
Proof. induction k as [|k IH]; [reflexivity|exact IH]. Qed.

Lemma parses_calls cs : parses (map (EvCall 0) cs) = [].
Proof. induction cs as [|c cs IH]; [reflexivity|exact IH]. Qed.

(** The resumes of the wrapper, however they end. *)
Lemma resume_while_suspended_calls env fuel d parser rounds : forall st w,
  exists k,
    calls_at d (trace (world_of
      (resume_while_suspended (feed_at env (S fuel) d) rounds parser st w))) =
    calls_at d (trace w) ++ repeat (EvFeed d (XML_ResumeParser parser)) k.
Proof.
  induction rounds as [|n IH]; intros st w.
  - exists 0%nat. destruct st; simpl; rewrite app_nil_r; reflexivity.
  - destruct st; try (exists 0%nat; simpl; rewrite app_nil_r; reflexivity).
    cbn [resume_while_suspended].
    pose proof (feed_at_view env fuel d (XML_ResumeParser parser) w) as Hv.
    apply view_eq in Hv. destruct Hv as (Hc & _).
    unfold bind.
    destruct (feed_at env (S fuel) d (XML_ResumeParser parser) w)
      as [st1 w1|r w1]; simpl in Hc.
    + destruct (IH st1 w1) as (k & Hk). exists (S k).
      rewrite Hk, Hc, <- app_assoc. reflexivity.
    + exists 1%nat. simpl. exact Hc.
Qed.

(** The calls of the wrapper, however it ends: the feed, then resumes;
    nothing at all when the run is cut before the feed. *)
Lemma Parse_calls env fuel d patience parser input input_len is_final w :
  exists k,
    calls_at d (trace (world_of
      (Parse (feed_at env fuel d) patience parser input input_len is_final w)))
    = calls_at d (trace w) ++
      match fuel with
      | O => []
      | S _ => EvFeed d (XML_Parse parser input input_len is_final)
               :: repeat (EvFeed d (XML_ResumeParser parser)) k
      end.
Proof.
  destruct fuel as [|fuel].
  - exists 0%nat. simpl. rewrite app_nil_r. reflexivity.
  - unfold Parse.
    pose proof (feed_at_view env fuel d
                  (XML_Parse parser input input_len is_final) w) as Hv.
    apply view_eq in Hv. destruct Hv as (Hc & _).
    unfold bind.
    destruct (feed_at env (S fuel) d
                (XML_Parse parser input input_len is_final) w)
      as [st1 w1|r w1]; simpl in Hc.
    + destruct (resume_while_suspended_calls env fuel d parser patience st1 w1)
        as (k & Hk).
      exists k. rewrite Hk, Hc, <- app_assoc. reflexivity.
    + exists 0%nat. simpl. exact Hc.
Qed.

(** The wrapper, a chunk at hand: the chunk has been fed when it returns,
    and has been fed or not when it does not. *)
Lemma Parse_parses env fuel parser input input_len is_final w :
  let o := Parse (feed_at env fuel 0) fuel parser input input_len is_final w in
  let fed := [EvFeed 0 (XML_Parse parser input input_len is_final)] in
  (parses (trace (world_of o)) = parses (trace w) ++ fed \/
   parses (trace (world_of o)) = parses (trace w) /\
   forall st w', o <> Ok st w').
Proof.
  intros o fed. subst o fed.
  destruct (Parse_calls env fuel 0 fuel parser input input_len is_final w)
    as (k & Hc).
  apply parses_of_calls in Hc. destruct fuel as [|fuel].
  - right. split; [|discriminate].
    rewrite Hc. simpl. rewrite app_nil_r. reflexivity.
  - left. rewrite Hc. simpl. rewrite parses_resumes. reflexivity.
Qed.

(** One action: its feed has been made when the round returns, and has been
    made or not when it does not. *)
(** The run at hand is known. *)
Ltac run_is E :=
  match type of E with
  | _ = ?r =>
      match goal with
      | |- context [world_of ?o] => replace o with r by (symmetry; exact E)
      end
  end.

Lemma replay_action_parses env fuel parser action w :
  let o := replay_action (api env 0) (feed_at env fuel 0) fuel parser action w
  in
  parses (trace (world_of o)) = parses (trace w) ++ chunk_feed parser action \/
  parses (trace (world_of o)) = parses (trace w) /\ forall w', o <> Ok tt w'.
Proof.
  destruct action as [chunk|last_chunk| |bytes|]; simpl.
  - destruct (Parse_parses env fuel parser (data chunk)
                (int_wrap (size chunk)) 0 w) as [Hp|[Hp Hno]];
      destruct (Parse (feed_at env fuel 0) fuel parser (data chunk)
                  (int_wrap (size chunk)) 0 w) as [st w1|r w1] eqn:EP;
      simpl in Hp;
      try rewrite (bind_Ok _ _ _ _ _ EP);
      try rewrite (bind_Stop _ _ _ _ _ EP).
    + left. destruct st; try exact Hp.
      rewrite bind_read.
      destruct (api_steps env 0 (XML_ParserReset parser (g_encoding w1)) w1)
        as ([] & w2 & E2 & Hc & _).
      run_is E2. simpl. apply parses_of_calls in Hc.
      rewrite Hc, Hp. simpl. rewrite app_nil_r. reflexivity.
    + left. exact Hp.
    + destruct (Hno st w1 eq_refl).
    + right. split; [exact Hp|discriminate].
  - destruct (Parse_parses env fuel parser (data last_chunk)
                (int_wrap (size last_chunk)) 1 w) as [Hp|[Hp Hno]];
      destruct (Parse (feed_at env fuel 0) fuel parser (data last_chunk)
                  (int_wrap (size last_chunk)) 1 w) as [st w1|r w1] eqn:EP;
      simpl in Hp;
      try rewrite (bind_Ok _ _ _ _ _ EP);
      try rewrite (bind_Stop _ _ _ _ _ EP).
    + left.
      destruct (reset_and_initialize env parser w1) as (w2 & E2 & Hc & _).
      run_is E2. simpl. apply parses_of_calls in Hc.
      rewrite Hc, Hp. simpl. rewrite ?parses_calls, ?app_nil_r. reflexivity.
    + left. exact Hp.
    + destruct (Hno st w1 eq_refl).
    + right. split; [exact Hp|discriminate].
  - left. destruct (reset_and_initialize env parser w) as (w2 & E2 & Hc & _).
    run_is E2. simpl. apply parses_of_calls in Hc.
    rewrite Hc. simpl. rewrite ?parses_calls. reflexivity.
  - left. rewrite app_nil_r. reflexivity.
  - left. rewrite app_nil_r. reflexivity.
Qed.

(** The loop over the actions: it has made the feeds of the first [n]
    actions, in their order, and of all when it returns. *)
Lemma replay_parses env fuel parser actions : forall w,
  let o := replay (api env 0) (feed_at env fuel 0) fuel parser actions w in
  exists n,
    parses (trace (world_of o)) =
      parses (trace w) ++ chunk_feeds parser (firstn n actions) /\
    (forall w', o = Ok tt w' -> n = List.length actions).
Proof.
  induction actions as [|action rest IH]; intros w; simpl.
  - exists 0%nat. rewrite app_nil_r. auto.
  - destruct (replay_action_parses env fuel parser action w) as [Hp|[Hp Hno]];
      destruct (replay_action (api env 0) (feed_at env fuel 0) fuel parser
                  action w) as [[] w1|r w1] eqn:Ea;
      simpl in Hp;
      try rewrite (bind_Ok _ _ _ _ _ Ea);
      try rewrite (bind_Stop _ _ _ _ _ Ea).
    + destruct (IH w1) as (n & Hn & Hret). exists (S n). split.
      * rewrite Hn, Hp. simpl. unfold chunk_feeds at 2. simpl.
        rewrite <- app_assoc. reflexivity.
      * intros w' E. rewrite (Hret w' E). reflexivity.
    + exists 1%nat. split; [|discriminate]. simpl.
      unfold chunk_feeds; simpl. rewrite app_nil_r. exact Hp.
    + destruct (Hno w1 eq_refl).
    + exists 0%nat. simpl. rewrite app_nil_r. split; [exact Hp|discriminate].
Qed.

(** X14.  The replay feeds the chunks of the test case, and nothing else,
    in their order: in the run of a test case with an action, the calls of
    [XML_Parse] that the driver makes are those of the Chunk and LastChunk
    actions among the first [n] actions, one for each and in the order of
    the actions, on the parser the construction returned, with the bytes,
    with their size as an [int], and with the flag 0 for a Chunk and 1 for a
    LastChunk; a reset or a status in between changes nothing of it; and
    when the run returns, [n] is the number of actions: no chunk was
    skipped and none fed twice. *)
Theorem chunks_are_fed_in_order env fuel testcase w :
  xml_lpm_fuzzer.actions testcase <> [] ->
  exists parser w1 n,
    api env 0 (create_call testcase) (at_start testcase w) = Ok parser w1 /\
    parses (trace (world_of (fuzz env fuel testcase w))) =
      parses (trace w) ++
      chunk_feeds parser (firstn n (xml_lpm_fuzzer.actions testcase)) /\
    (forall w', fuzz env fuel testcase w = Ok tt w' ->
                n = List.length (xml_lpm_fuzzer.actions testcase)).
Proof.
  intros Hacts.
  destruct (fuzz_unfold env fuel testcase w Hacts) as (parser & w1 & E & Hf).
  destruct (api_steps env 0 (create_call testcase) (at_start testcase w))
    as (parser' & w1' & E' & Hc1 & _).
  rewrite E in E'. inversion E'; subst parser' w1'.
  apply parses_of_calls in Hc1. simpl in Hc1. rewrite app_nil_r in Hc1.
  destruct (InitializeParser_steps env 0 parser w1) as ([] & w2 & E2 & Hc2 & _).
  apply parses_of_calls in Hc2. rewrite parses_calls, app_nil_r in Hc2.
  destruct (replay_parses env fuel parser (xml_lpm_fuzzer.actions testcase) w2)
    as (n & Hn & Hret).
  exists parser, w1, n. split; [exact E|].
  rewrite Hf. unfold after_create.
  rewrite (bind_Ok _ _ _ _ _ E2). unfold bind.
  destruct (replay (api env 0) (feed_at env fuel 0) fuel parser
              (xml_lpm_fuzzer.actions testcase) w2) as [[] w3|r w3];
    simpl in Hn.
  - destruct (api_steps env 0 (XML_ParserFree parser) w3)
      as ([] & w4 & E4 & Hc4 & _).
    rewrite E4. simpl. apply parses_of_calls in Hc4.
    simpl in Hc4. rewrite app_nil_r in Hc4.
    split; [congruence|]. intros w' _. apply (Hret w3 eq_refl).
  - simpl. split; [congruence|discriminate].
Qed.

Lemma chunks_are_fed_in_order_witness :
  parses (trace (world_of (fuzz sample_env 5 sample_testcase sample_world)))
  = [EvFeed 0 (XML_Parse 1 (data "<a>") 3 0)].
Proof.
  destruct (chunks_are_fed_in_order sample_env 5 sample_testcase sample_world)
    as (parser & w1 & n & E & Hp & Hn).
  - discriminate.
  - vm_compute in E. inversion E; subst parser w1.
    destruct (fuzz sample_env 5 sample_testcase sample_world) as [[] w'|r w']
      eqn:Ef.
    + rewrite (Hn w' eq_refl) in Hp. exact Hp.
    + vm_compute in Ef. discriminate.
Defined.

(** ** What the handlers leave alone *)

Section Settings.

Variable env : Environment.
Variable V : option string * cstr * Z * list Z.

Lemma settings_emit e : preserves (fun w => settings w = V) (emit e).
Proof. intros w Hw; exact Hw. Qed.

Lemma settings_on_alloc r :
  preserves (fun w => settings w = V) (on_alloc env r).
Proof.
  intros w Hw.
  destruct (on_alloc_Ok env r w) as (p & w' & E & _ & Hh & Hg & He & Hs).
  rewrite E; simpl. apply alloc_hook_fail_list in Hh.
  rewrite <- Hw. unfold settings. congruence.
Qed.

Lemma settings_on_free p :
  preserves (fun w => settings w = V) (on_free env p).
Proof.
  intros w Hw.
  destruct (on_free_Ok env p w) as (w' & E & _ & Ha & Hg & He & Hs).
  rewrite E; simpl. rewrite <- Hw. unfold settings.
  rewrite Hg, He, Hs, Ha. reflexivity.
Qed.

End Settings.

(** X15.  Handlers and hooks write none of the settings of a test case:
    whatever the library does inside a feed, at any depth (handlers called,
    allocations made or refused, nested parsers fed), the encoding name, the
    pending buffer and its size, and the fail-list are after the feed what
    they were before it, whether the feed returns or the run stops in it;
    and so for one handler call.  The allocation counter and the history of
    the C allocator are all that moves. *)
Theorem handlers_keep_the_settings env fuel d :
  (forall c w, settings (world_of (feed_at env fuel d c w)) = settings w) /\
  (forall h w, settings (world_of (handle env fuel d h w)) = settings w).
Proof.
  split; intros x w.
  - apply (feed_at_keeps env (fun w' => settings w' = settings w)
             (settings_on_alloc env _) (settings_on_free env _) 0%nat);
      try (intros; apply settings_emit); [lia|reflexivity].
  - apply (handle_keeps env (fun w' => settings w' = settings w)
             (settings_on_alloc env _) (settings_on_free env _) 0%nat);
      try (intros; apply settings_emit); [lia|reflexivity].
Qed.

(** ** The handler that is never registered *)

Lemma InitializeParser_calls_registers parser c :
  In c (InitializeParser_calls parser) ->
  ~ In fn_UnparsedEntityDeclHandler (registers c).
Proof.
  unfold InitializeParser_calls. simpl.
  intros H.
  repeat (destruct H as [<-|H];
          [simpl; intros Hin;
           repeat (destruct Hin as [Hin|Hin]; [discriminate|]); exact Hin|]).
  destruct H.
Qed.

(** X16.  [UnparsedEntityDeclHandler] is never registered, and handlers
    register nothing: in the run of any test case no call into the library,
    by the driver or by a handler, at any depth, passes
    [UnparsedEntityDeclHandler]; and every call that registers a handler is
    made by the driver and is one of the calls of [InitializeParser] on the
    parser the construction returned. *)
Theorem unparsed_entity_handler_never_registered env fuel testcase w :
  exists parser evs,
    trace (world_of (fuzz env fuel testcase w)) = trace w ++ evs /\
    forall d c,
      In (EvCall d c) evs ->
      ~ In fn_UnparsedEntityDeclHandler (registers c) /\
      (registers c <> [] ->
       d = 0%nat /\ In c (InitializeParser_calls parser)).
Proof.
  destruct (xml_lpm_fuzzer.actions testcase) as [|a acts] eqn:Hacts.
  - exists NULL, []. unfold fuzz, TestOneProtoInput. rewrite Hacts. simpl.
    rewrite app_nil_r. split; [reflexivity|]. intros d c [].
  - assert (Hne : xml_lpm_fuzzer.actions testcase <> [])
      by (rewrite Hacts; discriminate).
    destruct (fuzz_disciplined env fuel testcase w Hne)
      as (parser & w1 & evs & E & Ht & Hall).
    destruct (api_hooks env 0 (create_call testcase) (at_start testcase w))
      as (parser' & w1' & hooks & E' & Ht1 & Hhooks).
    rewrite E in E'. inversion E'; subst parser' w1'.
    rewrite Forall_forall in Hall, Hhooks.
    exists parser, (EvCall 0 (create_call testcase) :: hooks ++ evs). split.
    + rewrite Ht, Ht1. simpl. rewrite <- app_assoc. reflexivity.
    + assert (Hnone : forall c', registers c' = [] ->
                ~ In fn_UnparsedEntityDeclHandler (registers c') /\
                (registers c' <> [] ->
                 0%nat = 0%nat /\ In c' (InitializeParser_calls parser))).
      { intros c' Hr. rewrite Hr. split; [intros []|]. intros H; destruct H.
        reflexivity. }
      intros d c [Hin|Hin].
      * inversion Hin; subst. apply Hnone. reflexivity.
      * apply in_app_or in Hin. destruct Hin as [Hin|Hin];
          [apply Hhooks in Hin; discriminate|].
        apply Hall in Hin. destruct d as [|d]; simpl in Hin.
        -- destruct Hin as [->|[Hin| ->]];
             try (apply Hnone; reflexivity).
           split; [|intros _; split; [reflexivity|exact Hin]].
           apply InitializeParser_calls_registers with (parser := parser).
           exact Hin.
        -- assert (Hr : registers c = [])
             by (destruct c; simpl in Hin; try destruct Hin; reflexivity).
           rewrite Hr. split; [intros []|]. intros H; destruct H.
           reflexivity.
Qed.

(** ** The buffer that is pending *)

Section Buffer.

Variable env : Environment.
Variable V : cstr * Z.

Lemma buffer_emit e : preserves (fun w => buffer w = V) (emit e).
Proof. intros w Hw; exact Hw. Qed.

Lemma buffer_on_alloc r : preserves (fun w => buffer w = V) (on_alloc env r).
Proof.
  intros w Hw.
  destruct (on_alloc_Ok env r w) as (p & w' & E & _ & _ & _ & He & Hs).
  rewrite E; simpl. rewrite <- Hw. unfold buffer. congruence.
Qed.

Lemma buffer_on_free p : preserves (fun w => buffer w = V) (on_free env p).
Proof.
  intros w Hw.
  destruct (on_free_Ok env p w) as (w' & E & _ & _ & _ & He & Hs).
  rewrite E; simpl. rewrite <- Hw. unfold buffer. congruence.
Qed.

Lemma buffer_api d c : preserves (fun w => buffer w = V) (api env d c).
Proof.
  apply api_keeps;
    auto using buffer_on_alloc, buffer_on_free, buffer_emit.
Qed.

Lemma buffer_feed fuel d c :
  preserves (fun w => buffer w = V) (feed_at env fuel d c).
Proof.
  apply feed_at_keeps with (d0 := 0%nat);
    try (intros; apply buffer_emit);
    auto using buffer_on_alloc, buffer_on_free.
  lia.
Qed.

(** An action that is no ExternalEntity leaves the pending buffer alone,
    however its round ends. *)
Lemma buffer_replay_action fuel parser action :
  is_external_entity action = false ->
  preserves (fun w => buffer w = V)
    (replay_action (api env 0) (feed_at env fuel 0) fuel parser action).
Proof.
  intros Ha.
  apply replay_action_only.
  - intros w _. exact (buffer_api 0%nat (XML_ParserReset parser (g_encoding w))).
  - intros c _. apply buffer_api.
  - apply buffer_feed.
  - destruct action; try discriminate; simpl; try exact I; apply buffer_feed.
Qed.

End Buffer.

Lemma replay_buffer env fuel parser actions : forall w,
  let o := replay (api env 0) (feed_at env fuel 0) fuel parser actions w in
  exists n,
    buffer (world_of o) = pending_after (firstn n actions) (buffer w) /\
    (forall w', o = Ok tt w' -> n = List.length actions).
Proof.
  induction actions as [|action rest IH]; intros w; simpl.
  - exists 0%nat. auto.
  - destruct (is_external_entity action) eqn:Ha.
    + destruct action as [| | |bytes|]; try discriminate. simpl.
      unfold bind at 1. simpl.
      match goal with
      | |- context [replay _ _ _ _ rest ?w1] =>
          destruct (IH w1) as (n & Hn & Hret)
      end.
      exists (S n). split; [exact Hn|].
      intros w' E. rewrite (Hret w' E). reflexivity.
    + pose proof (buffer_replay_action env (buffer w) fuel parser action Ha
                    w eq_refl) as Hb.
      destruct (replay_action (api env 0) (feed_at env fuel 0) fuel parser
                  action w) as [[] w1|r w1] eqn:Ea; simpl in Hb.
      * rewrite (bind_Ok _ _ _ _ _ Ea).
        destruct (IH w1) as (n & Hn & Hret). exists (S n). split.
        -- rewrite Hn, Hb. simpl. destruct action; try discriminate; reflexivity.
        -- intros w' E. rewrite (Hret w' E). reflexivity.
      * rewrite (bind_Stop _ _ _ _ _ Ea). exists 0%nat.
        split; [exact Hb|discriminate].
Qed.

(** X17.  The last ExternalEntity stays pending.  In the run of a test case
    with an action the pending buffer starts as null; an ExternalEntity
    action puts its bytes there with their size, and nothing else writes
    it: not a feed, whatever happens in it, not a Reset, not the reset after
    a LastChunk or after an error.  So where the run ends, after [n] of the
    actions (all of them when it returns), the buffer pending is that of
    the last ExternalEntity among these, and null when there is none. *)
Theorem last_external_entity_stays_pending env fuel testcase w :
  xml_lpm_fuzzer.actions testcase <> [] ->
  exists n,
    buffer (world_of (fuzz env fuel testcase w)) =
      pending_after (firstn n (xml_lpm_fuzzer.actions testcase))
                    (None, external_entity_size w) /\
    (forall w', fuzz env fuel testcase w = Ok tt w' ->
                n = List.length (xml_lpm_fuzzer.actions testcase)).
Proof.
  intros Hacts.
  destruct (fuzz_unfold env fuel testcase w Hacts) as (parser & w1 & E & Hf).
  pose proof (buffer_api env (None, external_entity_size w) 0%nat
                (create_call testcase) (at_start testcase w) eq_refl) as H1.
  rewrite E in H1; simpl in H1.
  destruct (InitializeParser_steps env 0 parser w1)
    as ([] & w2 & E2 & _ & _ & He2 & Hs2).
  assert (H2 : buffer w2 = (None, external_entity_size w))
    by (rewrite <- H1; unfold buffer; congruence).
  destruct (replay_buffer env fuel parser (xml_lpm_fuzzer.actions testcase) w2)
    as (n & Hn & Hret).
  exists n. rewrite Hf. unfold after_create.
  rewrite (bind_Ok _ _ _ _ _ E2).
  destruct (replay (api env 0) (feed_at env fuel 0) fuel parser
              (xml_lpm_fuzzer.actions testcase) w2) as [[] w3|r w3] eqn:Er;
    simpl in Hn.
  - rewrite (bind_Ok _ _ _ _ _ Er).
    pose proof (buffer_api env (buffer w3) 0%nat (XML_ParserFree parser)
                  w3 eq_refl) as H4.
    split; [|intros w' _; apply (Hret w3 eq_refl)].
    rewrite <- H2, <- Hn. exact H4.
  - rewrite (bind_Stop _ _ _ _ _ Er). simpl.
    split; [rewrite <- H2; exact Hn|discriminate].
Qed.

Lemma last_external_entity_stays_pending_witness :
  buffer (world_of (fuzz sample_env 5 sample_testcase sample_world))
  = (data "<e/>", 4).
Proof.
  destruct (last_external_entity_stays_pending sample_env 5 sample_testcase
              sample_world) as (n & Hb & Hn).
  - discriminate.
  - destruct (fuzz sample_env 5 sample_testcase sample_world) as [[] w'|r w']
      eqn:Ef.
    + rewrite (Hn w' eq_refl) in Hb. exact Hb.
    + vm_compute in Ef. discriminate.
Defined.

(** ** The main parser, over the whole run *)

Section NoNestedFree.

Variable env : Environment.
Variable parser : XML_Parser.
Variable tr0 : list event.

Hypothesis parser_not_handed_out : ~ handed_out env parser.

Lemma no_nested_free_emit e :
  frees_nested parser e = false ->
  preserves (no_nested_free parser tr0) (emit e).
Proof.
  intros He w (evs & Ht & Hall).
  exists (evs ++ [e]). simpl. rewrite Ht, app_assoc. split; [reflexivity|].
  apply Forall_app; split; [exact Hall|]. constructor; [exact He|constructor].
Qed.

Lemma no_nested_free_on_alloc r :
  preserves (no_nested_free parser tr0) (on_alloc env r).
Proof.
  intros w (evs & Ht & Hall).
  destruct (on_alloc_Ok env r w) as (p & w' & E & Ht' & _).
  rewrite E; simpl.
  exists (evs ++ [EvAlloc r (allocator w) p (allocator w')]).
  rewrite Ht', Ht, app_assoc. split; [reflexivity|].
  apply Forall_app; split; [exact Hall|].
  constructor; [reflexivity|constructor].
Qed.

Lemma no_nested_free_on_free p :
  preserves (no_nested_free parser tr0) (on_free env p).
Proof.
  intros w (evs & Ht & Hall).
  destruct (on_free_Ok env p w) as (w' & E & Ht' & _).
  rewrite E; simpl.
  exists (evs ++ [EvFree p]).
  rewrite Ht', Ht, app_assoc. split; [reflexivity|].
  apply Forall_app; split; [exact Hall|].
  constructor; [reflexivity|constructor].
Qed.

(** A handler frees what the construction of a nested parser returned to
    it, which is not [parser]. *)
Lemma no_nested_free_nested w :
  no_nested_free parser tr0 w -> pending w ->
  forall d,
    (forall parser' context,
        preserves (no_nested_free parser tr0)
          (emit (EvCall (S d)
                   (XML_ExternalEntityParserCreate
                      parser' context (g_encoding w))))) /\
    (forall p, handed_out env p ->
               preserves (no_nested_free parser tr0)
                 (emit (EvCall (S d) (XML_ParserFree p)))) /\
    (forall p,
        preserves (no_nested_free parser tr0)
          (emit (EvFeed (S d)
                   (XML_Parse p (external_entity w)
                              (int_wrap (external_entity_size w)) 1)))) /\
    (forall p, preserves (no_nested_free parser tr0)
                 (emit (EvFeed (S d) (XML_ResumeParser p)))).
Proof.
  intros _ _ d. repeat split; intros; apply no_nested_free_emit;
    try reflexivity.
  simpl. apply Z.eqb_neq. intros Heq. subst p.
  apply parser_not_handed_out. assumption.
Qed.

Lemma no_nested_free_feed fuel c :
  preserves (no_nested_free parser tr0) (feed_at env fuel 0 c).
Proof.
  apply feed_at_only.
  - apply no_nested_free_on_alloc.
  - apply no_nested_free_on_free.
  - intros s. apply no_nested_free_emit. reflexivity.
  - intros h. apply no_nested_free_emit. reflexivity.
  - intros d userData model. apply no_nested_free_emit. reflexivity.
  - intros d userData. apply no_nested_free_emit. reflexivity.
  - apply no_nested_free_nested.
  - apply no_nested_free_emit. reflexivity.
Qed.

Lemma no_nested_free_api c :
  preserves (no_nested_free parser tr0) (api env 0 c).
Proof.
  apply api_keeps.
  - apply no_nested_free_on_alloc.
  - apply no_nested_free_on_free.
  - apply no_nested_free_emit. reflexivity.
Qed.

Lemma no_nested_free_after_create fuel testcase :
  preserves (no_nested_free parser tr0)
            (after_create env fuel testcase parser).
Proof.
  apply after_create_only.
  - apply no_nested_free_on_alloc.
  - apply no_nested_free_on_free.
  - intros s. apply no_nested_free_emit. reflexivity.
  - intros h. apply no_nested_free_emit. reflexivity.
  - intros d userData model. apply no_nested_free_emit. reflexivity.
  - intros d userData. apply no_nested_free_emit. reflexivity.
  - apply no_nested_free_nested.
  - intros w _. apply no_nested_free_emit. reflexivity.
  - intros c _. apply no_nested_free_emit. reflexivity.
  - apply no_nested_free_emit. reflexivity.
  - apply no_nested_free_emit. reflexivity.
  - apply Forall_forall. intros a _.
    destruct a as [chunk|last_chunk| |bytes|]; simpl; try exact I;
      try apply no_nested_free_feed.
    intros w H; exact H.
Qed.

End NoNestedFree.

Lemma filter_none {A} (f : A -> bool) l :
  Forall (fun x => f x = false) l -> filter f l = [].
Proof.
  intros H. induction H as [|x l Hx _ IH]; simpl; [reflexivity|].
  rewrite Hx. exact IH.
Qed.

Lemma disciplined_constructs parser enc actions e :
  disciplined parser enc actions e -> constructs e = false.
Proof.
  destruct e as [d c|d c| | | |]; try reflexivity.
  destruct d as [|d]; simpl.
  - intros [->|[H| ->]]; try reflexivity.
    unfold InitializeParser_calls in H. simpl in H.
    repeat (destruct H as [<-|H]; [reflexivity|]). destruct H.
  - destruct c; simpl; intros H; try reflexivity; destruct H.
Qed.

(** With no free by a handler, the frees of [parser] are among the calls of
    the driver. *)
Lemma frees_by_driver parser evs :
  Forall (fun e => frees_nested parser e = false) evs ->
  filter (frees parser) evs = filter (frees parser) (calls_at 0 evs).
Proof.
  intros H. induction H as [|e evs He _ IH]; [reflexivity|].
  unfold calls_at in *. cbn [filter].
  destruct e as [d c|d c| | | |]; cbn [is_call_at frees] in *;
    try exact IH.
  - destruct d as [|d]; cbn [Nat.eqb].
    + cbn [filter frees]. rewrite IH. reflexivity.
    + simpl in He. destruct c; try exact IH. rewrite He. exact IH.
  - destruct (d =? 0)%nat; [cbn [filter frees]|]; exact IH.
Qed.

Lemma replay_call_frees parser e :
  is_replay_call e = true -> frees parser e = false.
Proof.
  destruct e as [d c|d c| | | |]; try reflexivity.
  destruct c; simpl; try reflexivity; discriminate.
Qed.

(** The calls the driver itself makes in the run of a test case with an
    action: the construction, the calls of the replay, and when the run
    returns the free; and the run returns when each feed through the
    wrapper does. *)
Lemma driver_calls_of_run env fuel testcase w :
  xml_lpm_fuzzer.actions testcase <> [] ->
  exists parser w1,
    api env 0 (create_call testcase) (at_start testcase w) = Ok parser w1 /\
    let o := fuzz env fuel testcase w in
    (exists mid,
        Forall (fun e => is_replay_call e = true) mid /\
        calls_at 0 (trace (world_of o)) =
          calls_at 0 (trace w) ++
          EvCall 0 (create_call testcase) :: mid ++
          match o with
          | Ok _ _ => [EvCall 0 (XML_ParserFree parser)]
          | Stop _ _ => []
          end) /\
    ((forall p input input_len is_final w0,
         exists st w0',
           Parse (feed_at env fuel 0) fuel p input input_len is_final w0
             = Ok st w0') ->
     exists w', o = Ok tt w').
Proof.
  intros Hacts.
  destruct (fuzz_unfold env fuel testcase w Hacts) as (parser & w1 & E & Hf).
  exists parser, w1. split; [exact E|]. intros o. subst o. rewrite Hf.
  destruct (api_steps env 0 (create_call testcase) (at_start testcase w))
    as (parser' & w1' & E' & Hc1 & _).
  rewrite E in E'. inversion E'; subst parser' w1'. clear E'.
  simpl in Hc1.
  set (base := calls_at 0 (trace w) ++ [EvCall 0 (create_call testcase)]).
  assert (H1 : replaying base w1).
  { exists []. split; [rewrite app_nil_r; exact Hc1|constructor]. }
  apply (replaying_initialize_and_replay env base fuel parser
           (xml_lpm_fuzzer.actions testcase)) in H1.
  unfold after_create.
  assert (Hassoc : forall w0,
             (InitializeParser (api env 0) parser ;;
              replay (api env 0) (feed_at env fuel 0) fuel parser
                     (xml_lpm_fuzzer.actions testcase) ;;
              api env 0 (XML_ParserFree parser)) w0 =
             ((InitializeParser (api env 0) parser ;;
               replay (api env 0) (feed_at env fuel 0) fuel parser
                      (xml_lpm_fuzzer.actions testcase)) ;;
              api env 0 (XML_ParserFree parser)) w0).
  { intros w0. unfold bind.
    destruct (InitializeParser (api env 0) parser w0); reflexivity. }
  rewrite Hassoc.
  destruct ((InitializeParser (api env 0) parser ;;
             replay (api env 0) (feed_at env fuel 0) fuel parser
                    (xml_lpm_fuzzer.actions testcase)) w1)
    as [[] w3|r w3] eqn:E3; simpl in H1; destruct H1 as (mid & Hc3 & Hm).
  - destruct (api_steps env 0 (XML_ParserFree parser) w3)
      as ([] & w4 & E4 & Hc4 & _).
    rewrite (bind_Ok _ _ _ _ _ E3), E4. split.
    + exists mid. split; [exact Hm|]. simpl. rewrite Hc4, Hc3. unfold base.
      rewrite <- !app_assoc. reflexivity.
    + intros _. exists w4. reflexivity.
  - rewrite (bind_Stop _ _ _ _ _ E3). split.
    + exists mid. split; [exact Hm|]. simpl. rewrite Hc3. unfold base.
      rewrite app_nil_r, <- app_assoc. reflexivity.
    + intros HP. exfalso.
      destruct (InitializeParser_steps env 0 parser w1) as ([] & w2 & E2 & _).
      rewrite (bind_Ok _ _ _ _ _ E2) in E3.
      destruct (replay_returns env fuel parser
                  (xml_lpm_fuzzer.actions testcase) HP w2) as (w' & E5).
      rewrite E5 in E3. discriminate.
Qed.


Lemma hook_event_constructs e : is_hook_event e = true -> constructs e = false.
Proof. destruct e; try reflexivity; discriminate. Qed.



